(** * Token lifecycle and authenticated requests of the Microsoft To Do MCP server

    A shallow embedding of [src/token-manager.ts] (class [TokenManager]) and of
    the request helpers of [src/todo-index.ts] ([makeGraphRequest],
    [getAccessToken]), with the properties of the specification that concern
    them.  Further on, [isPersonalMicrosoftAccount], the query of [get-tasks]
    and the ten tools whose texts are ASCII, with properties of their own.

    Conventions of the embedding.
    - A JavaScript string is a [string]; its characters are the code units
      0..255.  A JSON text that denotes a code unit above 255 (an escape
      [\uXXXX] with XXXX > 00FF) is outside the model: the parser answers
      [OutOfModel] for it, and every operation that meets [OutOfModel] ends in
      the outcome [Unmodelled], about which nothing is stated.
    - A JavaScript number that the code computes with is an integer, [NaN]
      or, where [JSON.parse] may have put it, [null] ([NumberOrNull]); the
      arithmetic on integers is that of [Z], which is the arithmetic of
      doubles as long as the values stay within the safe integers.  The
      statements that depend on it say so ([safe], [Json.exact]).  A number
      with a fraction or an exponent is outside the model.
    - An [async] function is run to completion: no other task interleaves at
      its [await] points.
    - [fs.existsSync], [fs.readFileSync] and [fs.writeFileSync] act on a finite
      map from paths to contents.  A path may hold something that cannot be
      read ([Unreadable]), and the process may be unable to write at a path
      ([write_error]): the call then throws, as [process.cwd()] does when the
      working directory is gone ([cwd_error]).  [console.error], [path.join]
      and [os.homedir] do not throw. *)

From Stdlib Require Import ZArith NArith String Ascii List Bool Lia.
From Stdlib Require Import DecimalString DecimalN DecimalFacts.
From stdpp Require Import base option gmap strings.
Import ListNotations.

Set Warnings "-register-all".
Open Scope string_scope.
Open Scope Z_scope.

(** ** Characters and strings *)

Module Chars.

Definition dquote : ascii := "034"%char.
Definition backslash : ascii := "092"%char.
Definition newline : ascii := "010"%char.

Definition code (c : ascii) : N := N_of_ascii c.

Definition is_ws (c : ascii) : bool :=
  (code c =? 32)%N || (code c =? 9)%N || (code c =? 10)%N || (code c =? 13)%N.

Definition is_digit (c : ascii) : bool :=
  (48 <=? code c)%N && (code c <=? 57)%N.

(** Value of a hexadecimal digit, in either case. *)
Definition hex_val (c : ascii) : option N :=
  let n := code c in
  if (48 <=? n)%N && (n <=? 57)%N then Some (n - 48)%N
  else if (97 <=? n)%N && (n <=? 102)%N then Some (n - 87)%N
  else if (65 <=? n)%N && (n <=? 70)%N then Some (n - 55)%N
  else None.

(** Lower-case hexadecimal digit of a value below 16, as [JSON.stringify]
    writes it. *)
Definition hex_digit (n : N) : ascii :=
  if (n <? 10)%N then ascii_of_N (48 + n) else ascii_of_N (87 + n).

Definition str (c : ascii) : string := String c EmptyString.

End Chars.

Import Chars.

(** [String.prototype.includes]: [needle] occurs somewhere in [hay]. *)
Fixpoint includes (hay needle : string) : bool :=
  String.prefix needle hay ||
  match hay with
  | EmptyString => false
  | String _ rest => includes rest needle
  end.

(** Decimal numerals, as [Number.prototype.toString] writes an integer. *)
Definition print_N (n : N) : string := NilZero.string_of_uint (N.to_uint n).

Definition print_Z (z : Z) : string :=
  match z with
  | Zneg p => "-" ++ print_N (Npos p)
  | _ => print_N (Z.to_N z)
  end.

(** ** JSON values and texts *)

(** A parsed JSON value.  A number written as an integer literal carries its
    value; any other number literal (fraction, exponent) carries its text and
    is never computed with.  The members of an object are in property order
    and their names are pairwise different. *)
Inductive json : Type :=
| JNull
| JBool (b : bool)
| JInt (z : Z)
| JReal (lexeme : string)
| JStr (s : string)
| JArr (items : list json)
| JObj (members : list (string * json)).

(** Outcome of a parser on a text: a value with the rest of the text, a
    [SyntaxError], or a text outside the model. *)
Inductive presult (A : Type) : Type :=
| Parsed (a : A) (rest : string)
| SyntaxErr
| OutOfModel.
Arguments Parsed {A} a rest.
Arguments SyntaxErr {A}.
Arguments OutOfModel {A}.

Definition pmap {A B} (f : A -> B) (r : presult A) : presult B :=
  match r with
  | Parsed a rest => Parsed (f a) rest
  | SyntaxErr => SyntaxErr
  | OutOfModel => OutOfModel
  end.

Module Json.

(** *** Objects as ordered property lists *)

(** Property read [o[k]]. *)
Fixpoint get (k : string) (ms : list (string * json)) : option json :=
  match ms with
  | [] => None
  | (k', v) :: rest => if String.eqb k k' then Some v else get k rest
  end.

(** Property write [o[k] = v]: an existing property keeps its place, a new
    one goes last. *)
Fixpoint set (k : string) (v : json) (ms : list (string * json))
  : list (string * json) :=
  match ms with
  | [] => [(k, v)]
  | (k', v') :: rest =>
      if String.eqb k k' then (k', v) :: rest else (k', v') :: set k v rest
  end.

(** [ToBoolean] on a JSON value; [None] where it depends on the value of a
    number literal that the model does not evaluate. *)
Definition truthy (v : json) : option bool :=
  match v with
  | JNull => Some false
  | JBool b => Some b
  | JInt z => Some (negb (z =? 0))
  | JReal _ => None
  | JStr s => Some (negb (String.eqb s EmptyString))
  | JArr _ => Some true
  | JObj _ => Some true
  end.

(** *** Printing *)

(** [QuoteJSONString] on one code unit. *)
Definition escape_char (c : ascii) : string :=
  let n := code c in
  if (n =? 34)%N then String backslash (str dquote)
  else if (n =? 92)%N then String backslash (str backslash)
  else if (n =? 8)%N then String backslash "b"
  else if (n =? 9)%N then String backslash "t"
  else if (n =? 10)%N then String backslash "n"
  else if (n =? 12)%N then String backslash "f"
  else if (n =? 13)%N then String backslash "r"
  else if (n <? 32)%N then
    String backslash
      (String "u" (String "0" (String "0"
         (String (hex_digit (n / 16)) (str (hex_digit (n mod 16)))))))
  else str c.

Fixpoint escape (s : string) : string :=
  match s with
  | EmptyString => EmptyString
  | String c rest => escape_char c ++ escape rest
  end.

Definition quote (s : string) : string :=
  String dquote (escape s ++ str dquote).

(** *** Parsing *)

Fixpoint skip_ws (s : string) : string :=
  match s with
  | EmptyString => EmptyString
  | String c rest => if is_ws c then skip_ws rest else s
  end.

Definition cons_char (c : ascii) (r : presult string) : presult string :=
  pmap (String c) r.

(** The four hexadecimal digits of a [\u] escape. *)
Definition hex4 (a b c d : ascii) : option N :=
  match hex_val a, hex_val b, hex_val c, hex_val d with
  | Some x, Some y, Some z, Some w =>
      Some (((x * 16 + y) * 16 + z) * 16 + w)%N
  | _, _, _, _ => None
  end.

(** The characters of a string literal, after its opening quote and up to
    and including its closing quote. *)
Fixpoint parse_chars (s : string) : presult string :=
  match s with
  | EmptyString => SyntaxErr
  | String c rest =>
      if (code c =? 34)%N then Parsed EmptyString rest
      else if (code c =? 92)%N then
        match rest with
        | EmptyString => SyntaxErr
        | String e rest1 =>
            let n := code e in
            if (n =? 34)%N then cons_char dquote (parse_chars rest1)
            else if (n =? 92)%N then cons_char backslash (parse_chars rest1)
            else if (n =? 47)%N then cons_char "/"%char (parse_chars rest1)
            else if (n =? 98)%N then cons_char "008"%char (parse_chars rest1)
            else if (n =? 102)%N then cons_char "012"%char (parse_chars rest1)
            else if (n =? 110)%N then cons_char "010"%char (parse_chars rest1)
            else if (n =? 114)%N then cons_char "013"%char (parse_chars rest1)
            else if (n =? 116)%N then cons_char "009"%char (parse_chars rest1)
            else if (n =? 117)%N then
              match rest1 with
              | String h1 (String h2 (String h3 (String h4 rest2))) =>
                  match hex4 h1 h2 h3 h4 with
                  | Some u =>
                      if (u <? 256)%N
                      then cons_char (ascii_of_N u) (parse_chars rest2)
                      else OutOfModel
                  | None => SyntaxErr
                  end
              | _ => SyntaxErr
              end
            else SyntaxErr
        end
      else if (code c <? 32)%N then SyntaxErr
      else cons_char c (parse_chars rest)
  end.

(** The longest prefix of decimal digits, and what follows it. *)
Fixpoint take_digits (s : string) : string * string :=
  match s with
  | EmptyString => (EmptyString, EmptyString)
  | String c rest =>
      if is_digit c
      then let (ds, rest') := take_digits rest in (String c ds, rest')
      else (EmptyString, s)
  end.

(** The integer part of a JSON number: [0], or digits without a leading
    zero. *)
Definition int_part_ok (ds : string) : bool :=
  match ds with
  | EmptyString => false
  | String c EmptyString => true
  | String c _ => negb (code c =? 48)%N
  end.

(** An optional fraction [.digits]: its text and the rest; [None] when the
    point is not followed by a digit. *)
Definition take_frac (s : string) : option (string * string) :=
  match s with
  | String "." rest =>
      match take_digits rest with
      | (EmptyString, _) => None
      | (ds, rest') => Some (String "." ds, rest')
      end
  | _ => Some (EmptyString, s)
  end.

(** An optional exponent [e|E [+|-] digits]. *)
Definition take_exp (s : string) : option (string * string) :=
  match s with
  | String c rest =>
      if (code c =? 101)%N || (code c =? 69)%N then
        let (sign, rest1) :=
          match rest with
          | String "+" r => ("+", r)
          | String "-" r => ("-", r)
          | _ => (EmptyString, rest)
          end in
        match take_digits rest1 with
        | (EmptyString, _) => None
        | (ds, rest') => Some (String c (sign ++ ds), rest')
        end
      else Some (EmptyString, s)
  | EmptyString => Some (EmptyString, s)
  end.

Definition digits_value (ds : string) : Z :=
  match NilZero.uint_of_string ds with
  | Some u => Z.of_N (N.of_uint u)
  | None => 0
  end.

(** An optional minus sign. *)
Definition take_sign (s : string) : bool * string :=
  match s with
  | String c rest => if (code c =? 45)%N then (true, rest) else (false, s)
  | EmptyString => (false, s)
  end.

(** A number literal, at the start of [s]. *)
Definition parse_number (s : string) : presult json :=
  let (neg, s1) := take_sign s in
  let (ds, s2) := take_digits s1 in
  if int_part_ok ds then
    match take_frac s2 with
    | None => SyntaxErr
    | Some (fr, s3) =>
        match take_exp s3 with
        | None => SyntaxErr
        | Some (ex, s4) =>
            match fr, ex with
            | EmptyString, EmptyString =>
                Parsed (JInt (if neg then - digits_value ds else digits_value ds)) s4
            | _, _ =>
                Parsed (JReal ((if neg then "-" else EmptyString) ++ ds ++ fr ++ ex)) s4
            end
        end
    end
  else SyntaxErr.

(** A keyword [true], [false] or [null]. *)
Definition parse_keyword (kw : string) (v : json) (s : string) : presult json :=
  if String.prefix kw s
  then Parsed v (String.substring (String.length kw)
                   (String.length s - String.length kw) s)
  else SyntaxErr.

(** A value, the members of an object after its opening brace, the items of
    an array after its opening bracket.  [fuel] bounds the depth of the
    calls; a text of length [n] never needs more than [2 * n + 1]
    ([parse_fuel_enough] below). *)
Fixpoint parse_value (fuel : nat) (s : string) {struct fuel} : presult json :=
  match fuel with
  | O => OutOfModel
  | S fuel' =>
      match skip_ws s with
      | EmptyString => SyntaxErr
      | String c rest =>
          let n := code c in
          if (n =? 123)%N then
            match skip_ws rest with
            | String "}" rest' => Parsed (JObj []) rest'
            | _ => parse_members fuel' [] rest
            end
          else if (n =? 91)%N then
            match skip_ws rest with
            | String "]" rest' => Parsed (JArr []) rest'
            | _ => parse_items fuel' [] rest
            end
          else if (n =? 34)%N then pmap JStr (parse_chars rest)
          else if (n =? 116)%N then parse_keyword "true" (JBool true) (String c rest)
          else if (n =? 102)%N then parse_keyword "false" (JBool false) (String c rest)
          else if (n =? 110)%N then parse_keyword "null" JNull (String c rest)
          else if (n =? 45)%N || is_digit c then parse_number (String c rest)
          else SyntaxErr
      end
  end
with parse_members (fuel : nat) (acc : list (string * json)) (s : string)
       {struct fuel} : presult json :=
  match fuel with
  | O => OutOfModel
  | S fuel' =>
      match skip_ws s with
      | String c rest =>
          if (code c =? 34)%N then
            match parse_chars rest with
            | Parsed k rest1 =>
                match skip_ws rest1 with
                | String ":" rest2 =>
                    match parse_value fuel' rest2 with
                    | Parsed v rest3 =>
                        match skip_ws rest3 with
                        | String "," rest4 => parse_members fuel' (set k v acc) rest4
                        | String "}" rest4 => Parsed (JObj (set k v acc)) rest4
                        | _ => SyntaxErr
                        end
                    | SyntaxErr => SyntaxErr
                    | OutOfModel => OutOfModel
                    end
                | _ => SyntaxErr
                end
            | SyntaxErr => SyntaxErr
            | OutOfModel => OutOfModel
            end
          else SyntaxErr
      | EmptyString => SyntaxErr
      end
  end
with parse_items (fuel : nat) (acc : list json) (s : string)
       {struct fuel} : presult json :=
  match fuel with
  | O => OutOfModel
  | S fuel' =>
      match parse_value fuel' s with
      | Parsed v rest =>
          match skip_ws rest with
          | String "," rest' => parse_items fuel' (acc ++ [v]) rest'
          | String "]" rest' => Parsed (JArr (acc ++ [v])) rest'
          | _ => SyntaxErr
          end
      | SyntaxErr => SyntaxErr
      | OutOfModel => OutOfModel
      end
  end.

(** [JSON.parse]: one value, surrounded by white space only. *)
Definition parse (text : string) : presult json :=
  match parse_value (S (2 * String.length text)) text with
  | Parsed v rest =>
      match skip_ws rest with
      | EmptyString => Parsed v EmptyString
      | _ => SyntaxErr
      end
  | SyntaxErr => SyntaxErr
  | OutOfModel => OutOfModel
  end.

(** *** Printing with an indentation of two spaces *)

Fixpoint join (sep : string) (parts : list string) : string :=
  match parts with
  | [] => EmptyString
  | [p] => p
  | p :: rest => p ++ sep ++ join sep rest
  end.

(** [JSON.stringify(v, null, 2)], at the indentation [ind]. *)
Fixpoint stringify_at (ind : string) (v : json) {struct v} : string :=
  let ind' := ind ++ "  " in
  let sep := String "," (String newline ind') in
  match v with
  | JNull => "null"
  | JBool true => "true"
  | JBool false => "false"
  | JInt z => print_Z z
  | JReal lexeme => lexeme
  | JStr s => quote s
  | JArr [] => "[]"
  | JArr items =>
      "[" ++ String newline ind'
        ++ join sep (map (stringify_at ind') items)
        ++ String newline ind ++ "]"
  | JObj [] => "{}"
  | JObj members =>
      "{" ++ String newline ind'
        ++ join sep
             (map (fun m : string * json =>
                     quote (fst m) ++ ": " ++ stringify_at ind' (snd m))
                members)
        ++ String newline ind ++ "}"
  end.

Definition stringify (v : json) : string := stringify_at EmptyString v.

(** A property name that is an array index ("0", "17", ...): such
    properties are enumerated before the others, whatever the order in which
    they were created. *)
Definition is_index (k : string) : bool :=
  match take_digits k with
  | (ds, EmptyString) => int_part_ok ds && (digits_value ds <? 4294967295)
  | _ => false
  end.

(** The values that [parse] reads and [stringify] writes exactly as V8 does:
    integers within the safe range, no other number, no property named like
    an array index. *)
Fixpoint exact (v : json) : bool :=
  match v with
  | JNull | JBool _ | JStr _ => true
  | JInt z => (Z.abs z <=? 9007199254740991)
  | JReal _ => false
  | JArr items => forallb exact items
  | JObj members =>
      forallb (fun m : string * json => negb (is_index (fst m)) && exact (snd m))
        members
  end.

End Json.

(** ** Numbers *)

(** The integers that a double holds exactly (Number.isSafeInteger). *)
Definition safe (z : Z) : Prop := Z.abs z <= 9007199254740991.

Definition is_safe (z : Z) : bool := Z.abs z <=? 9007199254740991.

(** What a member of type [number] holds at run time, as far as this code
    meets it: an integer, [NaN] (what arithmetic on [undefined] gives), or
    [null], which is how [JSON.stringify] writes [NaN] and so what
    [JSON.parse] reads back from a file.  An infinite number can only come
    from a numeral with an exponent, which is outside the model. *)
Inductive NumberOrNull : Type :=
| Finite (z : Z)
| NaN
| Null.

Coercion Finite : Z >-> NumberOrNull.

(** [ToNumber]: [null] counts as 0; [None] stands for [NaN]. *)
Definition ToNumber (n : NumberOrNull) : option Z :=
  match n with
  | Finite z => Some z
  | NaN => None
  | Null => Some 0
  end.

(** An arithmetic operator: [NaN] as soon as an operand is [NaN]. *)
Definition arith (op : Z -> Z -> Z) (a b : NumberOrNull) : NumberOrNull :=
  match ToNumber a, ToNumber b with
  | Some x, Some y => Finite (op x y)
  | _, _ => NaN
  end.

(** [a > b]: false as soon as an operand is [NaN]. *)
Definition greater (a b : NumberOrNull) : bool :=
  match ToNumber a, ToNumber b with
  | Some x, Some y => x >? y
  | _, _ => false
  end.

Declare Scope js_scope.
Delimit Scope js_scope with js.
Infix "+" := (arith Z.add) : js_scope.
Infix "-" := (arith Z.sub) : js_scope.
Infix "*" := (arith Z.mul) : js_scope.
Infix ">" := greater : js_scope.

(** ** Data model *)

Module TokenData.

(** [interface StoredTokenData extends TokenData]: the credential record.
    [TokenData] is the same record without the three optional members, which
    are then [None] ([undefined]). *)
Record StoredTokenData : Type := {
  accessToken : string;
  refreshToken : string;
  expiresAt : NumberOrNull;
  clientId : option string;
  clientSecret : option string;
  tenantId : option string
}.

(** The members of the token endpoint's answer that [refreshToken] reads.
    [expires_in] is what [data.expires_in * 1000] computes with: [NaN] when
    the answer has no such member. *)
Record RefreshResponse : Type := {
  access_token : string;
  refresh_token : option string;
  expires_in : NumberOrNull
}.

End TokenData.
Export TokenData.

(** [ToBoolean] on a [string | undefined]: the string when it is truthy. *)
Definition truthy_string (o : option string) : option string :=
  match o with
  | Some s => if String.eqb s EmptyString then None else Some s
  | None => None
  end.

(** [a || b] on [string | undefined]. *)
Definition js_or (a b : option string) : option string :=
  match truthy_string a with
  | Some _ => a
  | None => b
  end.

(** *** Records and JSON values *)

Definition optional_member (k : string) (o : option string)
  : list (string * json) :=
  match o with
  | Some s => [(k, JStr s)]
  | None => []
  end.

(** How [JSON.stringify] writes a number: [null] for [NaN]. *)
Definition number_json (n : NumberOrNull) : json :=
  match n with
  | Finite z => JInt z
  | NaN | Null => JNull
  end.

(** The object that a record is, with its members in declaration order; an
    [undefined] member is left out, as [JSON.stringify] leaves it out. *)
Definition to_json (t : StoredTokenData) : json :=
  JObj ([("accessToken", JStr (accessToken t));
         ("refreshToken", JStr (refreshToken t));
         ("expiresAt", number_json (expiresAt t))]
        ++ optional_member "clientId" (clientId t)
        ++ optional_member "clientSecret" (clientSecret t)
        ++ optional_member "tenantId" (tenantId t)).

Definition string_member (k : string) (ms : list (string * json))
  : option string :=
  match Json.get k ms with
  | Some (JStr s) => Some s
  | _ => None
  end.

(** A member that holds a safe integer or [null].  An integer that is not
    safe is not the number that [JSON.parse] gives for its numeral: it is
    outside the model, as a number with a fraction is. *)
Definition number_member (k : string) (ms : list (string * json))
  : option NumberOrNull :=
  match Json.get k ms with
  | Some (JInt z) => if is_safe z then Some (Finite z) else None
  | Some JNull => Some Null
  | _ => None
  end.

(** The same, for a member that is only computed with: when it is absent,
    the arithmetic meets [undefined], which counts as [NaN]. *)
Definition operand_member (k : string) (ms : list (string * json))
  : option NumberOrNull :=
  match Json.get k ms with
  | None => Some NaN
  | Some _ => number_member k ms
  end.

(** An optional string member: [Some None] when it is absent, [None] when it
    is present with another type. *)
Definition optional_string_member (k : string) (ms : list (string * json))
  : option (option string) :=
  match Json.get k ms with
  | None => Some None
  | Some (JStr s) => Some (Some s)
  | Some _ => None
  end.

(** The JSON values that inhabit [StoredTokenData], with [null] allowed for
    the number.  Members outside the interface are not kept. *)
Definition as_StoredTokenData (v : json) : option StoredTokenData :=
  match v with
  | JObj ms =>
      a ← string_member "accessToken" ms;
      r ← string_member "refreshToken" ms;
      e ← number_member "expiresAt" ms;
      i ← optional_string_member "clientId" ms;
      s ← optional_string_member "clientSecret" ms;
      t ← optional_string_member "tenantId" ms;
      Some {| accessToken := a; refreshToken := r; expiresAt := e;
              clientId := i; clientSecret := s; tenantId := t |}
  | _ => None
  end.

(** The JSON values that inhabit [StoredTokenData | null]. *)
Definition as_StoredTokenData_or_null (v : json)
  : option (option StoredTokenData) :=
  match v with
  | JNull => Some None
  | _ => Some <$> as_StoredTokenData v
  end.

(** The JSON objects whose members [access_token], [refresh_token] and
    [expires_in] have the types that the token endpoint documents;
    [expires_in] may be absent or [null]. *)
Definition as_RefreshResponse (v : json) : option RefreshResponse :=
  match v with
  | JObj ms =>
      a ← string_member "access_token" ms;
      r ← optional_string_member "refresh_token" ms;
      e ← operand_member "expires_in" ms;
      Some {| access_token := a; refresh_token := r; expires_in := e |}
  | _ => None
  end.

(** ** The process and its surroundings *)

Inductive JsError : Type :=
| Error (message : string)   (* new Error(message) *)
| SyntaxError                (* JSON.parse, Response.json *)
| TypeError                  (* a property of null *)
| ENOENT                     (* readFileSync on a missing file *)
| FetchFailed.               (* fetch rejected *)

(** What is at a path: a file with a text, a file whose content the model
    does not determine, or something that [readFileSync] cannot read (a
    directory, a file without the permission), with the error it throws. *)
Inductive FileContent : Type :=
| Text (s : string)
| Opaque
| Unreadable (e : JsError).

Inductive Body : Type :=
| NoBody
| JsonBody (v : json)                      (* JSON.stringify(v) *)
| FormBody (fields : list (string * string)).  (* new URLSearchParams({...}) *)

Record Request : Type := {
  url : string;
  method : string;
  headers : list (string * string);
  body : Body
}.

Record Response : Type := {
  status : Z;
  text : string
}.

(** [response.ok] *)
Definition ok (r : Response) : bool :=
  (200 <=? status r) && (status r <=? 299).

Inductive NetReply : Type :=
| Rejects
| Responds (r : Response).

Inductive ConsoleMsg : Type :=
| Log (message : string)
| LogError (message : string) (e : JsError)
| LogJson (message : string) (v : json).

(** What the process does to its surroundings, in order. *)
Inductive Event : Type :=
| Console (m : ConsoleMsg)                          (* console.error *)
| Fetch (req : Request) (reply : NetReply)
| ExistsSync (path : string) (found : bool)
| ReadFileSync (path : string)
| WriteFileSync (path : string) (content : FileContent)
| RefreshTokenCalled (refreshToken : string)        (* entry of refreshToken *)
| Havoc (path : string).
    (* effects that the model does not determine, all of them on the
       console and on the file at [path] *)

(** What the process finds and does not change. *)
Record Process : Type := {
  env : gmap string string;          (* process.env *)
  platform : string;                 (* process.platform *)
  cwd : string;                      (* process.cwd(), when it returns *)
  cwd_error : option JsError;
    (* the error that process.cwd() throws, if the directory is gone *)
  homedir : string;                  (* os.homedir() *)
  join : list string -> string;      (* path.join *)
  clock : nat -> Z;                  (* the successive readings of Date.now() *)
  write_error : string -> option JsError
    (* the error that writeFileSync throws at a path, if it cannot write there *)
}.

(** The fields of the [TokenManager] instance. *)
Record TokenManagerFields : Type := {
  tokenFilePath : string;
  currentTokens : option StoredTokenData
}.

Record World : Type := {
  proc : Process;
  tokenManager : TokenManagerFields;   (* the instance shared process-wide *)
  fs : gmap string FileContent;
  ticks : nat;                         (* readings of the clock so far *)
  net : list NetReply;                 (* the replies to come, in order *)
  trace : list Event
}.

Definition set_currentTokens (t : option StoredTokenData) (w : World) : World :=
  {| proc := proc w;
     tokenManager := {| tokenFilePath := tokenFilePath (tokenManager w);
                        currentTokens := t |};
     fs := fs w; ticks := ticks w; net := net w; trace := trace w |}.

Definition set_fs (f : gmap string FileContent) (w : World) : World :=
  {| proc := proc w; tokenManager := tokenManager w;
     fs := f; ticks := ticks w; net := net w; trace := trace w |}.

Definition set_ticks (n : nat) (w : World) : World :=
  {| proc := proc w; tokenManager := tokenManager w;
     fs := fs w; ticks := n; net := net w; trace := trace w |}.

Definition set_net (l : list NetReply) (w : World) : World :=
  {| proc := proc w; tokenManager := tokenManager w;
     fs := fs w; ticks := ticks w; net := l; trace := trace w |}.

Definition emit (e : Event) (w : World) : World :=
  {| proc := proc w; tokenManager := tokenManager w;
     fs := fs w; ticks := ticks w; net := net w; trace := trace w ++ [e] |}.

(** ** Computations *)

(** How a call ends: with a value, with an exception, or outside the model. *)
Inductive Result (A : Type) : Type :=
| Ret (a : A)
| Throw (e : JsError)
| Unmodelled.
Arguments Ret {A} a.
Arguments Throw {A} e.
Arguments Unmodelled {A}.

Definition M (A : Type) : Type := World -> Result A * World.

#[global] Instance M_ret : MRet M := fun A a w => (Ret a, w).

#[global] Instance M_bind : MBind M := fun A B f m w =>
  match m w with
  | (Ret a, w') => f a w'
  | (Throw e, w') => (Throw e, w')
  | (Unmodelled, w') => (Unmodelled, w')
  end.

Definition throw {A} (e : JsError) : M A := fun w => (Throw e, w).

Definition unmodelled {A} : M A := fun w => (Unmodelled, w).

(** [try { m } catch (error) { h error }] *)
Definition try_catch {A} (m : M A) (h : JsError -> M A) : M A := fun w =>
  match m w with
  | (Throw e, w') => h e w'
  | other => other
  end.

Definition getenv (name : string) : M (option string) := fun w =>
  (Ret (env (proc w) !! name), w).

Definition Date_now : M Z := fun w =>
  (Ret (clock (proc w) (ticks w)), set_ticks (S (ticks w)) w).

Definition console_error (m : ConsoleMsg) : M unit := fun w =>
  (Ret tt, emit (Console m) w).

Definition existsSync (path : string) : M bool := fun w =>
  let found := bool_decide (is_Some (fs w !! path)) in
  (Ret found, emit (ExistsSync path found) w).

Definition readFileSync (path : string) : M string := fun w =>
  let w' := emit (ReadFileSync path) w in
  match fs w !! path with
  | Some (Text s) => (Ret s, w')
  | Some Opaque => (Unmodelled, w')
  | Some (Unreadable e) => (Throw e, w')
  | None => (Throw ENOENT, w')
  end.

(** A write that fails throws before anything is written. *)
Definition writeFileSync (path : string) (content : FileContent) : M unit :=
  fun w =>
    match write_error (proc w) path with
    | Some e => (Throw e, w)
    | None =>
        (Ret tt,
         emit (WriteFileSync path content) (set_fs (<[path := content]> (fs w)) w))
    end.

Definition fetch (req : Request) : M Response := fun w =>
  match net w with
  | Responds r :: rest => (Ret r, emit (Fetch req (Responds r)) (set_net rest w))
  | Rejects :: rest => (Throw FetchFailed, emit (Fetch req Rejects) (set_net rest w))
  | [] => (Throw FetchFailed, emit (Fetch req Rejects) w)
  end.

(** [JSON.parse(text)], read at the type that [as_type] describes. *)
Definition JSON_parse_as {A} (as_type : json -> option A) (text : string) : M A :=
  match Json.parse text with
  | Parsed v _ =>
      match as_type v with
      | Some a => mret a
      | None => unmodelled
      end
  | SyntaxErr => throw SyntaxError
  | OutOfModel => unmodelled
  end.

(** A value read at the type that [as_type] describes. *)
Definition typed {A} (as_type : json -> option A) (v : json) : M A :=
  match as_type v with
  | Some a => mret a
  | None => unmodelled
  end.

(** The text that [JSON.stringify(v, null, 2)] writes, where the model
    determines it. *)
Definition json_text (v : json) : FileContent :=
  if Json.exact v then Text (Json.stringify v) else Opaque.

(** [JSON.parse(text)] as an untyped value. *)
Definition JSON_parse (text : string) : M json := JSON_parse_as Some text.

(** [response.json()] *)
Definition Response_json (r : Response) : M json := JSON_parse (text r).

(** [ToBoolean] of a value that may be [undefined]. *)
Definition js_truthy (o : option json) : M bool :=
  match o with
  | None => mret false
  | Some v =>
      match Json.truthy v with
      | Some b => mret b
      | None => unmodelled
      end
  end.

(** Property read [v[k]] for a name [k] that no prototype defines:
    [undefined] on anything but an object that has it, a [TypeError] on
    [null]. *)
Definition js_member (v : json) (k : string) : M (option json) :=
  match v with
  | JNull => throw TypeError
  | JObj ms => mret (Json.get k ms)
  | _ => mret None
  end.

(** ** src/token-manager.ts *)

Module TokenManager.

Definition this_tokenFilePath : M string := fun w =>
  (Ret (tokenFilePath (tokenManager w)), w).

Definition this_currentTokens : M (option StoredTokenData) := fun w =>
  (Ret (currentTokens (tokenManager w)), w).

Definition assign_currentTokens (t : option StoredTokenData) : M unit := fun w =>
  (Ret tt, set_currentTokens t w).

Definition reauth_banner (path : string) : string :=
  "
=================================================================
TOKEN REFRESH FAILED - REAUTHENTICATION REQUIRED

Your Microsoft To Do tokens have expired and could not be refreshed.

To fix this:
1. Open a new terminal
2. Navigate to the microsoft-todo-mcp-server directory
3. Run: pnpm run auth
4. Complete the authentication in your browser
5. Restart Claude Desktop to use the new tokens

Your tokens are stored in: " ++ path ++ "
=================================================================
    ".

Definition promptForReauth : M unit :=
  path ← this_tokenFilePath;
  console_error (Log (reauth_banner path)).

Definition saveTokens (tokens : StoredTokenData) : M unit :=
  assign_currentTokens (Some tokens);;
  path ← this_tokenFilePath;
  writeFileSync path (Text (Json.stringify (to_json tokens))).

Definition claudeConfigPath (p : Process) : string :=
  if String.eqb (platform p) "win32" then
    join p [default EmptyString (truthy_string (env p !! "APPDATA"));
            "Claude"; "claude_desktop_config.json"]
  else if String.eqb (platform p) "darwin" then
    join p [homedir p; "Library"; "Application Support"; "Claude";
            "claude_desktop_config.json"]
  else
    join p [homedir p; ".config"; "Claude"; "claude_desktop_config.json"].

(** The properties that [{ ...v }] copies.  The indexed properties of a
    string or of an array are outside the model. *)
Definition spread (o : option json) : M (list (string * json)) :=
  match o with
  | Some (JObj ms) => mret ms
  | Some (JStr s) => if String.eqb s EmptyString then mret [] else unmodelled
  | Some (JArr (_ :: _)) => unmodelled
  | _ => mret []
  end.

(** The text that [JSON.stringify(config, null, 2)] writes. *)
Definition config_text (config : json) : FileContent := json_text config.

(** The statements of [updateClaudeConfig] inside its [try]. *)
Definition updateClaudeConfig_try (tokens : StoredTokenData) : M unit :=
  claudeConfigPath ← (fun w => (Ret (claudeConfigPath (proc w)), w));
  found ← existsSync claudeConfigPath;
  if negb found then mret tt
  else
    data ← readFileSync claudeConfigPath;
    config ← JSON_parse data;
    servers ← js_member config "mcpServers";
    has_servers ← js_truthy servers;
    if negb has_servers then mret tt
    else
      entry ← js_member (default JNull servers) "microsoft-todo";
      has_entry ← js_truthy entry;
      if negb has_entry then mret tt
      else
        config' ←
          match config, servers, entry with
          | JObj cms, Some (JObj sms), Some (JObj ems) =>
              old ← spread (Json.get "env" ems);
              let env' :=
                Json.set "MS_TODO_REFRESH_TOKEN" (JStr (refreshToken tokens))
                  (Json.set "MS_TODO_ACCESS_TOKEN" (JStr (accessToken tokens)) old) in
              let entry' := JObj (Json.set "env" (JObj env') ems) in
              let servers' := JObj (Json.set "microsoft-todo" entry' sms) in
              mret (JObj (Json.set "mcpServers" servers' cms))
          | _, _, Some (JArr _) =>
              (* an array takes the property; JSON.stringify does not print it *)
              mret config
          | _, _, _ =>
              (* a property cannot be created on a primitive value *)
              throw TypeError
          end;
        writeFileSync claudeConfigPath (config_text config');;
        console_error (Log "Updated Claude config with new tokens").

(** [updateClaudeConfig]: whatever happens inside is caught.  Where the model
    does not determine what happens inside, the file and the console are
    left undetermined and the call returns all the same. *)
Definition updateClaudeConfig (tokens : StoredTokenData) : M unit := fun w =>
  match updateClaudeConfig_try tokens w with
  | (Ret u, w') => (Ret u, w')
  | (Throw e, w') =>
      console_error (LogError "Could not update Claude config:" e) w'
  | (Unmodelled, w') =>
      let path := claudeConfigPath (proc w') in
      (Ret tt, emit (Havoc path) (set_fs (<[path := Opaque]> (fs w')) w'))
  end.

(** [data.access_token], [data.refresh_token], [data.expires_in]. *)
Definition read_RefreshResponse (data : json) : M RefreshResponse :=
  match data with
  | JNull => throw TypeError
  | _ =>
      match as_RefreshResponse data with
      | Some d => mret d
      | None => unmodelled
      end
  end.

Definition scope : string :=
  "offline_access Tasks.Read Tasks.ReadWrite Tasks.Read.Shared Tasks.ReadWrite.Shared User.Read".

Definition tokenEndpoint (tenantId : string) : string :=
  "https://login.microsoftonline.com/" ++ tenantId ++ "/oauth2/v2.0/token".

Definition refresh_request (clientId clientSecret tenantId refreshToken : string)
  : Request :=
  {| url := tokenEndpoint tenantId;
     method := "POST";
     headers := [("Content-Type", "application/x-www-form-urlencoded")];
     body := FormBody [("client_id", clientId);
                       ("client_secret", clientSecret);
                       ("refresh_token", refreshToken);
                       ("grant_type", "refresh_token");
                       ("scope", scope)] |}.

(** The statements of [refreshToken] inside its [try]. *)
Definition refreshToken_try (refreshToken : string) : M (option StoredTokenData) :=
  cur ← this_currentTokens;
  env_id ← getenv "CLIENT_ID";
  env_secret ← getenv "CLIENT_SECRET";
  env_tenant ← getenv "TENANT_ID";
  let clientId := js_or (cur ≫= clientId) env_id in
  let clientSecret := js_or (cur ≫= clientSecret) env_secret in
  let tenantId :=
    default "organizations"
      (truthy_string (js_or (cur ≫= TokenData.tenantId) env_tenant)) in
  match truthy_string clientId, truthy_string clientSecret with
  | Some clientId, Some clientSecret =>
      response ← fetch (refresh_request clientId clientSecret tenantId refreshToken);
      if negb (ok response) then
        let errorText := text response in
        console_error (Log ("Token refresh failed: " ++ errorText));;
        promptForReauth;;
        mret None
      else
        json ← Response_json response;
        data ← read_RefreshResponse json;
        now ← Date_now;
        let newTokens :=
          {| accessToken := access_token data;
             TokenData.refreshToken :=
               default refreshToken (truthy_string (refresh_token data));
             expiresAt := (Finite now + expires_in data * 1000 - 5 * 60 * 1000)%js;
             clientId := Some clientId;
             clientSecret := Some clientSecret;
             tenantId := Some tenantId |} in
        saveTokens newTokens;;
        updateClaudeConfig newTokens;;
        mret (Some newTokens)
  | _, _ =>
      console_error (Log "Missing client credentials for token refresh");;
      mret None
  end.

Definition refreshToken (refreshToken : string) : M (option StoredTokenData) :=
  (fun w => (Ret tt, emit (RefreshTokenCalled refreshToken) w));;
  try_catch (refreshToken_try refreshToken)
    (fun error =>
       console_error (LogError "Error refreshing token:" error);;
       promptForReauth;;
       mret None).

(** Step 1 of [getTokens], with the pair that the environment supplies. *)
Definition getTokens_env (access refresh : string) : M (option StoredTokenData) :=
  now ← Date_now;
  let envTokens :=
    {| accessToken := access;
       TokenData.refreshToken := refresh;
       expiresAt := now + 3600 * 1000;
       clientId := None; clientSecret := None; tenantId := None |} in
  now' ← Date_now;
  if (Finite now' > expiresAt envTokens)%js then
    refreshed ← refreshToken (TokenData.refreshToken envTokens);
    match refreshed with
    | Some t => mret (Some t)
    | None => mret (Some envTokens)
    end
  else mret (Some envTokens).

(** The load of step 2 of [getTokens]:
    [JSON.parse(readFileSync(this.tokenFilePath, "utf8"))]. *)
Definition load (path : string) : M (option StoredTokenData) :=
  data ← readFileSync path;
  JSON_parse_as as_StoredTokenData_or_null data.

(** The statements of step 2 of [getTokens] inside its [try]: [Some result]
    when they return [result], [None] when control leaves them for step 3. *)
Definition getTokens_stored_try (path : string)
  : M (option (option StoredTokenData)) :=
  parsed ← load path;
  assign_currentTokens parsed;;
  cur ← this_currentTokens;
  match cur with
  | Some tokens =>
      now ← Date_now;
      if (Finite now > expiresAt tokens)%js then
        refreshed ← refreshToken (TokenData.refreshToken tokens);
        match refreshed with
        | Some t => mret (Some (Some t))
        | None => cur' ← this_currentTokens; mret (Some cur')
        end
      else cur' ← this_currentTokens; mret (Some cur')
  | None => mret None
  end.

(** Step 2 of [getTokens]. *)
Definition getTokens_stored : M (option (option StoredTokenData)) :=
  path ← this_tokenFilePath;
  found ← existsSync path;
  if (found : bool) then
    try_catch (getTokens_stored_try path)
      (fun error =>
         console_error (LogError "Error reading token file:" error);;
         mret None)
  else mret None.

Definition legacyPath (p : Process) : string := join p [cwd p; "tokens.json"].

(** [join(process.cwd(), "tokens.json")], which is evaluated outside every
    [try]: what [process.cwd()] throws leaves [getTokens]. *)
Definition join_cwd_tokens : M string := fun w =>
  match cwd_error (proc w) with
  | Some e => (Throw e, w)
  | None => (Ret (legacyPath (proc w)), w)
  end.

(** [this.saveTokens(tokens)] for the value [tokens] that [JSON.parse] gave:
    the text written is that of the value as it is, with all its members
    in their order; the cached record keeps the members of the interface,
    which are all that the code reads of it. *)
Definition saveTokens_parsed (tokens : json) (record : option StoredTokenData)
  : M unit :=
  assign_currentTokens record;;
  path ← this_tokenFilePath;
  writeFileSync path (json_text tokens).

(** The statements of step 3 of [getTokens] inside its [try]. *)
Definition getTokens_legacy_try (legacyPath : string)
  : M (option StoredTokenData) :=
  data ← readFileSync legacyPath;
  tokens ← JSON_parse data;
  record ← typed as_StoredTokenData_or_null tokens;
  saveTokens_parsed tokens record;;
  mret record.

(** Step 3 of [getTokens]. *)
Definition getTokens_legacy : M (option StoredTokenData) :=
  legacyPath ← join_cwd_tokens;
  found ← existsSync legacyPath;
  if (found : bool) then
    try_catch (getTokens_legacy_try legacyPath)
      (fun error =>
         console_error (LogError "Error reading legacy token file:" error);;
         mret None)
  else mret None.

Definition getTokens : M (option StoredTokenData) :=
  access ← getenv "MS_TODO_ACCESS_TOKEN";
  refresh ← getenv "MS_TODO_REFRESH_TOKEN";
  match truthy_string access, truthy_string refresh with
  | Some access, Some refresh => getTokens_env access refresh
  | _, _ =>
      stored ← getTokens_stored;
      match stored with
      | Some result => mret result
      | None => getTokens_legacy
      end
  end.


(** *** [storeCredentials] *)






End TokenManager.

(** ** src/todo-index.ts *)

Definition MS_GRAPH_BASE : string := "https://graph.microsoft.com/v1.0".
Definition USER_AGENT : string := "microsoft-todo-mcp-server/1.0".

(** The statements of [getAccessToken] inside its [try]. *)
Definition getAccessToken_try : M (option string) :=
  console_error (Log "getAccessToken called");;
  tokens ← TokenManager.getTokens;
  match tokens with
  | Some tokens =>
      console_error (Log "Successfully retrieved valid token");;
      mret (Some (accessToken tokens))
  | None =>
      console_error (Log "No valid tokens available");;
      mret None
  end.

Definition getAccessToken : M (option string) :=
  try_catch getAccessToken_try
    (fun error =>
       console_error (LogError "Error getting access token:" error);;
       mret None).

Definition graph_headers (authorization : string) : list (string * string) :=
  [("User-Agent", USER_AGENT);
   ("Accept", "application/json");
   ("Authorization", authorization);
   ("Content-Type", "application/json")].

Definition mailbox_banner : string :=
  "
=================================================================
ERROR: MailboxNotEnabledForRESTAPI

The Microsoft To Do API is not available for personal Microsoft accounts 
(outlook.com, hotmail.com, live.com, etc.) through the Graph API.

This is a limitation of the Microsoft Graph API, not an authentication issue.
Microsoft only allows To Do API access for Microsoft 365 business accounts.

You can still use Microsoft To Do through the web interface or mobile apps,
but API access is restricted for personal accounts.
=================================================================
        ".

(** The message of the error for personal accounts. *)
Definition account_capability_message : string :=
  "Microsoft To Do API is not available for personal Microsoft accounts. See console for details.".

(** The message of the error for any other failed response. *)
Definition http_error_message (r : Response) : string :=
  "HTTP error! status: " ++ print_Z (status r) ++ ", body: " ++ text r.

(** [options.body]: set for a truthy [body] of a POST or a PATCH. *)
Definition request_body (method : string) (body : option json) : M Body :=
  has_body ← js_truthy body;
  if has_body && (String.eqb method "POST" || String.eqb method "PATCH")
  then mret (JsonBody (default JNull body))
  else mret NoBody.

(** The request that [fetch(url, options)] sends with the bearer [token]. *)
Definition graph_request (url token method : string) (options_body : Body)
  : Request :=
  {| url := url; method := method;
     headers := graph_headers ("Bearer " ++ token);
     body := options_body |}.

(** Lines 55-66 of [makeGraphRequest]: the call, and the one retry after a
    401 that a different token allows.  The result is the response that the
    rest of the function examines. *)
Definition graph_fetch (url token method : string) (options_body : Body)
  : M Response :=
  response ← fetch (graph_request url token method options_body);
  if status response =? 401 then
    console_error (Log "Got 401, attempting token refresh...");;
    newToken ← getAccessToken;
    match truthy_string newToken with
    | Some newToken =>
        if negb (String.eqb newToken token) then
          fetch (graph_request url newToken method options_body)
        else mret response
    | None => mret response
    end
  else mret response.

(** Lines 68-105 of [makeGraphRequest]: what becomes of the response. *)
Definition graph_result (method : string) (response : Response) : M json :=
  if negb (ok response) then
    let errorText := text response in
    console_error (Log (http_error_message response));;
    if includes errorText "MailboxNotEnabledForRESTAPI" then
      console_error (Log mailbox_banner);;
      throw (Error account_capability_message)
    else throw (Error (http_error_message response))
  else if String.eqb method "DELETE" then
    console_error (Log ("DELETE request successful: " ++ print_Z (status response)));;
    mret (JObj [])
  else
    data ← Response_json response;
    console_error (LogJson "Response received: " data);;
    mret data.

(** What the second line on the console shows of the options. *)
Definition request_options (method : string) : json :=
  JObj [("method", JStr method);
        ("headers",
         JObj (map (fun h : string * string => (fst h, JStr (snd h)))
                 (graph_headers "Bearer [REDACTED]")))].

(** Lines 35-66 of [makeGraphRequest]: the options, the two lines on the
    console, and [graph_fetch]. *)
Definition makeGraphRequest_send (url token method : string) (body : option json)
  : M Response :=
  options_body ← request_body method body;
  console_error (Log ("Making request to: " ++ url));;
  console_error (LogJson "Request options: " (request_options method));;
  graph_fetch url token method options_body.

(** The statements of [makeGraphRequest] inside its [try]. *)
Definition makeGraphRequest_try (url token method : string) (body : option json)
  : M json :=
  response ← makeGraphRequest_send url token method body;
  graph_result method response.

(** [makeGraphRequest]: the parsed body, the empty object after a DELETE,
    [null] after any failure. *)
Definition makeGraphRequest (url token method : string) (body : option json)
  : M json :=
  try_catch (makeGraphRequest_try url token method body)
    (fun error =>
       console_error (LogError "Error making Graph API request:" error);;
       mret JNull).


(** *** Tool handlers *)

(** A line feed inside a template literal. *)
Definition LF : string := String newline EmptyString.

(** The result of a tool: [{ content: [{ type: "text", text }] }]. *)
Inductive ToolResult : Type :=
| TextContent (text : string).

(** The text of [`${v}`] for a value that may be [undefined].  Numbers are
    integers within the safe range; the text of an object or an array is
    not modelled. *)
Definition ToString (o : option json) : option string :=
  match o with
  | None => Some "undefined"
  | Some JNull => Some "null"
  | Some (JBool true) => Some "true"
  | Some (JBool false) => Some "false"
  | Some (JInt z) =>
      if Z.abs z <=? 9007199254740991 then Some (print_Z z) else None
  | Some (JStr s) => Some s
  | Some (JReal _) | Some (JArr _) | Some (JObj _) => None
  end.

Definition template (o : option json) : M string :=
  match ToString o with
  | Some s => mret s
  | None => unmodelled
  end.

(** [`${error}`] in the [catch] of a handler, for the errors that the code
    itself raises: [Error.prototype.toString] leaves out an empty message.
    The text of the errors of the runtime is not modelled. *)
Definition tool_catch (prefix : string) (error : JsError) : M ToolResult :=
  match error with
  | Error message =>
      mret (TextContent
              (prefix ++ if String.eqb message EmptyString then "Error"
                         else "Error: " ++ message))
  | _ => unmodelled
  end.

Definition unauthenticated : ToolResult :=
  TextContent "Failed to authenticate with Microsoft API".

(** [response.value || []], where it is an array. *)
Definition value_or_empty (value : option json) : M (list json) :=
  truthy ← js_truthy value;
  if negb truthy then mret []
  else
    match value with
    | Some (JArr items) => mret items
    | _ => unmodelled
    end.

Fixpoint mapM {A B} (f : A -> M B) (l : list A) : M (list B) :=
  match l with
  | [] => mret []
  | x :: rest => y ← f x; ys ← mapM f rest; mret (y :: ys)
  end.

(** [v === s] for a string [s]. *)
Definition is_string (s : string) (v : option json) : bool :=
  match v with
  | Some (JStr s') => String.eqb s' s
  | _ => false
  end.

(** The callback of [lists.map] in [get-task-lists]. *)
Definition format_list (list : json) : M string :=
  wellknownListName ← js_member list "wellknownListName";
  known ← js_truthy wellknownListName;
  let wellKnownInfo :=
    if known && negb (is_string "none" wellknownListName) then
      if is_string "defaultList" wellknownListName then " (Default Tasks List)"
      else if is_string "flaggedEmails" wellknownListName then " (Flagged Emails)"
      else EmptyString
    else EmptyString in
  isShared ← js_member list "isShared" ≫= js_truthy;
  sharingInfo ←
    (if (isShared : bool) then
       isOwner ← js_member list "isOwner" ≫= js_truthy;
       mret (if (isOwner : bool) then " (Shared by you)" else " (Shared with you)")
     else mret EmptyString);
  id ← js_member list "id" ≫= template;
  displayName ← js_member list "displayName" ≫= template;
  mret ("ID: " ++ id ++ LF ++ "Name: " ++ displayName ++ wellKnownInfo
          ++ sharingInfo ++ LF ++ "---").

Definition get_task_lists_try : M ToolResult :=
  token ← getAccessToken;
  match truthy_string token with
  | None => mret unauthenticated
  | Some token =>
      response ← makeGraphRequest (MS_GRAPH_BASE ++ "/me/todo/lists") token "GET" None;
      found ← js_truthy (Some response);
      if negb found then mret (TextContent "Failed to retrieve task lists")
      else
        lists ← js_member response "value" ≫= value_or_empty;
        match lists with
        | [] => mret (TextContent "No task lists found.")
        | _ =>
            formattedLists ← mapM format_list lists;
            mret (TextContent ("Your task lists:" ++ LF ++ LF
                                 ++ Json.join LF formattedLists))
        end
  end.

(** The tool [get-task-lists]. *)
Definition get_task_lists : M ToolResult :=
  try_catch get_task_lists_try (tool_catch "Error fetching task lists: ").

Definition create_task_list_try (displayName : string) : M ToolResult :=
  token ← getAccessToken;
  match truthy_string token with
  | None => mret unauthenticated
  | Some token =>
      let requestBody := JObj [("displayName", JStr displayName)] in
      response ← makeGraphRequest (MS_GRAPH_BASE ++ "/me/todo/lists") token "POST"
                   (Some requestBody);
      found ← js_truthy (Some response);
      if negb found
      then mret (TextContent ("Failed to create task list: " ++ displayName))
      else
        name ← js_member response "displayName" ≫= template;
        id ← js_member response "id" ≫= template;
        mret (TextContent ("Task list created successfully!" ++ LF
                             ++ "Name: " ++ name ++ LF ++ "ID: " ++ id))
  end.

(** The tool [create-task-list]. *)
Definition create_task_list (displayName : string) : M ToolResult :=
  try_catch (create_task_list_try displayName)
    (tool_catch "Error creating task list: ").

Definition update_task_list_try (listId displayName : string) : M ToolResult :=
  token ← getAccessToken;
  match truthy_string token with
  | None => mret unauthenticated
  | Some token =>
      let requestBody := JObj [("displayName", JStr displayName)] in
      response ← makeGraphRequest (MS_GRAPH_BASE ++ "/me/todo/lists/" ++ listId)
                   token "PATCH" (Some requestBody);
      found ← js_truthy (Some response);
      if negb found
      then mret (TextContent ("Failed to update task list with ID: " ++ listId))
      else
        name ← js_member response "displayName" ≫= template;
        mret (TextContent ("Task list updated successfully!" ++ LF
                             ++ "New name: " ++ name))
  end.

(** The tool [update-task-list]. *)
Definition update_task_list (listId displayName : string) : M ToolResult :=
  try_catch (update_task_list_try listId displayName)
    (tool_catch "Error updating task list: ").

Definition delete_task_list_try (listId : string) : M ToolResult :=
  token ← getAccessToken;
  match truthy_string token with
  | None => mret unauthenticated
  | Some token =>
      let url := MS_GRAPH_BASE ++ "/me/todo/lists/" ++ listId in
      console_error (Log ("Deleting task list: " ++ url));;
      makeGraphRequest url token "DELETE" None;;
      mret (TextContent ("Task list with ID: " ++ listId
                           ++ " was successfully deleted."))
  end.

(** The tool [delete-task-list]. *)
Definition delete_task_list (listId : string) : M ToolResult :=
  try_catch (delete_task_list_try listId)
    (tool_catch "Error deleting task list: ").

(** [z.enum(["low", "normal", "high"])] *)
Inductive Importance : Type := low | normal | high.

Definition importance_name (i : Importance) : string :=
  match i with
  | low => "low"
  | normal => "normal"
  | high => "high"
  end.

(** [z.enum(["notStarted", "inProgress", "completed", "waitingOnOthers",
    "deferred"])] *)
Inductive Status : Type :=
  notStarted | inProgress | completed | waitingOnOthers | deferred.

Definition status_name (s : Status) : string :=
  match s with
  | notStarted => "notStarted"
  | inProgress => "inProgress"
  | completed => "completed"
  | waitingOnOthers => "waitingOnOthers"
  | deferred => "deferred"
  end.

(** The optional arguments that [create-task] and [update-task] share. *)
Record TaskFields : Type := {
  task_body : option string;
  dueDateTime : option string;
  startDateTime : option string;
  importance : option Importance;
  isReminderOn : option bool;
  reminderDateTime : option string;
  task_status : option Status;
  categories : option (list string)
}.

Definition utc (dateTime : string) : json :=
  JObj [("dateTime", JStr dateTime); ("timeZone", JStr "UTC")].

Definition text_body (content : string) : json :=
  JObj [("content", JStr content); ("contentType", JStr "text")].

(** A property that is assigned when [o] is defined. *)
Definition assigned {A} (k : string) (f : A -> json) (o : option A)
  : list (string * json) :=
  match o with
  | Some a => [(k, f a)]
  | None => []
  end.

(** A property that is assigned when the string [o] is truthy. *)
Definition assigned_truthy (k : string) (f : string -> json) (o : option string)
  : list (string * json) :=
  assigned k f (truthy_string o).

(** [taskBody] of [create-task], property by property. *)
Definition create_task_body (title : string) (a : TaskFields)
  : list (string * json) :=
  [("title", JStr title)]
  ++ assigned_truthy "body" text_body (task_body a)
  ++ assigned_truthy "dueDateTime" utc (dueDateTime a)
  ++ assigned_truthy "startDateTime" utc (startDateTime a)
  ++ assigned "importance" (fun i => JStr (importance_name i)) (importance a)
  ++ assigned "isReminderOn" JBool (isReminderOn a)
  ++ assigned_truthy "reminderDateTime" utc (reminderDateTime a)
  ++ assigned "status" (fun s => JStr (status_name s)) (task_status a)
  ++ match categories a with
     | Some (c :: cs) => [("categories", JArr (map JStr (c :: cs)))]
     | _ => []
     end.

Definition create_task_try (listId title : string) (a : TaskFields)
  : M ToolResult :=
  token ← getAccessToken;
  match truthy_string token with
  | None => mret unauthenticated
  | Some token =>
      let taskBody := JObj (create_task_body title a) in
      response ← makeGraphRequest
                   (MS_GRAPH_BASE ++ "/me/todo/lists/" ++ listId ++ "/tasks")
                   token "POST" (Some taskBody);
      found ← js_truthy (Some response);
      if negb found
      then mret (TextContent ("Failed to create task in list: " ++ listId))
      else
        id ← js_member response "id" ≫= template;
        title' ← js_member response "title" ≫= template;
        mret (TextContent ("Task created successfully!" ++ LF
                             ++ "ID: " ++ id ++ LF ++ "Title: " ++ title'))
  end.

(** The tool [create-task]. *)
Definition create_task (listId title : string) (a : TaskFields) : M ToolResult :=
  try_catch (create_task_try listId title a) (tool_catch "Error creating task: ").

(** A date of [update-task]: the empty string removes it. *)
Definition utc_or_null (dateTime : string) : json :=
  if String.eqb dateTime EmptyString then JNull else utc dateTime.

(** [taskBody] of [update-task], property by property. *)
Definition update_task_body (title : option string) (a : TaskFields)
  : list (string * json) :=
  assigned "title" JStr title
  ++ assigned "body" text_body (task_body a)
  ++ assigned "dueDateTime" utc_or_null (dueDateTime a)
  ++ assigned "startDateTime" utc_or_null (startDateTime a)
  ++ assigned "importance" (fun i => JStr (importance_name i)) (importance a)
  ++ assigned "isReminderOn" JBool (isReminderOn a)
  ++ assigned "reminderDateTime" utc_or_null (reminderDateTime a)
  ++ assigned "status" (fun s => JStr (status_name s)) (task_status a)
  ++ assigned "categories" (fun cs => JArr (map JStr cs)) (categories a).

Definition update_task_try (listId taskId : string) (title : option string)
    (a : TaskFields) : M ToolResult :=
  token ← getAccessToken;
  match truthy_string token with
  | None => mret unauthenticated
  | Some token =>
      match update_task_body title a with
      | [] =>
          mret (TextContent
                  "No properties provided for update. Please specify at least one property to change.")
      | taskBody =>
          response ← makeGraphRequest
                       (MS_GRAPH_BASE ++ "/me/todo/lists/" ++ listId
                          ++ "/tasks/" ++ taskId)
                       token "PATCH" (Some (JObj taskBody));
          found ← js_truthy (Some response);
          if negb found
          then mret (TextContent ("Failed to update task with ID: " ++ taskId
                                    ++ " in list: " ++ listId))
          else
            id ← js_member response "id" ≫= template;
            title' ← js_member response "title" ≫= template;
            mret (TextContent ("Task updated successfully!" ++ LF
                                 ++ "ID: " ++ id ++ LF ++ "Title: " ++ title'))
      end
  end.

(** The tool [update-task]. *)
Definition update_task (listId taskId : string) (title : option string)
    (a : TaskFields) : M ToolResult :=
  try_catch (update_task_try listId taskId title a)
    (tool_catch "Error updating task: ").

Definition delete_task_try (listId taskId : string) : M ToolResult :=
  token ← getAccessToken;
  match truthy_string token with
  | None => mret unauthenticated
  | Some token =>
      let url := MS_GRAPH_BASE ++ "/me/todo/lists/" ++ listId
                   ++ "/tasks/" ++ taskId in
      console_error (Log ("Deleting task: " ++ url));;
      makeGraphRequest url token "DELETE" None;;
      mret (TextContent ("Task with ID: " ++ taskId
                           ++ " was successfully deleted from list: " ++ listId))
  end.

(** The tool [delete-task]. *)
Definition delete_task (listId taskId : string) : M ToolResult :=
  try_catch (delete_task_try listId taskId) (tool_catch "Error deleting task: ").

Definition create_checklist_item_try (listId taskId displayName : string)
    (isChecked : option bool) : M ToolResult :=
  token ← getAccessToken;
  match truthy_string token with
  | None => mret unauthenticated
  | Some token =>
      let requestBody :=
        JObj ([("displayName", JStr displayName)]
              ++ assigned "isChecked" JBool isChecked) in
      response ← makeGraphRequest
                   (MS_GRAPH_BASE ++ "/me/todo/lists/" ++ listId ++ "/tasks/"
                      ++ taskId ++ "/checklistItems")
                   token "POST" (Some requestBody);
      found ← js_truthy (Some response);
      if negb found
      then mret (TextContent ("Failed to create checklist item for task: "
                                ++ taskId))
      else
        name ← js_member response "displayName" ≫= template;
        id ← js_member response "id" ≫= template;
        mret (TextContent ("Checklist item created successfully!" ++ LF
                             ++ "Content: " ++ name ++ LF ++ "ID: " ++ id))
  end.

(** The tool [create-checklist-item]. *)
Definition create_checklist_item (listId taskId displayName : string)
    (isChecked : option bool) : M ToolResult :=
  try_catch (create_checklist_item_try listId taskId displayName isChecked)
    (tool_catch "Error creating checklist item: ").

(** [requestBody] of [update-checklist-item]. *)
Definition update_checklist_item_body (displayName : option string)
    (isChecked : option bool) : list (string * json) :=
  assigned "displayName" JStr displayName ++ assigned "isChecked" JBool isChecked.

Definition update_checklist_item_try (listId taskId checklistItemId : string)
    (displayName : option string) (isChecked : option bool) : M ToolResult :=
  token ← getAccessToken;
  match truthy_string token with
  | None => mret unauthenticated
  | Some token =>
      match update_checklist_item_body displayName isChecked with
      | [] =>
          mret (TextContent
                  "No properties provided for update. Please specify either displayName or isChecked.")
      | requestBody =>
          response ← makeGraphRequest
                       (MS_GRAPH_BASE ++ "/me/todo/lists/" ++ listId ++ "/tasks/"
                          ++ taskId ++ "/checklistItems/" ++ checklistItemId)
                       token "PATCH" (Some (JObj requestBody));
          found ← js_truthy (Some response);
          if negb found
          then mret (TextContent ("Failed to update checklist item with ID: "
                                    ++ checklistItemId))
          else
            checked ← js_member response "isChecked" ≫= js_truthy;
            let statusText :=
              if (checked : bool) then "Checked" else "Not checked" in
            name ← js_member response "displayName" ≫= template;
            mret (TextContent ("Checklist item updated successfully!" ++ LF
                                 ++ "Content: " ++ name ++ LF
                                 ++ "Status: " ++ statusText))
      end
  end.

(** The tool [update-checklist-item]. *)
Definition update_checklist_item (listId taskId checklistItemId : string)
    (displayName : option string) (isChecked : option bool) : M ToolResult :=
  try_catch
    (update_checklist_item_try listId taskId checklistItemId displayName isChecked)
    (tool_catch "Error updating checklist item: ").

Definition delete_checklist_item_try (listId taskId checklistItemId : string)
  : M ToolResult :=
  token ← getAccessToken;
  match truthy_string token with
  | None => mret unauthenticated
  | Some token =>
      let url := MS_GRAPH_BASE ++ "/me/todo/lists/" ++ listId ++ "/tasks/"
                   ++ taskId ++ "/checklistItems/" ++ checklistItemId in
      console_error (Log ("Deleting checklist item: " ++ url));;
      makeGraphRequest url token "DELETE" None;;
      mret (TextContent ("Checklist item with ID: " ++ checklistItemId
                           ++ " was successfully deleted from task: " ++ taskId))
  end.

(** The tool [delete-checklist-item]. *)
Definition delete_checklist_item (listId taskId checklistItemId : string)
  : M ToolResult :=
  try_catch (delete_checklist_item_try listId taskId checklistItemId)
    (tool_catch "Error deleting checklist item: ").

(** *** [isPersonalMicrosoftAccount] *)

(** [String.prototype.split] with a separator of one character. *)
Fixpoint split (sep : ascii) (s : string) : list string :=
  match s with
  | EmptyString => [EmptyString]
  | String c rest =>
      if Ascii.eqb c sep then EmptyString :: split sep rest
      else
        match split sep rest with
        | piece :: pieces => String c piece :: pieces
        | [] => [String c EmptyString]
        end
  end.

(** [String.prototype.toLowerCase] on the code units 0..255: the letters A
    to Z and the capital letters of Latin-1. *)
Definition to_lower_char (c : ascii) : ascii :=
  let n := code c in
  if ((65 <=? n) && (n <=? 90))%N
     || ((192 <=? n) && (n <=? 222) && negb (n =? 215))%N
  then ascii_of_N (n + 32)
  else c.

Fixpoint toLowerCase (s : string) : string :=
  match s with
  | EmptyString => EmptyString
  | String c rest => String (to_lower_char c) (toLowerCase rest)
  end.

Definition personalDomains : list string :=
  ["outlook.com"; "hotmail.com"; "live.com"; "msn.com"; "passport.com"].

Definition personal_banner (email : string) : string :=
  "
=================================================================
WARNING: Personal Microsoft Account Detected

Your Microsoft account (" ++ email ++ ") appears to be a personal account.
Microsoft To Do API access is typically not available for personal accounts
through the Microsoft Graph API, only for Microsoft 365 business accounts.

You may encounter the " ++ str dquote ++ "MailboxNotEnabledForRESTAPI"
    ++ str dquote ++ " error when trying to
access To Do lists or tasks. This is a limitation of the Microsoft Graph API,
not an issue with your authentication or this application.

You can still use Microsoft To Do through the web interface or mobile apps,
but API access is restricted for personal accounts.
=================================================================
      ".

(** The request for the profile of the user. *)
Definition me_request (token : string) : Request :=
  {| url := MS_GRAPH_BASE ++ "/me";
     method := "GET";
     headers := [("Authorization", "Bearer " ++ token);
                 ("Accept", "application/json")];
     body := NoBody |}.

(** [userData.mail || userData.userPrincipalName || <empty string>] *)
Definition email_of (userData : json) : M json :=
  mail ← js_member userData "mail";
  has_mail ← js_truthy mail;
  if (has_mail : bool) then mret (default JNull mail)
  else
    userPrincipalName ← js_member userData "userPrincipalName";
    has_name ← js_truthy userPrincipalName;
    if (has_name : bool) then mret (default JNull userPrincipalName)
    else mret (JStr EmptyString).

(** The statements of [isPersonalMicrosoftAccount] inside its [try]. *)
Definition isPersonalMicrosoftAccount_try : M bool :=
  token ← getAccessToken;
  match truthy_string token with
  | None => mret false
  | Some token =>
      response ← fetch (me_request token);
      if negb (ok response) then
        console_error (Log ("Error getting user info: "
                              ++ print_Z (status response)));;
        mret false
      else
        userData ← Response_json response;
        email ← email_of userData;
        match email with
        | JStr email =>
            let domain := toLowerCase <$> nth_error (split "@" email) 1 in
            match truthy_string domain with
            | Some domain =>
                if existsb (includes domain) personalDomains then
                  console_error (Log (personal_banner email));;
                  mret true
                else mret false
            | None => mret false
            end
        | _ =>
            (* [email.split] is not a function *)
            throw TypeError
        end
  end.

Definition isPersonalMicrosoftAccount : M bool :=
  try_catch isPersonalMicrosoftAccount_try
    (fun error =>
       console_error (LogError "Error checking account type:" error);;
       mret false).

(** *** The query of [get-tasks] *)







Module GetTasks.


End GetTasks.







(** ** Vocabulary of the statements *)

Import TokenManager.

(** *** What the sources hold *)

(** The ambient pair: both variables set and not empty. *)
Definition env_pair (w : World) : option (string * string) :=
  match truthy_string (env (proc w) !! "MS_TODO_ACCESS_TOKEN"),
        truthy_string (env (proc w) !! "MS_TODO_REFRESH_TOKEN") with
  | Some a, Some r => Some (a, r)
  | _, _ => None
  end.

(** The credential record that the file at [path] holds. *)
Definition stored_record (w : World) (path : string) : option StoredTokenData :=
  match fs w !! path with
  | Some (Text data) =>
      match Json.parse data with
      | Parsed v _ => as_StoredTokenData v
      | _ => None
      end
  | _ => None
  end.

(** The value that [JSON.parse] reads in the file at [path]. *)
Definition parsed_file (w : World) (path : string) : option json :=
  match fs w !! path with
  | Some (Text data) =>
      match Json.parse data with
      | Parsed v _ => Some v
      | _ => None
      end
  | _ => None
  end.

(** The world after a file was found at [path] and read. *)
Definition looked (path : string) (w : World) : World :=
  emit (ReadFileSync path) (emit (ExistsSync path true) w).

(** The record that step 1 of [getTokens] builds from the pair. *)
Definition env_tokens (access refresh : string) (now : Z) : StoredTokenData :=
  {| accessToken := access; TokenData.refreshToken := refresh;
     expiresAt := now + 3600 * 1000;
     clientId := None; clientSecret := None; tenantId := None |}.

(** The world after step 2 loaded [t] and read the clock. *)
Definition loaded (t : StoredTokenData) (w : World) : World :=
  let path := tokenFilePath (tokenManager w) in
  set_ticks (S (ticks w))
    (set_currentTokens (Some t)
       (emit (ReadFileSync path) (emit (ExistsSync path true) w))).

(** The record has expired when the clock reads [now]: [now > expiresAt]. *)
Definition expired (now : Z) (t : StoredTokenData) : Prop :=
  greater now (expiresAt t) = true.

(** The world after the two readings of the clock of step 1. *)
Definition env_checked (w : World) : World := set_ticks (S (S (ticks w))) w.

(** The two sources whose record [getTokens] checks for expiry. *)
Inductive Source : Type :=
| EnvPair (access refresh : string)
| CanonicalStore (t : StoredTokenData).

(** [getTokens] resolves its record from the source [s]. *)
Definition resolves (w : World) (s : Source) : Prop :=
  match s with
  | EnvPair a r => env_pair w = Some (a, r)
  | CanonicalStore t =>
      env_pair w = None /\
      stored_record w (tokenFilePath (tokenManager w)) = Some t
  end.

Definition resolved_record (w : World) (s : Source) : StoredTokenData :=
  match s with
  | EnvPair a r => env_tokens a r (clock (proc w) (ticks w))
  | CanonicalStore t => t
  end.

(** The reading of the clock that is compared with [expiresAt]. *)
Definition check_time (w : World) (s : Source) : Z :=
  match s with
  | EnvPair _ _ => clock (proc w) (S (ticks w))
  | CanonicalStore _ => clock (proc w) (ticks w)
  end.

(** The world in which the refresh of an expired record starts. *)
Definition checked (w : World) (s : Source) : World :=
  match s with
  | EnvPair _ _ => env_checked w
  | CanonicalStore t => loaded t w
  end.

(** *** [refreshToken], branch by branch *)

(** The client credentials that [refreshToken] finds: those of the cached
    record, else those of the environment. *)
Definition refresh_credentials (w : World) : option (string * string) :=
  let cur := currentTokens (tokenManager w) in
  match truthy_string (js_or (cur ≫= clientId) (env (proc w) !! "CLIENT_ID")),
        truthy_string (js_or (cur ≫= clientSecret) (env (proc w) !! "CLIENT_SECRET")) with
  | Some i, Some s => Some (i, s)
  | _, _ => None
  end.

Definition refresh_tenant (w : World) : string :=
  default "organizations"
    (truthy_string (js_or (currentTokens (tokenManager w) ≫= tenantId)
                          (env (proc w) !! "TENANT_ID"))).

(** What the token endpoint's answer holds for [refreshToken]. *)
Definition token_response (r : Response) : option RefreshResponse :=
  match Json.parse (text r) with
  | Parsed v _ => as_RefreshResponse v
  | _ => None
  end.

(** The record that a successful refresh builds. *)
Definition refreshed_tokens (rt : string) (creds : string * string)
    (tenant : string) (d : RefreshResponse) (now : Z) : StoredTokenData :=
  {| accessToken := access_token d;
     TokenData.refreshToken := default rt (truthy_string (refresh_token d));
     expiresAt := (Finite now + expires_in d * 1000 - 5 * 60 * 1000)%js;
     clientId := Some (fst creds);
     clientSecret := Some (snd creds);
     tenantId := Some tenant |}.

(** The world after [saveTokens tokens]. *)
Definition saved (tokens : StoredTokenData) (w : World) : World :=
  let path := tokenFilePath (tokenManager w) in
  let content := Text (Json.stringify (to_json tokens)) in
  emit (WriteFileSync path content)
    (set_fs (<[path := content]> (fs w)) (set_currentTokens (Some tokens) w)).

(** The world after [saveTokens_parsed tokens record], when the token file
    can be written. *)
Definition migrated (tokens : json) (record : option StoredTokenData) (w : World)
  : World :=
  let path := tokenFilePath (tokenManager w) in
  emit (WriteFileSync path (json_text tokens))
    (set_fs (<[path := json_text tokens]> (fs w)) (set_currentTokens record w)).

(** The world after the [catch] of [refreshToken]. *)
Definition refresh_caught (e : JsError) (w : World) : World :=
  emit (Console (Log (reauth_banner (tokenFilePath (tokenManager w)))))
    (emit (Console (LogError "Error refreshing token:" e)) w).

Definition refreshToken_cases (rt : string) (w : World)
  : Result (option StoredTokenData) * World :=
  let w0 := emit (RefreshTokenCalled rt) w in
  match refresh_credentials w with
  | None =>
      (Ret None,
       emit (Console (Log "Missing client credentials for token refresh")) w0)
  | Some creds =>
      let req := refresh_request (fst creds) (snd creds) (refresh_tenant w) rt in
      match net w with
      | [] => (Ret None, refresh_caught FetchFailed (emit (Fetch req Rejects) w0))
      | Rejects :: rest =>
          (Ret None,
           refresh_caught FetchFailed (emit (Fetch req Rejects) (set_net rest w0)))
      | Responds r :: rest =>
          let w1 := emit (Fetch req (Responds r)) (set_net rest w0) in
          if ok r then
            match Json.parse (text r) with
            | SyntaxErr => (Ret None, refresh_caught SyntaxError w1)
            | OutOfModel => (Unmodelled, w1)
            | Parsed JNull _ => (Ret None, refresh_caught TypeError w1)
            | Parsed v _ =>
                match as_RefreshResponse v with
                | None => (Unmodelled, w1)
                | Some d =>
                    let t := refreshed_tokens rt creds (refresh_tenant w) d
                               (clock (proc w) (ticks w)) in
                    let w2 := set_ticks (S (ticks w)) w1 in
                    match write_error (proc w) (tokenFilePath (tokenManager w)) with
                    | Some e =>
                        (Ret None, refresh_caught e (set_currentTokens (Some t) w2))
                    | None =>
                        (Ret (Some t), snd (updateClaudeConfig t (saved t w2)))
                    end
                end
            end
          else
            (Ret None,
             emit (Console (Log (reauth_banner (tokenFilePath (tokenManager w)))))
               (emit (Console (Log ("Token refresh failed: " ++ text r))) w1))
      end
  end.

(** What [refreshToken] leaves as it was when it fails before it has a new
    record. *)
Definition same_store (w w' : World) : Prop :=
  fs w' = fs w /\ currentTokens (tokenManager w') = currentTokens (tokenManager w)
  /\ ticks w' = ticks w.

(** The record that the token endpoint grants to a refresh that starts in
    [w]: there are client credentials, and the next answer is a success
    whose body holds the members that [refreshToken] reads. *)
Definition granted (rt : string) (w : World) : option StoredTokenData :=
  match refresh_credentials w, net w with
  | Some creds, Responds r :: _ =>
      if ok r then
        match token_response r with
        | Some d =>
            Some (refreshed_tokens rt creds (refresh_tenant w) d
                    (clock (proc w) (ticks w)))
        | None => None
        end
      else None
  | _, _ => None
  end.

(** The token file can be written. *)
Definition writable (w : World) : Prop :=
  write_error (proc w) (tokenFilePath (tokenManager w)) = None.

(** The record that [getTokens] returns when the refresh of the expired
    record of [s] answers [null]: for the pair of the environment, the
    record built from the pair; for the canonical store, the record that is
    cached then, which is the expired record unless the token endpoint
    granted a new one that could not be written. *)
Definition unrefreshed (w : World) (s : Source) : StoredTokenData :=
  match s with
  | EnvPair _ _ => resolved_record w s
  | CanonicalStore t =>
      default t (granted (TokenData.refreshToken t) (checked w s))
  end.

(** A record is found at the legacy path only: there is no pair in the
    environment and no token file, and the working directory is there. *)
Definition legacy_only (w : World) (t : StoredTokenData) : Prop :=
  env_pair w = None /\
  cwd_error (proc w) = None /\
  fs w !! tokenFilePath (tokenManager w) = None /\
  stored_record w (legacyPath (proc w)) = Some t.

(** *** Events *)

(** The call [m], started in [w], ends in a world that [R] relates to [w]. *)
Definition keeps (R : World -> World -> Prop) {A} (m : M A) (w : World) : Prop :=
  R w (snd (m w)).

(** The call changes neither the process nor the path of the token file, and
    the events that it adds to the trace all satisfy [P]. *)
Definition adds (P : Process -> string -> Event -> Prop) (w w' : World) : Prop :=
  proc w' = proc w /\
  tokenFilePath (tokenManager w') = tokenFilePath (tokenManager w) /\
  exists evs, (trace w' = trace w ++ evs)%list /\
              Forall (P (proc w) (tokenFilePath (tokenManager w))) evs.

(** Events of [updateClaudeConfig]: the console, and the configuration file
    of the desktop host. *)
Definition claude_event (p : Process) (path : string) (e : Event) : Prop :=
  match e with
  | Console _ => True
  | ExistsSync f _ | ReadFileSync f | WriteFileSync f _ | Havoc f =>
      f = claudeConfigPath p
  | Fetch _ _ | RefreshTokenCalled _ => False
  end.

(** What [updateClaudeConfig] may change: the console and that file. *)
Definition claude_step (w w' : World) : Prop :=
  adds claude_event w w' /\
  currentTokens (tokenManager w') = currentTokens (tokenManager w) /\
  ticks w' = ticks w /\ net w' = net w /\
  forall path, path <> claudeConfigPath (proc w) -> fs w' !! path = fs w !! path.

Definition form_headers : list (string * string) :=
  [("Content-Type", "application/x-www-form-urlencoded")].

(** Events of [refreshToken] after its entry: the console, one call of the
    token endpoint, the token file written, and what [updateClaudeConfig]
    does. *)
Definition refresh_event (p : Process) (path : string) (e : Event) : Prop :=
  match e with
  | Console _ => True
  | Fetch req _ => headers req = form_headers
  | WriteFileSync f _ => f = path \/ f = claudeConfigPath p
  | ExistsSync f _ | ReadFileSync f | Havoc f => f = claudeConfigPath p
  | RefreshTokenCalled _ => False
  end.

Definition is_refresh_call (e : Event) : bool :=
  match e with
  | RefreshTokenCalled _ => true
  | _ => false
  end.

(** How many times [refreshToken] was entered. *)
Definition refresh_calls (tr : list Event) : nat :=
  length (List.filter is_refresh_call tr).

(** An event that looks at the file at [path]. *)
Definition reads (path : string) (e : Event) : Prop :=
  match e with
  | ExistsSync f _ | ReadFileSync f => f = path
  | _ => False
  end.

(** The files that a call looks at are the configuration file of the
    desktop host only. *)
Definition reads_config_only (p : Process) (path : string) (e : Event) : Prop :=
  forall f, reads f e -> f = claudeConfigPath p.

Definition is_graph_request (req : Request) : bool :=
  match headers req with
  | h :: _ => String.eqb (fst h) "User-Agent"
  | [] => false
  end.

Definition is_graph_call (e : Event) : bool :=
  match e with
  | Fetch req _ => is_graph_request req
  | _ => false
  end.

(** How many HTTP calls went to the remote API. *)
Definition graph_calls (tr : list Event) : nat :=
  length (List.filter is_graph_call tr).

Definition not_graph_call (p : Process) (path : string) (e : Event) : Prop :=
  is_graph_call e = false.

(** *** [makeGraphRequest] *)

Definition marker : string := "MailboxNotEnabledForRESTAPI".

(** The world when [makeGraphRequest] makes its first call. *)
Definition announced (url method : string) (w : World) : World :=
  emit (Console (LogJson "Request options: " (request_options method)))
    (emit (Console (Log ("Making request to: " ++ url))) w).

(** The world after a first answer [r1] of status 401, when the Token Manager
    is asked again. *)
Definition refused (url token method : string) (b : Body) (r1 : Response)
    (rest : list NetReply) (w : World) : World :=
  emit (Console (Log "Got 401, attempting token refresh..."))
    (emit (Fetch (graph_request url token method b) (Responds r1))
       (set_net rest (announced url method w))).

(** The world after the [catch] of [makeGraphRequest]. *)
Definition request_caught (e : JsError) (w : World) : World :=
  emit (Console (LogError "Error making Graph API request:" e)) w.

(** The message of the error that a failed response raises. *)
Definition failure_message (r : Response) : string :=
  if includes (text r) marker
  then account_capability_message
  else http_error_message r.

(** The world after a failed response was reported and caught. *)
Definition failed (r : Response) (w : World) : World :=
  request_caught (Error (failure_message r))
    (if includes (text r) marker
     then emit (Console (Log mailbox_banner))
            (emit (Console (Log (http_error_message r))) w)
     else emit (Console (Log (http_error_message r))) w).

(** *** JSON texts *)

(** A text at which a number literal ends. *)
Definition ends_number (rest : string) : bool :=
  match rest with
  | EmptyString => true
  | String c _ =>
      negb (is_digit c || (code c =? 46)%N || (code c =? 101)%N || (code c =? 69)%N)
  end.

(** What [Json.parse_value] sees first of a numeral. *)
Definition numeral_head (c : ascii) : Prop :=
  ((code c =? 45)%N || is_digit c = true)
  /\ is_ws c = false
  /\ (code c =? 123)%N = false /\ (code c =? 91)%N = false
  /\ (code c =? 34)%N = false /\ (code c =? 116)%N = false
  /\ (code c =? 102)%N = false /\ (code c =? 110)%N = false.

(** A text of white space only. *)
Fixpoint white (s : string) : bool :=
  match s with
  | EmptyString => true
  | String c rest => is_ws c && white rest
  end.

(** No member of [ms] has the name [k]. *)
Fixpoint fresh (k : string) (ms : list (string * json)) : bool :=
  match ms with
  | [] => true
  | m :: rest => negb (String.eqb k (fst m)) && fresh k rest
  end.

Fixpoint distinct (ms : list (string * json)) : bool :=
  match ms with
  | [] => true
  | m :: rest => fresh (fst m) rest && distinct rest
  end.

(** The members of every object have names that differ, as they do in a
    value that [JSON.parse] gave. *)
Fixpoint keys_differ (v : json) : bool :=
  match v with
  | JArr items => forallb keys_differ items
  | JObj ms => distinct ms && forallb (fun m : string * json => keys_differ (snd m)) ms
  | _ => true
  end.

(** The values that [Json.parse] reads back from the text that
    [Json.stringify] writes: the names differ, and no number is kept as a
    text. *)
Fixpoint printable (v : json) : bool :=
  match v with
  | JNull | JBool _ | JInt _ | JStr _ => true
  | JReal _ => false
  | JArr items => forallb printable items
  | JObj ms => distinct ms && forallb (fun m : string * json => printable (snd m)) ms
  end.

(** The depth of calls that [Json.parse_value] needs for the text of a
    value. *)
Fixpoint size (v : json) : nat :=
  match v with
  | JArr items => S (list_sum (map (fun i => S (size i)) items))
  | JObj ms => S (list_sum (map (fun m : string * json => S (size (snd m))) ms))
  | _ => 1%nat
  end.

(** ** Worlds for the examples *)

Module Examples.

Definition canonical : string := "/home/u/.config/microsoft-todo-mcp/tokens.json".
Definition legacy : string := "/work/tokens.json".

Definition process (vars : list (string * string)) (clock : nat -> Z) : Process :=
  {| env := list_to_map vars; platform := "linux"; cwd := "/work";
     cwd_error := None;
     homedir := "/home/u"; join := String.concat "/"; clock := clock;
     write_error := fun _ => None |}.

Definition world (vars : list (string * string)) (clock : nat -> Z)
    (files : list (string * FileContent)) (replies : list NetReply) : World :=
  {| proc := process vars clock;
     tokenManager := {| tokenFilePath := canonical; currentTokens := None |};
     fs := list_to_map files; ticks := 0; net := replies; trace := [] |}.

(** The clock reads 5000, 5001, ... *)
Definition steady (n : nat) : Z := 5000 + Z.of_nat n.

Definition client : list (string * string) :=
  [("CLIENT_ID", "app"); ("CLIENT_SECRET", "secret")].

Definition ambient : list (string * string) :=
  [("MS_TODO_ACCESS_TOKEN", "EA"); ("MS_TODO_REFRESH_TOKEN", "ER")].

(** A record that expired at 1000 ms, and one that lasts. *)
Definition stale : StoredTokenData :=
  {| accessToken := "A1"; TokenData.refreshToken := "R1"; expiresAt := 1000;
     clientId := None; clientSecret := None; tenantId := None |}.

Definition lasting : StoredTokenData :=
  {| accessToken := "A2"; TokenData.refreshToken := "R2"; expiresAt := 9000000;
     clientId := Some "app"; clientSecret := Some "secret"; tenantId := None |}.

Definition file_of (t : StoredTokenData) : FileContent :=
  Text (Json.stringify (to_json t)).

Definition rejected : Response := {| status := 400; text := "invalid_grant" |}.

Definition granted : Response :=
  {| status := 200;
     text := Json.stringify
               (JObj [("access_token", JStr "A2"); ("expires_in", JInt 3600)]) |}.

Definition unauthorized : Response := {| status := 401; text := "token expired" |}.

Definition unauthorized_mailbox : Response :=
  {| status := 401;
     text := "MailboxNotEnabledForRESTAPI: REST API is not yet supported for this mailbox." |}.

Definition forbidden_mailbox : Response :=
  {| status := 403;
     text := "MailboxNotEnabledForRESTAPI: REST API is not yet supported for this mailbox." |}.

Definition found : Response :=
  {| status := 200; text := Json.stringify (JObj [("id", JInt 7)]) |}.

Definition url : string := "https://graph.microsoft.com/v1.0/me/todo/lists".

(** Canonical store with the stale record; the token endpoint refuses. *)
Definition stale_store_refused : World :=
  world client steady [(canonical, file_of stale)] [Responds rejected].

(** Only the legacy file, with the stale record. *)
Definition stale_legacy_only : World :=
  world client steady [(legacy, file_of stale)] [].

(** Canonical store with the lasting record; the remote API answers
    [replies]. *)
Definition lasting_store (replies : list NetReply) : World :=
  world [] steady [(canonical, file_of lasting)] replies.

(** The ambient pair, and a canonical store as well. *)
Definition ambient_and_store : World :=
  world ambient steady [(canonical, file_of lasting)] [].

(** No record cached; the token endpoint answers [replies]. *)
Definition refreshing (vars : list (string * string)) (replies : list NetReply)
  : World :=
  world vars steady [] replies.

(** The error of a write without the permission. *)
Definition denied : JsError := Error "EACCES: permission denied".


(** The error of [process.cwd()] in a directory that was removed. *)
Definition gone : JsError :=
  Error "ENOENT: no such file or directory, uv_cwd".

(** The world [w], started in a directory that was removed since. *)
Definition adrift (w : World) : World :=
  {| proc :=
       {| env := env (proc w); platform := platform (proc w);
          cwd := cwd (proc w); cwd_error := Some gone;
          homedir := homedir (proc w);
          join := join (proc w); clock := clock (proc w);
          write_error := write_error (proc w) |};
     tokenManager := tokenManager w; fs := fs w; ticks := ticks w;
     net := net w; trace := trace w |}.








Definition not_found_generic : Response :=
  {| status := 404; text := "ResourceNotFound" |}.

End Examples.

(** ** More vocabulary *)

(** [fetch] events of a trace. *)
Definition is_fetch (e : Event) : bool :=
  match e with
  | Fetch _ _ => true
  | _ => false
  end.

(** How many HTTP calls were made, to any host. *)
Definition fetch_calls (tr : list Event) : nat :=
  length (List.filter is_fetch tr).

(** The error that the load of the file at [path] throws: what
    [readFileSync] throws when it cannot read it, a [SyntaxError] when its
    content is not a JSON text. *)
Definition load_error (w : World) (path : string) : option JsError :=
  match fs w !! path with
  | Some (Text data) =>
      match Json.parse data with
      | SyntaxErr => Some SyntaxError
      | _ => None
      end
  | Some (Unreadable e) => Some e
  | _ => None
  end.

(** Every number in the computation of [expiresAt], from the reading [now]
    of the clock and the lifetime [s], is a safe integer: the arithmetic of
    doubles is then that of the integers. *)
Definition safe_lifetime (now s : Z) : Prop :=
  safe now /\ safe s /\ safe (s * 1000) /\ safe (now + s * 1000) /\
  safe (now + s * 1000 - 5 * 60 * 1000).



(** The events that record one call of the token endpoint. *)
Definition one_refresh_call (rt : string) (w : World) (evs : list Event) : Prop :=
  (fetch_calls evs <= 1)%nat /\
  forall req reply, In (Fetch req reply) evs ->
    exists creds,
      refresh_credentials w = Some creds /\
      req = refresh_request (fst creds) (snd creds) (refresh_tenant w) rt.


(** *** The configuration file of the desktop host *)





(** The members of a configuration declare no server [microsoft-todo]. *)
Definition declares_no_todo_server (cms : list (string * json)) : bool :=
  match Json.get "mcpServers" cms with
  | None => true
  | Some (JObj sms) =>
      match Json.get "microsoft-todo" sms with
      | None => true
      | Some _ => false
      end
  | Some _ => false
  end.

(** There is no configuration file, or it is a JSON object that declares no
    server [microsoft-todo]. *)
Definition config_without_server (w : World) : bool :=
  match fs w !! claudeConfigPath (proc w) with
  | None => true
  | Some (Text data) =>
      match Json.parse data with
      | Parsed (JObj cms) _ => declares_no_todo_server cms
      | _ => false
      end
  | Some _ => false
  end.


(** *** Calls of the remote API *)

(** The reply that the next [fetch] gets: with no reply left, the call is
    rejected. *)
Definition next_reply (w : World) : NetReply :=
  match net w with
  | [] => Rejects
  | reply :: _ => reply
  end.

(** The world after the first call of [makeGraphRequest]. *)
Definition answered (url token method : string) (b : Body) (w : World) : World :=
  emit (Fetch (graph_request url token method b) (next_reply w))
    match net w with
    | [] => announced url method w
    | _ :: rest => set_net rest (announced url method w)
    end.

(** [w'] is [w] with lines added on the console, and nothing else. *)
Definition console_step (w w' : World) : Prop :=
  exists ms, w' = fold_left (fun w m => emit (Console m) w) ms w.

(** *** Statements about the tools *)

(** [update-task] called with no optional argument. *)
Definition no_fields : TaskFields :=
  {| task_body := None; dueDateTime := None; startDateTime := None;
     importance := None; isReminderOn := None; reminderDateTime := None;
     task_status := None; categories := None |}.

(** The event is no HTTP call, or it is the request for [url] with [method]
    and the body [b] under some bearer token, or a form post (which is how
    the token endpoint is called). *)
Definition only_request (url method : string) (b : Body)
    (p : Process) (path : string) (e : Event) : Prop :=
  match e with
  | Fetch req _ =>
      (exists token, req = graph_request url token method b) \/
      headers req = form_headers
  | _ => True
  end.

(** A computation that leaves the world as it is. *)
Definition silent {A} (m : M A) : Prop := forall w, snd (m w) = w.

(** Whether the address is taken for one of a personal account: the piece
    between its first and its second [@], in lower case, contains one of the
    [personalDomains]. *)
Definition is_personal_email (email : string) : bool :=
  match truthy_string (toLowerCase <$> nth_error (split "@" email) 1) with
  | Some domain => existsb (includes domain) personalDomains
  | None => false
  end.

(** The address that [isPersonalMicrosoftAccount] examines in a profile:
    [mail] when it is a string that is not empty, else
    [userPrincipalName]. *)
Definition profile_email (ms : list (string * json)) : option string :=
  match Json.get "mail" ms with
  | Some (JStr m) =>
      if String.eqb m EmptyString
      then match Json.get "userPrincipalName" ms with
           | Some (JStr u) => Some u
           | None | Some JNull => Some EmptyString
           | _ => None
           end
      else Some m
  | None | Some JNull =>
      match Json.get "userPrincipalName" ms with
      | Some (JStr u) => Some u
      | None | Some JNull => Some EmptyString
      | _ => None
      end
  | _ => None
  end.

(** *** Texts *)






(** ** More worlds for the examples *)

Module MoreExamples.

(** The token endpoint answers with a new refresh token. *)
Definition rotated : Response :=
  {| status := 200;
     text := Json.stringify
               (JObj [("access_token", JStr "A3"); ("refresh_token", JStr "R3");
                      ("expires_in", JInt 3600)]) |}.


Definition other_config : json :=
  JObj [("mcpServers", JObj [("other", JObj [("command", JStr "x")])])].

(** 204 No Content. *)
Definition no_content : Response := {| status := 204; text := EmptyString |}.

Definition not_found : Response :=
  {| status := 404; text := "{}" |}.

(** The profile of a user whose [mail] is null. *)
Definition profile : Response :=
  {| status := 200;
     text := Json.stringify
               (JObj [("displayName", JStr "Ann");
                      ("mail", JNull);
                      ("userPrincipalName", JStr "Ann.Lee@Outlook.COM")]) |}.


Definition host_path : string :=
  "/home/u/.config/Claude/claude_desktop_config.json".

Definition with_config (config : json) : World :=
  Examples.world [] Examples.steady
    [(host_path, Text (Json.stringify config))] [].

End MoreExamples.


(** * Properties *)

#[local] Arguments String.append !_ _ / : simpl nomatch.

(** ** A JSON value is read back from its text *)

Module JsonFacts.
Import Json.

Lemma append_assoc (a b c : string) : (a ++ b) ++ c = a ++ (b ++ c).
Proof. induction a as [|x a IH]; simpl; [reflexivity | now rewrite IH]. Qed.

Lemma string_length_app (a b : string) :
  String.length (a ++ b) = (String.length a + String.length b)%nat.
Proof.
  induction a as [|c a IH]; cbn [String.append String.length Nat.add];
    [reflexivity | now rewrite IH].
Qed.

(** *** String literals *)

Lemma parse_chars_escape_char (c : ascii) (rest : string) :
  parse_chars (escape_char c ++ rest) = cons_char c (parse_chars rest).
Proof.
  destruct c as [b0 b1 b2 b3 b4 b5 b6 b7].
  destruct b0, b1, b2, b3, b4, b5, b6, b7; reflexivity.
Qed.

Lemma parse_chars_escape (s rest : string) :
  parse_chars (escape s ++ String dquote rest) = Parsed s rest.
Proof.
  induction s as [|c s IH]; simpl.
  - reflexivity.
  - rewrite append_assoc, parse_chars_escape_char, IH. reflexivity.
Qed.

Lemma quote_app (k rest : string) :
  quote k ++ rest = String dquote (escape k ++ String dquote rest).
Proof. unfold quote. cbn [String.append]. now rewrite append_assoc. Qed.

(** *** Numerals *)

Lemma take_digits_uint (d : Decimal.uint) (rest : string) :
  match rest with String c _ => is_digit c = false | EmptyString => True end ->
  take_digits (NilEmpty.string_of_uint d ++ rest) = (NilEmpty.string_of_uint d, rest).
Proof.
  intros Hrest. induction d; simpl; try (rewrite IHd; reflexivity).
  destruct rest as [|c r]; simpl; [reflexivity | now rewrite Hrest].
Qed.

Lemma print_N_nilempty (n : N) :
  print_N n = NilEmpty.string_of_uint (N.to_uint n).
Proof.
  unfold print_N, NilZero.string_of_uint.
  destruct (N.to_uint n) eqn:E; try reflexivity.
  destruct n; simpl in E; [discriminate|].
  now apply DecimalPos.Unsigned.to_uint_nonnil in E.
Qed.

Lemma ends_number_not_digit (rest : string) :
  ends_number rest = true ->
  match rest with String c _ => is_digit c = false | EmptyString => True end.
Proof.
  destruct rest as [|c r]; [easy|]. unfold ends_number.
  destruct (is_digit c); simpl; [discriminate | reflexivity].
Qed.

Lemma take_digits_print_N (n : N) (rest : string) :
  ends_number rest = true ->
  take_digits (print_N n ++ rest) = (print_N n, rest).
Proof.
  intros H. rewrite print_N_nilempty.
  apply take_digits_uint, ends_number_not_digit, H.
Qed.

Lemma digits_value_print_N (n : N) : digits_value (print_N n) = Z.of_N n.
Proof.
  unfold digits_value, print_N.
  rewrite NilZero.usu.
  - now rewrite Unsigned.of_to.
  - destruct n; simpl; [discriminate|].
    apply DecimalPos.Unsigned.to_uint_nonnil.
Qed.

Lemma unorm_N_to_uint (n : N) : Decimal.unorm (N.to_uint n) = N.to_uint n.
Proof. now rewrite <- Unsigned.to_of, Unsigned.of_to. Qed.

Lemma unorm_D0_fixed (d : Decimal.uint) :
  Decimal.unorm d = Decimal.D0 d -> d = Decimal.Nil.
Proof.
  unfold Decimal.unorm. destruct (Decimal.nzhead d) eqn:E; intros H;
    try discriminate.
  - now injection H.
  - now apply nzhead_nonzero in E.
Qed.

(** A numeral has no leading zero. *)
Lemma int_part_ok_uint (d : Decimal.uint) :
  Decimal.unorm d = d -> int_part_ok (NilEmpty.string_of_uint d) = true.
Proof.
  intros H. destruct d; simpl.
  - pose proof (unorm_nonnil Decimal.Nil) as Hn. now rewrite H in Hn.
  - rewrite unorm_D0 in H. apply unorm_D0_fixed in H. now subst d.
  - now destruct (NilEmpty.string_of_uint d).
  - now destruct (NilEmpty.string_of_uint d).
  - now destruct (NilEmpty.string_of_uint d).
  - now destruct (NilEmpty.string_of_uint d).
  - now destruct (NilEmpty.string_of_uint d).
  - now destruct (NilEmpty.string_of_uint d).
  - now destruct (NilEmpty.string_of_uint d).
  - now destruct (NilEmpty.string_of_uint d).
  - now destruct (NilEmpty.string_of_uint d).
Qed.

Lemma int_part_ok_print_N (n : N) : int_part_ok (print_N n) = true.
Proof. rewrite print_N_nilempty. apply int_part_ok_uint, unorm_N_to_uint. Qed.

(** A numeral starts with a digit. *)
Lemma print_N_head (n : N) :
  exists c r, print_N n = String c r /\ is_digit c = true.
Proof.
  rewrite print_N_nilempty.
  destruct (N.to_uint n) eqn:E; simpl; eauto.
  destruct n; simpl in E; [discriminate|].
  now apply DecimalPos.Unsigned.to_uint_nonnil in E.
Qed.

Lemma take_frac_end (rest : string) :
  ends_number rest = true -> take_frac rest = Some (EmptyString, rest).
Proof.
  destruct rest as [|c r]; [reflexivity|]. unfold ends_number, take_frac.
  destruct c as [b0 b1 b2 b3 b4 b5 b6 b7].
  destruct b0, b1, b2, b3, b4, b5, b6, b7; simpl; intros; try reflexivity;
    discriminate.
Qed.

Lemma take_exp_end (rest : string) :
  ends_number rest = true -> take_exp rest = Some (EmptyString, rest).
Proof.
  destruct rest as [|c r]; [reflexivity|]. unfold ends_number, take_exp.
  destruct ((code c =? 101)%N) eqn:E1; destruct ((code c =? 69)%N) eqn:E2; simpl;
    rewrite ?orb_true_r; try discriminate; reflexivity.
Qed.

Lemma take_sign_digit (n : N) (rest : string) :
  take_sign (print_N n ++ rest) = (false, print_N n ++ rest).
Proof.
  destruct (print_N_head n) as (c & r & E & Hc). rewrite E. simpl.
  destruct c as [b0 b1 b2 b3 b4 b5 b6 b7].
  destruct b0, b1, b2, b3, b4, b5, b6, b7; try reflexivity; discriminate.
Qed.

Lemma parse_number_nat (neg : bool) (n : N) (rest : string) :
  ends_number rest = true ->
  parse_number ((if neg then "-" else EmptyString) ++ print_N n ++ rest)
  = Parsed (JInt (if neg then - Z.of_N n else Z.of_N n)) rest.
Proof.
  intros H. unfold parse_number. destruct neg; simpl.
  - rewrite take_digits_print_N by assumption.
    rewrite int_part_ok_print_N, take_frac_end, take_exp_end by assumption.
    now rewrite digits_value_print_N.
  - rewrite take_sign_digit.
    rewrite take_digits_print_N by assumption.
    rewrite int_part_ok_print_N, take_frac_end, take_exp_end by assumption.
    now rewrite digits_value_print_N.
Qed.

Lemma parse_number_print_Z (z : Z) (rest : string) :
  ends_number rest = true ->
  parse_number (print_Z z ++ rest) = Parsed (JInt z) rest.
Proof.
  intros H. destruct z as [|p|p].
  - apply (parse_number_nat false 0 rest H).
  - apply (parse_number_nat false (Npos p) rest H).
  - unfold print_Z. rewrite append_assoc.
    apply (parse_number_nat true (Npos p) rest H).
Qed.

Lemma digit_numeral_head (c : ascii) : is_digit c = true -> numeral_head c.
Proof.
  destruct c as [b0 b1 b2 b3 b4 b5 b6 b7].
  destruct b0, b1, b2, b3, b4, b5, b6, b7; intros; try discriminate;
    repeat split; reflexivity.
Qed.

Lemma print_Z_head (z : Z) :
  exists c r, print_Z z = String c r /\ numeral_head c.
Proof.
  destruct z as [|p|p]; unfold print_Z.
  - destruct (print_N_head (Z.to_N 0)) as (c & r & -> & Hc).
    eauto using digit_numeral_head.
  - destruct (print_N_head (Z.to_N (Zpos p))) as (c & r & -> & Hc).
    eauto using digit_numeral_head.
  - exists "-"%char, (print_N (Npos p)). repeat split; reflexivity.
Qed.

(** *** Values *)

Lemma parse_value_int (fuel : nat) (z : Z) (rest : string) :
  ends_number rest = true ->
  parse_value (S fuel) (print_Z z ++ rest) = Parsed (JInt z) rest.
Proof.
  intros H. rewrite <- (parse_number_print_Z z rest H).
  destruct (print_Z_head z)
    as (c & r & -> & H1 & H2 & H3 & H4 & H5 & H6 & H7 & H8).
  simpl. rewrite H2, H3, H4, H5, H6, H7, H8. simpl in H1. now rewrite H1.
Qed.

Lemma parse_value_string (fuel : nat) (s rest : string) :
  parse_value (S fuel) (quote s ++ rest) = Parsed (JStr s) rest.
Proof.
  unfold quote. simpl. rewrite append_assoc. simpl.
  now rewrite parse_chars_escape.
Qed.

Lemma parse_value_space (n : nat) (X : string) :
  parse_value (S n) (String " " X) = parse_value (S n) X.
Proof. reflexivity. Qed.

(** *** White space *)

Lemma skip_ws_idem (s : string) : skip_ws (skip_ws s) = skip_ws s.
Proof.
  induction s as [|c s IH]; [reflexivity |]. cbn [skip_ws].
  destruct (is_ws c) eqn:E; [exact IH |]. cbn [skip_ws]. now rewrite E.
Qed.

Lemma skip_ws_white (ws s : string) :
  white ws = true -> skip_ws (ws ++ s) = skip_ws s.
Proof.
  induction ws as [|c ws IH]; [reflexivity |]. cbn [white String.append skip_ws].
  intros H. apply andb_prop in H as [Hc Hws]. rewrite Hc. now apply IH.
Qed.

Lemma skip_ws_head (c : ascii) (s : string) :
  is_ws c = false -> skip_ws (String c s) = String c s.
Proof. intros H. cbn [skip_ws]. now rewrite H. Qed.

Lemma white_app (a b : string) :
  white a = true -> white b = true -> white (a ++ b) = true.
Proof.
  induction a as [|c a IH]; [now intros _ H |]. cbn [white String.append].
  intros H Hb. apply andb_prop in H as [Hc Ha]. now rewrite Hc, IH.
Qed.

(** *** One step of the parser *)

Lemma parse_value_eq (fuel : nat) (s : string) :
  parse_value (S fuel) s =
    match skip_ws s with
    | EmptyString => SyntaxErr
    | String c rest =>
        let n := code c in
        if (n =? 123)%N then
          match skip_ws rest with
          | String "}" rest' => Parsed (JObj []) rest'
          | _ => parse_members fuel [] rest
          end
        else if (n =? 91)%N then
          match skip_ws rest with
          | String "]" rest' => Parsed (JArr []) rest'
          | _ => parse_items fuel [] rest
          end
        else if (n =? 34)%N then pmap JStr (parse_chars rest)
        else if (n =? 116)%N then parse_keyword "true" (JBool true) (String c rest)
        else if (n =? 102)%N then parse_keyword "false" (JBool false) (String c rest)
        else if (n =? 110)%N then parse_keyword "null" JNull (String c rest)
        else if (n =? 45)%N || is_digit c then parse_number (String c rest)
        else SyntaxErr
    end.
Proof. reflexivity. Qed.

Lemma parse_members_eq (fuel : nat) (acc : list (string * json)) (s : string) :
  parse_members (S fuel) acc s =
    match skip_ws s with
    | String c rest =>
        if (code c =? 34)%N then
          match parse_chars rest with
          | Parsed k rest1 =>
              match skip_ws rest1 with
              | String ":" rest2 =>
                  match parse_value fuel rest2 with
                  | Parsed v rest3 =>
                      match skip_ws rest3 with
                      | String "," rest4 => parse_members fuel (set k v acc) rest4
                      | String "}" rest4 => Parsed (JObj (set k v acc)) rest4
                      | _ => SyntaxErr
                      end
                  | SyntaxErr => SyntaxErr
                  | OutOfModel => OutOfModel
                  end
              | _ => SyntaxErr
              end
          | SyntaxErr => SyntaxErr
          | OutOfModel => OutOfModel
          end
        else SyntaxErr
    | EmptyString => SyntaxErr
    end.
Proof. reflexivity. Qed.

Lemma parse_items_eq (fuel : nat) (acc : list json) (s : string) :
  parse_items (S fuel) acc s =
    match parse_value fuel s with
    | Parsed v rest =>
        match skip_ws rest with
        | String "," rest' => parse_items fuel (acc ++ [v]) rest'
        | String "]" rest' => Parsed (JArr (acc ++ [v])) rest'
        | _ => SyntaxErr
        end
    | SyntaxErr => SyntaxErr
    | OutOfModel => OutOfModel
    end.
Proof. reflexivity. Qed.

Lemma parse_value_skip (fuel : nat) (s : string) :
  parse_value fuel (skip_ws s) = parse_value fuel s.
Proof.
  destruct fuel; [reflexivity |]. now rewrite !parse_value_eq, skip_ws_idem.
Qed.

Lemma parse_value_white (fuel : nat) (ws s : string) :
  white ws = true -> parse_value fuel (ws ++ s) = parse_value fuel s.
Proof.
  intros H. rewrite <- parse_value_skip, (skip_ws_white ws s H).
  apply parse_value_skip.
Qed.

Lemma parse_members_white (fuel : nat) (acc : list (string * json)) (ws s : string) :
  white ws = true -> parse_members fuel acc (ws ++ s) = parse_members fuel acc s.
Proof.
  intros H. destruct fuel; [reflexivity |].
  now rewrite !parse_members_eq, (skip_ws_white ws s H).
Qed.

Lemma parse_items_white (fuel : nat) (acc : list json) (ws s : string) :
  white ws = true -> parse_items fuel acc (ws ++ s) = parse_items fuel acc s.
Proof.
  intros H. destruct fuel; [reflexivity |].
  now rewrite !parse_items_eq, (parse_value_white fuel ws s H).
Qed.

(** After an opening bracket that no closing bracket follows. *)
Lemma parse_value_open_bracket (fuel : nat) (X : string) (c : ascii) (r : string) :
  skip_ws X = String c r -> c <> "]"%char ->
  parse_value (S fuel) (String "[" X) = parse_items fuel [] X.
Proof.
  intros H Hc. cbn [parse_value skip_ws is_ws].
  change (is_ws "[") with false. cbv beta iota.
  change ((code "[" =? 123)%N) with false. change ((code "[" =? 91)%N) with true.
  cbv beta iota. rewrite H.
  destruct c as [b0 b1 b2 b3 b4 b5 b6 b7].
  destruct b0, b1, b2, b3, b4, b5, b6, b7; try reflexivity.
  exfalso. now apply Hc.
Qed.

(** After an opening brace that a name follows. *)
Lemma parse_value_open_brace (fuel : nat) (X Y : string) :
  skip_ws X = String dquote Y ->
  parse_value (S fuel) (String "{" X) = parse_members fuel [] X.
Proof.
  intros H. cbn [parse_value skip_ws is_ws].
  change (is_ws "{") with false. cbv beta iota.
  change ((code "{" =? 123)%N) with true. cbv beta iota. now rewrite H.
Qed.

(** One member whose value [parse_value] reads. *)
Lemma parse_members_member (fuel : nat) (acc : list (string * json))
    (k : string) (X : string) (v : json) (rest : string) :
  parse_value fuel X = Parsed v rest ->
  parse_members (S fuel) acc (quote k ++ String ":" (String " " X))
  = match skip_ws rest with
    | String "," rest4 => parse_members fuel (set k v acc) rest4
    | String "}" rest4 => Parsed (JObj (set k v acc)) rest4
    | _ => SyntaxErr
    end.
Proof.
  intros Hv. rewrite quote_app, parse_members_eq.
  change (skip_ws (String dquote ?s)) with (String dquote s).
  cbv beta iota. change ((code dquote =? 34)%N) with true. cbv beta iota.
  rewrite parse_chars_escape.
  change (skip_ws (String ":" ?s)) with (String ":" s). cbv beta iota.
  change (String " " X) with (" " ++ X). rewrite parse_value_white by reflexivity.
  now rewrite Hv.
Qed.

Lemma parse_items_item (fuel : nat) (acc : list json) (X : string) (v : json)
    (rest : string) :
  parse_value fuel X = Parsed v rest ->
  parse_items (S fuel) acc X
  = match skip_ws rest with
    | String "," rest' => parse_items fuel (acc ++ [v]) rest'
    | String "]" rest' => Parsed (JArr (acc ++ [v])) rest'
    | _ => SyntaxErr
    end.
Proof. intros Hv. now rewrite parse_items_eq, Hv. Qed.

(** *** Keywords *)

Lemma substring_all (s : string) : String.substring 0 (String.length s) s = s.
Proof. induction s as [|c s IH]; [reflexivity |]. cbn. now rewrite IH. Qed.

(** Evaluates the tests on the characters that are known. *)
Ltac chars :=
  repeat first
    [ match goal with
      | |- context [is_ws ?c] =>
          let b := eval vm_compute in (is_ws c) in
          lazymatch b with
          | true => change (is_ws c) with true
          | false => change (is_ws c) with false
          end
      | |- context [(code ?c =? ?n)%N] =>
          let b := eval vm_compute in (code c =? n)%N in
          lazymatch b with
          | true => change ((code c =? n)%N) with true
          | false => change ((code c =? n)%N) with false
          end
      end
    | progress cbv beta iota zeta ].

Lemma parse_value_null (fuel : nat) (rest : string) :
  parse_value (S fuel) ("null" ++ rest) = Parsed JNull rest.
Proof.
  rewrite parse_value_eq. cbn [String.append skip_ws]. chars.
  unfold parse_keyword. cbn. rewrite Nat.sub_0_r, substring_all.
  now destruct rest.
Qed.

Lemma parse_value_true (fuel : nat) (rest : string) :
  parse_value (S fuel) ("true" ++ rest) = Parsed (JBool true) rest.
Proof.
  rewrite parse_value_eq. cbn [String.append skip_ws]. chars.
  unfold parse_keyword. cbn. rewrite Nat.sub_0_r, substring_all.
  now destruct rest.
Qed.

Lemma parse_value_false (fuel : nat) (rest : string) :
  parse_value (S fuel) ("false" ++ rest) = Parsed (JBool false) rest.
Proof.
  rewrite parse_value_eq. cbn [String.append skip_ws]. chars.
  unfold parse_keyword. cbn. rewrite Nat.sub_0_r, substring_all.
  now destruct rest.
Qed.

(** *** The text of a value *)

Lemma json_induction (P : json -> Prop) :
  P JNull -> (forall b, P (JBool b)) -> (forall z, P (JInt z)) ->
  (forall l, P (JReal l)) -> (forall s, P (JStr s)) ->
  (forall items, Forall P items -> P (JArr items)) ->
  (forall ms, Forall (fun m : string * json => P (snd m)) ms -> P (JObj ms)) ->
  forall v, P v.
Proof.
  intros Hn Hb Hi Hr Hs Ha Ho. fix IH 1. intros [| b | z | l | s | items | ms].
  - exact Hn.
  - apply Hb.
  - apply Hi.
  - apply Hr.
  - apply Hs.
  - apply Ha. revert items. fix IHl 1. intros [|i items]; constructor;
      [apply IH | apply IHl].
  - apply Ho. revert ms. fix IHl 1. intros [|m ms]; constructor;
      [apply IH | apply IHl].
Qed.

(** The text of a value starts with a character that is no white space and
    no closing bracket. *)
Lemma stringify_head (v : json) (ind : string) :
  printable v = true ->
  exists c r, stringify_at ind v = String c r /\ is_ws c = false /\ c <> "]"%char.
Proof.
  destruct v as [| [] | z | l | s | [|i items] | [|m ms]]; cbn [printable];
    intros H; try discriminate;
    try (do 2 eexists; split; [reflexivity | split; [reflexivity | discriminate]]).
  destruct (print_Z_head z) as (c & r & E & H1 & H2 & _).
  exists c, r. cbn [stringify_at]. split; [exact E |]. split; [exact H2 |].
  intros ->. discriminate H1.
Qed.

Lemma white_indent (ind : string) : white ind = true -> white (ind ++ "  ") = true.
Proof. intros H. now apply white_app. Qed.

#[local] Abbreviation reads_back v :=
  (printable v = true ->
   forall (ind rest : string) (fuel : nat),
     white ind = true -> ends_number rest = true -> le (size v) fuel ->
     parse_value fuel (stringify_at ind v ++ rest) = Parsed v rest).

Lemma join_cons2 (sep a b : string) (l : list string) :
  join sep (a :: b :: l) = a ++ sep ++ join sep (b :: l).
Proof. reflexivity. Qed.

(** The items of an array, as [stringify_at] lays them out. *)
Lemma parse_items_stringify (items : list json) :
  Forall (fun i => reads_back i) items ->
  forallb printable items = true ->
  items <> [] ->
  forall (acc : list json) (ind rest : string) (fuel : nat),
    white ind = true ->
    (list_sum (map (fun i => S (size i)) items) <= fuel)%nat ->
    parse_items fuel acc
      (String newline (ind ++ "  ")
       ++ join (String "," (String newline (ind ++ "  ")))
            (map (stringify_at (ind ++ "  ")) items)
       ++ String newline ind ++ String "]" rest)
    = Parsed (JArr (acc ++ items)) rest.
Proof.
  induction 1 as [|i items Hi Hitems IH]; intros Hp Hne acc ind rest fuel Hw Hf;
    [congruence |].
  cbn [forallb] in Hp. apply andb_prop in Hp as [Hpi Hpl].
  cbn [map list_sum fold_right] in Hf.
  destruct fuel as [|fuel]; [lia |].
  assert (Hw' : white (ind ++ "  ") = true) by now apply white_indent.
  rewrite parse_items_white by (cbn [white]; now rewrite Hw').
  destruct items as [|i2 items].
  - cbn [map join].
    rewrite (parse_items_item fuel acc _ i (String newline ind ++ String "]" rest)).
    + rewrite skip_ws_white by (cbn [white]; now rewrite Hw). reflexivity.
    + apply Hi; [exact Hpi | exact Hw' | reflexivity | cbn [map list_sum fold_right] in Hf; lia].
  - cbn [map]. rewrite join_cons2, !append_assoc.
    rewrite (parse_items_item fuel acc _ i
               (String "," (String newline (ind ++ "  "))
                ++ join (String "," (String newline (ind ++ "  ")))
                     (map (stringify_at (ind ++ "  ")) (i2 :: items))
                ++ String newline ind ++ String "]" rest)).
    + cbn [String.append skip_ws is_ws]. change (is_ws ",") with false.
      cbv beta iota.
      replace (acc ++ i :: i2 :: items)%list with ((acc ++ [i]) ++ i2 :: items)%list
        by now rewrite <- app_assoc.
      apply (IH Hpl ltac:(discriminate) (acc ++ [i])%list ind rest fuel Hw).
      cbn [map list_sum fold_right] in Hf |- *. lia.
    + apply Hi; [exact Hpi | exact Hw' | reflexivity |].
      cbn [map list_sum fold_right] in Hf. lia.
Qed.

Lemma set_fresh (k : string) (v : json) (acc : list (string * json)) :
  fresh k acc = true -> set k v acc = (acc ++ [(k, v)])%list.
Proof.
  induction acc as [|[k' v'] acc IH]; [reflexivity |].
  cbn [fresh set fst app]. intros H. apply andb_prop in H as [H1 H2].
  apply negb_true_iff in H1. rewrite H1. now rewrite IH.
Qed.

Lemma fresh_app (k : string) (a b : list (string * json)) :
  fresh k (a ++ b) = fresh k a && fresh k b.
Proof.
  induction a as [|m a IH]; [reflexivity |]. cbn [fresh app].
  now rewrite IH, andb_assoc.
Qed.

(** Members with names that differ are set one after the other. *)
Lemma fold_set_distinct (ms acc : list (string * json)) :
  forallb (fun m : string * json => fresh (fst m) acc) ms = true ->
  distinct ms = true ->
  fold_left (fun a (m : string * json) => set (fst m) (snd m) a) ms acc
  = (acc ++ ms)%list.
Proof.
  revert acc. induction ms as [|[k v] ms IH]; intros acc Hacc Hd.
  - now rewrite app_nil_r.
  - cbn [forallb distinct fst snd fold_left] in *.
    apply andb_prop in Hacc as [Hk Hacc]. apply andb_prop in Hd as [Hf Hd].
    rewrite set_fresh by exact Hk. rewrite IH; [now rewrite <- app_assoc | | exact Hd].
    clear IH Hd. induction ms as [|[k' v'] ms IH]; [reflexivity |].
    cbn [forallb fresh fst] in *.
    apply andb_prop in Hacc as [Hk' Hacc]. apply andb_prop in Hf as [Hne Hf].
    rewrite fresh_app, Hk'. cbn [fresh fst andb].
    rewrite String.eqb_sym, Hne. cbn [andb]. now apply IH.
Qed.

(** The members of an object, as [stringify_at] lays them out. *)
Lemma parse_members_stringify (ms : list (string * json)) :
  Forall (fun m : string * json => reads_back (snd m)) ms ->
  forallb (fun m : string * json => printable (snd m)) ms = true ->
  ms <> [] ->
  forall (acc : list (string * json)) (ind rest : string) (fuel : nat),
    white ind = true ->
    (list_sum (map (fun m : string * json => S (size (snd m))) ms) <= fuel)%nat ->
    parse_members fuel acc
      (String newline (ind ++ "  ")
       ++ join (String "," (String newline (ind ++ "  ")))
            (map (fun m : string * json =>
                    quote (fst m) ++ ": " ++ stringify_at (ind ++ "  ") (snd m))
               ms)
       ++ String newline ind ++ String "}" rest)
    = Parsed (JObj (fold_left (fun a (m : string * json) => set (fst m) (snd m) a)
                      ms acc)) rest.
Proof.
  induction 1 as [|m ms Hm Hms IH]; intros Hp Hne acc ind rest fuel Hw Hf;
    [congruence |].
  cbn [forallb] in Hp. apply andb_prop in Hp as [Hpm Hpl].
  cbn [map list_sum fold_right] in Hf.
  destruct fuel as [|fuel]; [lia |].
  assert (Hw' : white (ind ++ "  ") = true) by now apply white_indent.
  rewrite parse_members_white by (cbn [white]; now rewrite Hw').
  destruct ms as [|m2 ms].
  - cbn [map join fold_left]. rewrite !append_assoc.
    change (": " ++ ?X) with (String ":" (String " " X)).
    rewrite (parse_members_member fuel acc (fst m) _ (snd m)
               (String newline ind ++ String "}" rest)).
    + rewrite skip_ws_white by (cbn [white]; now rewrite Hw). reflexivity.
    + apply Hm; [exact Hpm | exact Hw' | reflexivity | cbn [map list_sum fold_right] in Hf; lia].
  - cbn [map fold_left]. rewrite join_cons2, !append_assoc.
    change (": " ++ ?X) with (String ":" (String " " X)).
    rewrite (parse_members_member fuel acc (fst m) _ (snd m)
               (String "," (String newline (ind ++ "  "))
                ++ join (String "," (String newline (ind ++ "  ")))
                     (map (fun m : string * json =>
                             quote (fst m) ++ ": " ++ stringify_at (ind ++ "  ") (snd m))
                        (m2 :: ms))
                ++ String newline ind ++ String "}" rest)).
    + cbn [String.append skip_ws is_ws]. change (is_ws ",") with false.
      cbv beta iota.
      apply (IH Hpl ltac:(discriminate) (set (fst m) (snd m) acc) ind rest fuel Hw).
      cbn [map list_sum fold_right] in Hf |- *. lia.
    + apply Hm; [exact Hpm | exact Hw' | reflexivity |].
      cbn [map list_sum fold_right] in Hf. lia.
Qed.

(** [Json.parse_value] reads a value back from its text. *)
Lemma parse_value_stringify (v : json) : reads_back v.
Proof.
  induction v as [| b | z | l | s | items IH | ms IH] using json_induction;
    intros Hp ind rest fuel Hw Hrest Hf; cbn [size] in Hf;
    (destruct fuel as [|fuel]; [lia |]).
  - apply parse_value_null.
  - destruct b; [apply parse_value_true | apply parse_value_false].
  - now apply parse_value_int.
  - discriminate.
  - apply parse_value_string.
  - destruct items as [|i items]; [reflexivity |].
    cbn [printable] in Hp. cbn [stringify_at]. rewrite !append_assoc.
    cbn [String.append].
    destruct (stringify_head i (ind ++ "  ")) as (c & r & E & Hc & Hb).
    { cbn [forallb] in Hp. now apply andb_prop in Hp as [Hp _]. }
    match goal with
    | |- parse_value _ (String "[" ?X) = _ =>
        assert (Hs : exists r', skip_ws X = String c r')
    end.
    { change (String newline ?X) with (String newline EmptyString ++ X) at 1.
      rewrite skip_ws_white by reflexivity.
      rewrite skip_ws_white by now apply white_indent.
      destruct items as [|i2 items]; cbn [map join]; rewrite ?join_cons2, E;
        cbn [String.append]; rewrite skip_ws_head by exact Hc; eauto. }
    destruct Hs as [r' Hs]. rewrite (parse_value_open_bracket fuel _ c r' Hs Hb).
    apply (parse_items_stringify (i :: items) IH Hp ltac:(discriminate)
             [] ind rest fuel Hw). lia.
  - destruct ms as [|m ms]; [reflexivity |].
    cbn [printable] in Hp. apply andb_prop in Hp as [Hd Hp].
    cbn [stringify_at]. rewrite !append_assoc. cbn [String.append].
    match goal with
    | |- parse_value _ (String "{" ?X) = _ =>
        assert (Hs : exists Y, skip_ws X = String dquote Y)
    end.
    { change (String newline ?X) with (String newline EmptyString ++ X) at 1.
      rewrite skip_ws_white by reflexivity.
      rewrite skip_ws_white by now apply white_indent.
      destruct ms as [|m2 ms]; cbn [map join]; rewrite ?join_cons2;
        rewrite ?append_assoc, quote_app; cbn [String.append]; eauto. }
    destruct Hs as [Y Hs]. rewrite (parse_value_open_brace fuel _ Y Hs).
    replace (JObj (m :: ms))
      with (JObj (fold_left (fun a (m : string * json) => set (fst m) (snd m) a)
                    (m :: ms) []))
      by (rewrite fold_set_distinct; [reflexivity | apply forallb_forall; reflexivity
                                      | exact Hd]).
    apply (parse_members_stringify (m :: ms) IH Hp ltac:(discriminate)
             [] ind rest fuel Hw). lia.
Qed.

(** *** The fuel that [parse] gives *)

Lemma join_size {A} (f : A -> string) (g : A -> nat) (sep : string) (l : list A) :
  Forall (fun a => (g a <= String.length (f a))%nat) l ->
  (1 <= String.length sep)%nat ->
  (list_sum (map (fun a => S (g a)) l) <= S (String.length (join sep (map f l))))%nat.
Proof.
  intros H Hsep. induction H as [|a l Ha _ IH]; [cbn; lia |].
  destruct l as [|b l].
  - cbn [map join list_sum fold_right]. lia.
  - change (join sep (map f (a :: b :: l)))
      with (f a ++ sep ++ join sep (map f (b :: l))).
    rewrite !string_length_app.
    change (list_sum (map (fun a => S (g a)) (a :: b :: l)))
      with (S (g a) + list_sum (map (fun a => S (g a)) (b :: l)))%nat.
    lia.
Qed.

(** The text of a value is at least as long as the fuel it needs. *)
Lemma size_length (v : json) :
  printable v = true ->
  forall ind, (size v <= String.length (stringify_at ind v))%nat.
Proof.
  induction v as [| b | z | l | s | items IH | ms IH] using json_induction;
    intros Hp ind; cbn [size].
  - cbn. lia.
  - destruct b; cbn; lia.
  - destruct (print_Z_head z) as (c & r & E & _). cbn [stringify_at].
    rewrite E. cbn [String.length]. lia.
  - discriminate.
  - cbn [stringify_at]. unfold quote. cbn [String.length]. lia.
  - destruct items as [|i items]; [cbn; lia |].
    cbn [printable] in Hp. cbn [stringify_at].
    rewrite !string_length_app. cbn [String.length].
    assert (H : (list_sum (map (fun a => S (size a)) (i :: items))
                 <= S (String.length
                         (join (String "," (String newline (ind ++ "  ")))
                            (map (stringify_at (ind ++ "  ")) (i :: items)))))%nat).
    { apply join_size; [| cbn [String.length]; lia].
      rewrite Forall_forall in IH |- *. intros a Ha. apply IH; [exact Ha |].
      rewrite forallb_forall in Hp. apply Hp. now apply list_elem_of_In. }
    lia.
  - destruct ms as [|m ms]; [cbn; lia |].
    cbn [printable] in Hp. apply andb_prop in Hp as [_ Hp]. cbn [stringify_at].
    rewrite !string_length_app. cbn [String.length].
    assert (H : (list_sum (map (fun a : string * json => S (size (snd a))) (m :: ms))
                 <= S (String.length
                         (join (String "," (String newline (ind ++ "  ")))
                            (map (fun m : string * json =>
                                    quote (fst m) ++ ": "
                                    ++ stringify_at (ind ++ "  ") (snd m))
                               (m :: ms)))))%nat).
    { apply (join_size _ (fun a : string * json => size (snd a)));
        [| cbn [String.length]; lia].
      rewrite Forall_forall in IH |- *. intros a Ha.
      rewrite !string_length_app.
      specialize (IH a Ha). rewrite forallb_forall in Hp.
      specialize (IH (Hp a ltac:(now apply list_elem_of_In)) (ind ++ "  ")). lia. }
    lia.
Qed.

(** [Json.parse] reads a value back from the text that [Json.stringify]
    writes for it. *)
Lemma parse_stringify (v : json) :
  printable v = true -> parse (stringify v) = Parsed v EmptyString.
Proof.
  intros Hp. unfold parse, stringify.
  pose proof (parse_value_stringify v Hp EmptyString EmptyString
                (S (2 * String.length (stringify_at EmptyString v)))
                eq_refl eq_refl) as H.
  assert (E : stringify_at EmptyString v ++ EmptyString = stringify_at EmptyString v).
  { generalize (stringify_at EmptyString v). intros s.
    induction s as [|c s IH]; [reflexivity |]. cbn [String.append]. now rewrite IH. }
  rewrite E in H. rewrite H; [reflexivity |].
  pose proof (size_length v Hp EmptyString). lia.
Qed.

(** *** Names that differ *)

Lemma fresh_set (k k' : string) (v : json) (acc : list (string * json)) :
  fresh k (set k' v acc) = fresh k acc && negb (String.eqb k k').
Proof.
  induction acc as [|[k0 v0] acc IH]; cbn [set fresh fst].
  - now rewrite andb_true_r.
  - destruct (String.eqb k' k0) eqn:E; cbn [fresh fst].
    + apply String.eqb_eq in E. subst k0.
      destruct (String.eqb k k'); cbn; [reflexivity |]. now rewrite andb_true_r.
    + rewrite IH. now rewrite andb_assoc.
Qed.

Lemma distinct_set (k : string) (v : json) (acc : list (string * json)) :
  distinct acc = true -> distinct (set k v acc) = true.
Proof.
  induction acc as [|[k0 v0] acc IH]; [reflexivity |].
  cbn [distinct set fst]. intros H. apply andb_prop in H as [Hf Hd].
  destruct (String.eqb k k0) eqn:E; cbn [distinct fst].
  - now rewrite Hf, Hd.
  - rewrite fresh_set, Hf, (IH Hd). cbn [andb].
    now rewrite String.eqb_sym, E.
Qed.

Lemma keys_differ_set (k : string) (v : json) (acc : list (string * json)) :
  keys_differ v = true ->
  forallb (fun m : string * json => keys_differ (snd m)) acc = true ->
  forallb (fun m : string * json => keys_differ (snd m)) (set k v acc) = true.
Proof.
  intros Hv. induction acc as [|[k0 v0] acc IH]; cbn [set forallb snd].
  - intros _. now rewrite Hv.
  - intros H. apply andb_prop in H as [H0 H].
    destruct (String.eqb k k0); cbn [forallb snd]; [now rewrite Hv, H |].
    now rewrite H0, IH.
Qed.

(** The names of every object that [parse_value] builds differ. *)
Lemma parse_keys_differ (fuel : nat) :
  (forall s v rest, parse_value fuel s = Parsed v rest -> keys_differ v = true) /\
  (forall acc s v rest,
     keys_differ (JObj acc) = true ->
     parse_members fuel acc s = Parsed v rest -> keys_differ v = true) /\
  (forall acc s v rest,
     keys_differ (JArr acc) = true ->
     parse_items fuel acc s = Parsed v rest -> keys_differ v = true).
Proof.
  induction fuel as [|fuel (IHv & IHm & IHi)];
    [repeat split; intros; discriminate |].
  split; [| split].
  - intros s v rest. rewrite parse_value_eq.
    destruct (skip_ws s) as [|c r]; [discriminate |]. cbv zeta.
    destruct (code c =? 123)%N.
    { destruct (skip_ws r) as [|c' r'] eqn:E; [apply (IHm [] r v rest eq_refl) |].
      destruct c' as [b0 b1 b2 b3 b4 b5 b6 b7].
      destruct b0, b1, b2, b3, b4, b5, b6, b7;
        try apply (IHm [] r v rest eq_refl).
      now intros [= <- _]. }
    destruct (code c =? 91)%N.
    { destruct (skip_ws r) as [|c' r'] eqn:E; [apply (IHi [] r v rest eq_refl) |].
      destruct c' as [b0 b1 b2 b3 b4 b5 b6 b7].
      destruct b0, b1, b2, b3, b4, b5, b6, b7;
        try apply (IHi [] r v rest eq_refl).
      now intros [= <- _]. }
    destruct (code c =? 34)%N.
    { destruct (parse_chars r); cbn [pmap]; try discriminate. now intros [= <- _]. }
    destruct (code c =? 116)%N.
    { unfold parse_keyword. destruct (String.prefix _ _); [| discriminate].
      now intros [= <- _]. }
    destruct (code c =? 102)%N.
    { unfold parse_keyword. destruct (String.prefix _ _); [| discriminate].
      now intros [= <- _]. }
    destruct (code c =? 110)%N.
    { unfold parse_keyword. destruct (String.prefix _ _); [| discriminate].
      now intros [= <- _]. }
    destruct ((code c =? 45)%N || is_digit c); [| discriminate].
    unfold parse_number.
    destruct (take_sign _) as [neg s1]. destruct (take_digits _) as [ds s2].
    destruct (int_part_ok ds); [| discriminate].
    destruct (take_frac s2) as [[fr s3]|]; [| discriminate].
    destruct (take_exp s3) as [[ex s4]|]; [| discriminate].
    destruct fr, ex; now intros [= <- _].
  - intros acc s v rest Hacc. rewrite parse_members_eq.
    destruct (skip_ws s) as [|c r]; [discriminate |].
    destruct (code c =? 34)%N; [| discriminate].
    destruct (parse_chars r) as [k r1| |]; try discriminate.
    destruct (skip_ws r1) as [|c1 r2]; [discriminate |].
    assert (Hstep : forall v1 r3,
      parse_value fuel r2 = Parsed v1 r3 ->
      match skip_ws r3 with
      | String "," rest4 => parse_members fuel (set k v1 acc) rest4
      | String "}" rest4 => Parsed (JObj (set k v1 acc)) rest4
      | _ => SyntaxErr
      end = Parsed v rest -> keys_differ v = true).
    { intros v1 r3 Hv1. apply IHv in Hv1.
      assert (Hset : keys_differ (JObj (set k v1 acc)) = true).
      { cbn [keys_differ] in Hacc |- *. apply andb_prop in Hacc as [Hd Hk].
        now rewrite distinct_set, keys_differ_set. }
      destruct (skip_ws r3) as [|c3 r4]; [discriminate |].
      destruct c3 as [b0 b1 b2 b3 b4 b5 b6 b7].
      destruct b0, b1, b2, b3, b4, b5, b6, b7; try discriminate;
        first [apply IHm, Hset | now intros [= <- _]]. }
    destruct c1 as [b0 b1 b2 b3 b4 b5 b6 b7].
    destruct b0, b1, b2, b3, b4, b5, b6, b7; try discriminate.
    destruct (parse_value fuel r2) as [v1 r3| |] eqn:Hv1; try discriminate.
    now apply Hstep.
  - intros acc s v rest Hacc. rewrite parse_items_eq.
    destruct (parse_value fuel s) as [v1 r1| |] eqn:Hv1; try discriminate.
    apply IHv in Hv1.
    assert (Hadd : keys_differ (JArr (acc ++ [v1])) = true).
    { cbn [keys_differ] in Hacc |- *. rewrite forallb_app, Hacc. cbn.
      now rewrite Hv1. }
    destruct (skip_ws r1) as [|c3 r4]; [discriminate |].
    destruct c3 as [b0 b1 b2 b3 b4 b5 b6 b7].
    destruct b0, b1, b2, b3, b4, b5, b6, b7; try discriminate;
      first [apply IHi, Hadd | now intros [= <- _]].
Qed.

Lemma parse_differ (text : string) (v : json) (rest : string) :
  parse text = Parsed v rest -> keys_differ v = true.
Proof.
  unfold parse.
  destruct (parse_value _ text) as [v' r| |] eqn:E; try discriminate.
  destruct (skip_ws r); [| discriminate]. intros [= <- _].
  exact (proj1 (parse_keys_differ _) _ _ _ E).
Qed.

Lemma exact_printable (v : json) :
  exact v = true -> keys_differ v = true -> printable v = true.
Proof.
  induction v as [| b | z | l | s | items IH | ms IH] using json_induction;
    try reflexivity; try discriminate; cbn [exact keys_differ printable].
  - intros He Hk. apply forallb_forall. intros i Hi.
    rewrite Forall_forall in IH. rewrite forallb_forall in He, Hk.
    apply IH; [now apply list_elem_of_In | now apply He | now apply Hk].
  - intros He Hk. apply andb_prop in Hk as [Hd Hk]. rewrite Hd. cbn [andb].
    apply forallb_forall. intros m Hm.
    rewrite Forall_forall in IH. rewrite forallb_forall in He, Hk.
    apply IH; [now apply list_elem_of_In | | now apply Hk].
    specialize (He m Hm). now apply andb_prop in He as [_ He].
Qed.

(** What [Json.parse] gave and [Json.stringify] writes exactly is read back
    as it was. *)
Lemma parse_stringify_parsed (text : string) (v : json) (rest : string) :
  parse text = Parsed v rest -> exact v = true ->
  parse (stringify v) = Parsed v EmptyString.
Proof.
  intros Hp He. apply parse_stringify, exact_printable; [exact He |].
  exact (parse_differ _ _ _ Hp).
Qed.

(** *** The fuel never runs out *)

Lemma skip_ws_length (s : string) :
  (String.length (skip_ws s) <= String.length s)%nat.
Proof.
  induction s as [|c s IH]; [reflexivity |]. cbn [skip_ws].
  destruct (is_ws c); cbn [String.length]; lia.
Qed.

Lemma parse_chars_length (s k rest : string) :
  parse_chars s = Parsed k rest -> (String.length rest < String.length s)%nat.
Proof.
  remember (String.length s) as n eqn:Hn. revert s k rest Hn.
  induction n as [n IH] using lt_wf_ind. intros s k rest ->.
  destruct s as [|c s]; [discriminate |]. cbn [parse_chars String.length].
  assert (Hcons : forall (c' : ascii) (s' : string),
    (String.length s' < S (String.length s))%nat ->
    cons_char c' (parse_chars s') = Parsed k rest ->
    (String.length rest < S (String.length s))%nat).
  { intros c' s' Hs'. unfold cons_char.
    destruct (parse_chars s') as [k' r'| |] eqn:E; cbn [pmap]; try discriminate.
    intros [= _ <-].
    pose proof (IH (String.length s') Hs' s' k' r' eq_refl E). lia. }
  destruct (code c =? 34)%N; [intros [= _ <-]; lia |].
  destruct (code c =? 92)%N.
  - destruct s as [|e s1]; [discriminate |]. cbn [String.length] in *. cbv zeta.
    repeat match goal with
           | |- context [if ?b then cons_char _ _ else _] =>
               destruct b; [apply Hcons; lia |]
           end.
    destruct (code e =? 117)%N; [| discriminate].
    destruct s1 as [|h1 [|h2 [|h3 [|h4 s2]]]]; try discriminate.
    destruct (hex4 h1 h2 h3 h4) as [u|]; [| discriminate].
    destruct (u <? 256)%N; [| discriminate].
    apply Hcons. cbn [String.length]. lia.
  - destruct (code c <? 32)%N; [discriminate |]. apply Hcons. lia.
Qed.

Lemma take_digits_length (s ds rest : string) :
  take_digits s = (ds, rest) ->
  String.length s = (String.length ds + String.length rest)%nat.
Proof.
  revert ds rest. induction s as [|c s IH]; intros ds rest.
  - now intros [= <- <-].
  - cbn [take_digits]. destruct (is_digit c).
    + destruct (take_digits s) as [ds' rest'] eqn:E. intros [= <- <-].
      cbn [String.length]. now rewrite (IH _ _ eq_refl).
    + now intros [= <- <-].
Qed.

Lemma take_exp_length (s ex rest : string) :
  take_exp s = Some (ex, rest) -> (String.length rest <= String.length s)%nat.
Proof.
  unfold take_exp. destruct s as [|c s]; [intros [= _ <-]; lia |].
  destruct ((code c =? 101)%N || (code c =? 69)%N); [| intros [= _ <-]; lia].
  destruct s as [|c' s'].
  - cbn. discriminate.
  - destruct c' as [b0 b1 b2 b3 b4 b5 b6 b7].
    destruct b0, b1, b2, b3, b4, b5, b6, b7; cbv beta iota;
      (destruct (take_digits _) as [ed r'] eqn:E; apply take_digits_length in E;
       destruct ed; [discriminate |]; intros [= _ <-];
       cbn [String.length] in *; lia).
Qed.

Lemma parse_number_length (s : string) (v : json) (rest : string) :
  parse_number s = Parsed v rest -> (String.length rest < String.length s)%nat.
Proof.
  unfold parse_number.
  destruct (take_sign s) as [neg s1] eqn:Es.
  assert (H1 : (String.length s1 <= String.length s)%nat).
  { unfold take_sign in Es. destruct s as [|c s]; [now injection Es as _ <- |].
    destruct (code c =? 45)%N; injection Es as _ <-; cbn [String.length]; lia. }
  destruct (take_digits s1) as [ds s2] eqn:Ed.
  apply take_digits_length in Ed.
  destruct (int_part_ok ds) eqn:Eok; [| discriminate].
  assert (Hds : (1 <= String.length ds)%nat).
  { destruct ds; [discriminate | cbn [String.length]; lia]. }
  destruct (take_frac s2) as [[fr s3]|] eqn:Ef; [| discriminate].
  assert (H3 : (String.length s3 <= String.length s2)%nat).
  { unfold take_frac in Ef. destruct s2 as [|c s2']; [now injection Ef as _ <- |].
    destruct c as [b0 b1 b2 b3 b4 b5 b6 b7].
    destruct b0, b1, b2, b3, b4, b5, b6, b7;
      try (injection Ef as _ <-; cbn [String.length]; lia).
    destruct (take_digits s2') as [fd r'] eqn:E. apply take_digits_length in E.
    destruct fd; [discriminate |]. injection Ef as _ <-.
    cbn [String.length] in *. lia. }
  destruct (take_exp s3) as [[ex s4]|] eqn:Ee; [| discriminate].
  apply take_exp_length in Ee.
  destruct fr, ex; intros [= _ <-]; lia.
Qed.

Lemma prefix_length (p s : string) :
  String.prefix p s = true -> (String.length p <= String.length s)%nat.
Proof.
  revert s. induction p as [|c p IH]; intros s; [cbn; lia |].
  destruct s as [|c' s]; [discriminate |]. cbn [String.prefix String.length].
  destruct (ascii_dec c c'); [| discriminate]. intros H. apply IH in H. lia.
Qed.

Lemma substring_length (n m : nat) (s : string) :
  (String.length (String.substring n m s) <= m)%nat.
Proof.
  revert n m. induction s as [|c s IH]; intros n m.
  - destruct n, m; cbn; lia.
  - destruct n as [|n]; cbn [String.substring].
    + destruct m as [|m]; cbn [String.length]; [lia |]. specialize (IH 0%nat m). lia.
    + apply IH.
Qed.

Lemma parse_keyword_length (kw : string) (v0 : json) (s : string) (v : json)
    (rest : string) :
  (1 <= String.length kw)%nat ->
  parse_keyword kw v0 s = Parsed v rest ->
  (String.length rest < String.length s)%nat.
Proof.
  intros Hkw. unfold parse_keyword.
  destruct (String.prefix kw s) eqn:E; [| discriminate].
  apply prefix_length in E. intros [= _ <-].
  pose proof (substring_length (String.length kw)
                (String.length s - String.length kw) s). lia.
Qed.

(** What the parser reads is not empty. *)
Lemma parse_consumes (fuel : nat) :
  (forall s v rest, parse_value fuel s = Parsed v rest ->
     (String.length rest < String.length s)%nat) /\
  (forall acc s v rest, parse_members fuel acc s = Parsed v rest ->
     (String.length rest < String.length s)%nat) /\
  (forall acc s v rest, parse_items fuel acc s = Parsed v rest ->
     (String.length rest < String.length s)%nat).
Proof.
  induction fuel as [|fuel (IHv & IHm & IHi)];
    [repeat split; intros; discriminate |].
  split; [| split].
  - intros s v rest. rewrite parse_value_eq.
    pose proof (skip_ws_length s) as Hs.
    destruct (skip_ws s) as [|c r]; [discriminate |]. cbv zeta.
    cbn [String.length] in Hs.
    destruct (code c =? 123)%N.
    { pose proof (skip_ws_length r) as Hr.
      destruct (skip_ws r) as [|c' r'] eqn:E;
        [intros H; apply IHm in H; lia |].
      cbn [String.length] in Hr.
      destruct c' as [b0 b1 b2 b3 b4 b5 b6 b7].
      destruct b0, b1, b2, b3, b4, b5, b6, b7;
        try (intros H; apply IHm in H; lia).
      intros [= _ <-]. lia. }
    destruct (code c =? 91)%N.
    { pose proof (skip_ws_length r) as Hr.
      destruct (skip_ws r) as [|c' r'] eqn:E;
        [intros H; apply IHi in H; lia |].
      cbn [String.length] in Hr.
      destruct c' as [b0 b1 b2 b3 b4 b5 b6 b7].
      destruct b0, b1, b2, b3, b4, b5, b6, b7;
        try (intros H; apply IHi in H; lia).
      intros [= _ <-]. lia. }
    destruct (code c =? 34)%N.
    { destruct (parse_chars r) as [k r'| |] eqn:E; cbn [pmap]; try discriminate.
      apply parse_chars_length in E. intros [= _ <-]. lia. }
    destruct (code c =? 116)%N.
    { intros H. apply parse_keyword_length in H; cbn [String.length] in *; lia. }
    destruct (code c =? 102)%N.
    { intros H. apply parse_keyword_length in H; cbn [String.length] in *; lia. }
    destruct (code c =? 110)%N.
    { intros H. apply parse_keyword_length in H; cbn [String.length] in *; lia. }
    destruct ((code c =? 45)%N || is_digit c); [| discriminate].
    intros H. apply parse_number_length in H. cbn [String.length] in H. lia.
  - intros acc s v rest. rewrite parse_members_eq.
    pose proof (skip_ws_length s) as Hs.
    destruct (skip_ws s) as [|c r]; [discriminate |]. cbn [String.length] in Hs.
    destruct (code c =? 34)%N; [| discriminate].
    destruct (parse_chars r) as [k r1| |] eqn:Ek; try discriminate.
    apply parse_chars_length in Ek.
    pose proof (skip_ws_length r1) as Hr1.
    destruct (skip_ws r1) as [|c1 r2]; [discriminate |].
    cbn [String.length] in Hr1.
    destruct c1 as [b0 b1 b2 b3 b4 b5 b6 b7].
    destruct b0, b1, b2, b3, b4, b5, b6, b7; try discriminate.
    destruct (parse_value fuel r2) as [v1 r3| |] eqn:Hv1; try discriminate.
    apply IHv in Hv1.
    pose proof (skip_ws_length r3) as Hr3.
    destruct (skip_ws r3) as [|c3 r4]; [discriminate |].
    cbn [String.length] in Hr3.
    destruct c3 as [b0 b1 b2 b3 b4 b5 b6 b7].
    destruct b0, b1, b2, b3, b4, b5, b6, b7; try discriminate;
      first [intros H; apply IHm in H; lia | intros [= _ <-]; lia].
  - intros acc s v rest. rewrite parse_items_eq.
    destruct (parse_value fuel s) as [v1 r1| |] eqn:Hv1; try discriminate.
    apply IHv in Hv1.
    pose proof (skip_ws_length r1) as Hr1.
    destruct (skip_ws r1) as [|c3 r4]; [discriminate |].
    cbn [String.length] in Hr1.
    destruct c3 as [b0 b1 b2 b3 b4 b5 b6 b7].
    destruct b0, b1, b2, b3, b4, b5, b6, b7; try discriminate;
      first [intros H; apply IHi in H; lia | intros [= _ <-]; lia].
Qed.

(** With the fuel that [parse] gives, one more unit changes nothing. *)
Lemma parse_fuel_step (fuel : nat) :
  (forall s, (2 * String.length s < fuel)%nat ->
     parse_value fuel s = parse_value (S fuel) s) /\
  (forall acc s, (2 * String.length s < fuel)%nat ->
     parse_members fuel acc s = parse_members (S fuel) acc s) /\
  (forall acc s, (2 * String.length s + 1 < fuel)%nat ->
     parse_items fuel acc s = parse_items (S fuel) acc s).
Proof.
  induction fuel as [|fuel (IHv & IHm & IHi)]; [repeat split; intros; lia |].
  split; [| split].
  - intros s Hf. rewrite !parse_value_eq.
    pose proof (skip_ws_length s) as Hs.
    destruct (skip_ws s) as [|c r]; [reflexivity |]. cbn [String.length] in Hs.
    cbv zeta.
    rewrite (IHm [] r) by lia. rewrite (IHi [] r) by lia. reflexivity.
  - intros acc s Hf. rewrite !parse_members_eq.
    pose proof (skip_ws_length s) as Hs.
    destruct (skip_ws s) as [|c r]; [reflexivity |]. cbn [String.length] in Hs.
    destruct (code c =? 34)%N; [| reflexivity].
    destruct (parse_chars r) as [k r1| |] eqn:Ek; try reflexivity.
    apply parse_chars_length in Ek.
    pose proof (skip_ws_length r1) as Hr1.
    destruct (skip_ws r1) as [|c1 r2]; [reflexivity |].
    cbn [String.length] in Hr1.
    destruct c1 as [b0 b1 b2 b3 b4 b5 b6 b7].
    destruct b0, b1, b2, b3, b4, b5, b6, b7; try reflexivity.
    rewrite <- (IHv r2) by lia.
    destruct (parse_value fuel r2) as [v1 r3| |] eqn:Hv1; try reflexivity.
    apply (proj1 (parse_consumes fuel)) in Hv1.
    pose proof (skip_ws_length r3) as Hr3.
    destruct (skip_ws r3) as [|c3 r4]; [reflexivity |].
    cbn [String.length] in Hr3.
    destruct c3 as [b0 b1 b2 b3 b4 b5 b6 b7].
    destruct b0, b1, b2, b3, b4, b5, b6, b7; try reflexivity.
    apply IHm. lia.
  - intros acc s Hf. rewrite !parse_items_eq.
    rewrite <- (IHv s) by lia.
    destruct (parse_value fuel s) as [v1 r1| |] eqn:Hv1; try reflexivity.
    apply (proj1 (parse_consumes fuel)) in Hv1.
    pose proof (skip_ws_length r1) as Hr1.
    destruct (skip_ws r1) as [|c3 r4]; [reflexivity |].
    cbn [String.length] in Hr1.
    destruct c3 as [b0 b1 b2 b3 b4 b5 b6 b7].
    destruct b0, b1, b2, b3, b4, b5, b6, b7; try reflexivity.
    apply IHi. lia.
Qed.

(** The fuel that [parse] gives is enough: more fuel gives the same answer,
    so [parse] never answers [OutOfModel] for want of fuel. *)
Lemma parse_fuel_enough (text : string) (fuel : nat) :
  (2 * String.length text < fuel)%nat ->
  parse_value fuel text = parse_value (S (2 * String.length text)) text.
Proof.
  intros H. induction fuel as [|fuel IH]; [lia |].
  destruct (Nat.eq_dec fuel (2 * String.length text)%nat) as [-> | Hne];
    [reflexivity |].
  rewrite <- (proj1 (parse_fuel_step fuel)) by lia. apply IH. lia.
Qed.

(** *** Credential records *)

Lemma printable_to_json (t : StoredTokenData) : printable (to_json t) = true.
Proof. destruct t as [a r [z| |] [i|] [s|] [x|]]; reflexivity. Qed.

Lemma parse_stringify_tokens (t : StoredTokenData) :
  parse (stringify (to_json t)) = Parsed (to_json t) EmptyString.
Proof. apply parse_stringify, printable_to_json. Qed.

Lemma is_safe_true (z : Z) : safe z -> is_safe z = true.
Proof. unfold safe, is_safe. intros H. now apply Z.leb_le. Qed.

(** A record whose number is a safe integer is the record of its JSON
    value. *)
Lemma as_StoredTokenData_to_json (t : StoredTokenData) (z : Z) :
  expiresAt t = Finite z -> safe z -> as_StoredTokenData (to_json t) = Some t.
Proof.
  intros Hz Hs. apply is_safe_true in Hs.
  destruct t as [a r e [i|] [s|] [x|]]; cbn in *; subst e;
    cbn; rewrite Hs; reflexivity.
Qed.


End JsonFacts.

(** ** Running the calls *)

(** Unfolds the primitives of a call and simplifies the world. *)
Ltac run :=
  unfold mbind, M_bind, mret, M_ret, throw, unmodelled, try_catch, getenv,
    Date_now, console_error, existsSync, readFileSync, writeFileSync, fetch,
    this_tokenFilePath, this_currentTokens, assign_currentTokens;
  cbn [emit set_fs set_ticks set_net set_currentTokens
       proc tokenManager fs ticks net trace tokenFilePath currentTokens
       fst snd].

Lemma getTokens_no_env (w : World) :
  env_pair w = None ->
  getTokens w =
    match getTokens_stored w with
    | (Ret (Some result), w') => (Ret result, w')
    | (Ret None, w') => getTokens_legacy w'
    | (Throw e, w') => (Throw e, w')
    | (Unmodelled, w') => (Unmodelled, w')
    end.
Proof.
  unfold env_pair, getTokens. run. intros H.
  destruct (truthy_string (env (proc w) !! "MS_TODO_ACCESS_TOKEN")) as [a|];
    [destruct (truthy_string (env (proc w) !! "MS_TODO_REFRESH_TOKEN")) as [r|];
       [discriminate|] |];
    destruct (getTokens_stored w) as [[[res|]|e|] w']; reflexivity.
Qed.

Lemma getTokens_with_env (w : World) (a r : string) :
  env_pair w = Some (a, r) -> getTokens w = getTokens_env a r w.
Proof.
  unfold env_pair, getTokens. run. intros H.
  destruct (truthy_string (env (proc w) !! "MS_TODO_ACCESS_TOKEN")) as [a'|];
    [|discriminate].
  destruct (truthy_string (env (proc w) !! "MS_TODO_REFRESH_TOKEN")) as [r'|];
    [|discriminate].
  now injection H as -> ->.
Qed.

Lemma load_stored_record (w : World) (path : string) (t : StoredTokenData) :
  stored_record w path = Some t ->
  load path w = (Ret (Some t), emit (ReadFileSync path) w).
Proof.
  unfold stored_record, load. run. intros H.
  destruct (fs w !! path) as [[data| |e]|]; try discriminate.
  unfold JSON_parse_as.
  destruct (Json.parse data) as [v rest| |]; try discriminate.
  unfold as_StoredTokenData_or_null.
  destruct v; try discriminate; rewrite H; reflexivity.
Qed.

Lemma stored_record_exists (w : World) (path : string) (t : StoredTokenData) :
  stored_record w path = Some t ->
  bool_decide (is_Some (fs w !! path)) = true.
Proof.
  intros Hrec. apply bool_decide_eq_true. unfold stored_record in Hrec.
  destruct (fs w !! path); [eauto | discriminate].
Qed.

Lemma file_exists (w : World) (path : string) (c : FileContent) :
  fs w !! path = Some c -> bool_decide (is_Some (fs w !! path)) = true.
Proof. intros H. apply bool_decide_eq_true. rewrite H. eauto. Qed.

Lemma getTokens_stored_fresh (w : World) (t : StoredTokenData) :
  stored_record w (tokenFilePath (tokenManager w)) = Some t ->
  greater (clock (proc w) (ticks w)) (expiresAt t) = false ->
  getTokens_stored w = (Ret (Some (Some t)), loaded t w).
Proof.
  intros Hrec Hfresh. unfold getTokens_stored. run.
  rewrite (stored_record_exists _ _ _ Hrec). unfold getTokens_stored_try. run.
  rewrite (load_stored_record _ _ t) by exact Hrec. run.
  rewrite Hfresh. reflexivity.
Qed.

Lemma getTokens_stored_expired (w : World) (t : StoredTokenData) :
  stored_record w (tokenFilePath (tokenManager w)) = Some t ->
  expired (clock (proc w) (ticks w)) t ->
  getTokens_stored w =
    match refreshToken (TokenData.refreshToken t) (loaded t w) with
    | (Ret (Some n), w') => (Ret (Some (Some n)), w')
    | (Ret None, w') => (Ret (Some (currentTokens (tokenManager w'))), w')
    | (Throw e, w') =>
        (Ret None, emit (Console (LogError "Error reading token file:" e)) w')
    | (Unmodelled, w') => (Unmodelled, w')
    end.
Proof.
  intros Hrec Hexp. unfold getTokens_stored. run.
  rewrite (stored_record_exists _ _ _ Hrec). unfold getTokens_stored_try. run.
  rewrite (load_stored_record _ _ t) by exact Hrec. run.
  unfold expired in Hexp. rewrite Hexp.
  fold (loaded t w).
  destruct (refreshToken (TokenData.refreshToken t) (loaded t w)) as [[[n|]|e|] w'];
    reflexivity.
Qed.

Lemma getTokens_stored_absent (w : World) :
  fs w !! tokenFilePath (tokenManager w) = None ->
  getTokens_stored w =
    (Ret None, emit (ExistsSync (tokenFilePath (tokenManager w)) false) w).
Proof.
  intros H. unfold getTokens_stored. run. rewrite H.
  rewrite bool_decide_eq_false_2; [reflexivity |].
  intros [x Hx]. discriminate.
Qed.

(** Step 3 with a legacy file that holds a JSON value: the value is written
    to the token file as it is; when that fails, the error is caught and the
    answer is [null]. *)
Lemma getTokens_legacy_found (w : World) (tokens : json)
    (record : option StoredTokenData) :
  cwd_error (proc w) = None ->
  parsed_file w (legacyPath (proc w)) = Some tokens ->
  as_StoredTokenData_or_null tokens = Some record ->
  getTokens_legacy w =
    match write_error (proc w) (tokenFilePath (tokenManager w)) with
    | None => (Ret record, migrated tokens record (looked (legacyPath (proc w)) w))
    | Some e =>
        (Ret None,
         emit (Console (LogError "Error reading legacy token file:" e))
           (set_currentTokens record (looked (legacyPath (proc w)) w)))
    end.
Proof.
  intros Hcwd Hfile Hrec. unfold getTokens_legacy, join_cwd_tokens. run.
  rewrite Hcwd. run. unfold parsed_file in Hfile.
  destruct (fs w !! legacyPath (proc w)) as [[data| |e]|] eqn:Hfs; try discriminate.
  rewrite bool_decide_eq_true_2 by eauto.
  unfold getTokens_legacy_try, saveTokens_parsed, JSON_parse, JSON_parse_as, typed.
  run. rewrite Hfs.
  destruct (Json.parse data) as [v rest| |]; try discriminate.
  injection Hfile as ->. run. rewrite Hrec. run.
  destruct (write_error (proc w) (tokenFilePath (tokenManager w))); reflexivity.
Qed.

Lemma getTokens_env_fresh (a r : string) (w : World) :
  clock (proc w) (S (ticks w)) <= clock (proc w) (ticks w) + 3600 * 1000 ->
  getTokens_env a r w =
    (Ret (Some (env_tokens a r (clock (proc w) (ticks w)))), env_checked w).
Proof.
  intros H. unfold getTokens_env. run. cbn [expiresAt].
  unfold greater. cbn [ToNumber].
  destruct (Z.gtb_spec (clock (proc w) (S (ticks w)))
              (clock (proc w) (ticks w) + 3600 * 1000)); [lia | reflexivity].
Qed.

Lemma getTokens_env_expired (a r : string) (w : World) :
  clock (proc w) (ticks w) + 3600 * 1000 < clock (proc w) (S (ticks w)) ->
  getTokens_env a r w =
    match refreshToken r (env_checked w) with
    | (Ret (Some n), w') => (Ret (Some n), w')
    | (Ret None, w') =>
        (Ret (Some (env_tokens a r (clock (proc w) (ticks w)))), w')
    | (Throw e, w') => (Throw e, w')
    | (Unmodelled, w') => (Unmodelled, w')
    end.
Proof.
  intros H. unfold getTokens_env. run. cbn [expiresAt TokenData.refreshToken].
  unfold greater. cbn [ToNumber].
  destruct (Z.gtb_spec (clock (proc w) (S (ticks w)))
              (clock (proc w) (ticks w) + 3600 * 1000)); [| lia].
  change (set_ticks (S (S (ticks w))) (set_ticks (S (ticks w)) w))
    with (env_checked w).
  destruct (refreshToken r (env_checked w)) as [[[n|]|e|] w']; reflexivity.
Qed.

(** The text that [saveTokens] writes is read back as the record, when the
    number of the record is a safe integer. *)
Lemma stored_record_text (t : StoredTokenData) (z : Z) (w : World) (path : string) :
  expiresAt t = Finite z ->
  safe z ->
  fs w !! path = Some (Text (Json.stringify (to_json t))) ->
  stored_record w path = Some t.
Proof.
  intros Hz Hs Hfile. unfold stored_record.
  rewrite Hfile, JsonFacts.parse_stringify_tokens.
  exact (JsonFacts.as_StoredTokenData_to_json t z Hz Hs).
Qed.

Lemma stored_record_saved (t : StoredTokenData) (z : Z) (w : World) :
  expiresAt t = Finite z ->
  safe z ->
  stored_record (saved t w) (tokenFilePath (tokenManager w)) = Some t.
Proof.
  intros Hz Hs. apply (stored_record_text t z); [exact Hz | exact Hs |].
  unfold saved. cbn [fs emit set_fs tokenManager tokenFilePath set_currentTokens].
  apply lookup_insert_eq.
Qed.

Lemma saveTokens_saved (t : StoredTokenData) (w : World) :
  writable w -> saveTokens t w = (Ret tt, saved t w).
Proof. unfold writable, saveTokens. run. now intros ->. Qed.

Lemma saveTokens_failed (t : StoredTokenData) (w : World) (e : JsError) :
  write_error (proc w) (tokenFilePath (tokenManager w)) = Some e ->
  saveTokens t w = (Throw e, set_currentTokens (Some t) w).
Proof. unfold saveTokens. run. now intros ->. Qed.


(** ** [updateClaudeConfig] and [refreshToken] *)

Lemma updateClaudeConfig_returns (tokens : StoredTokenData) (w : World) :
  fst (updateClaudeConfig tokens w) = Ret tt.
Proof.
  unfold updateClaudeConfig.
  destruct (updateClaudeConfig_try tokens w) as [[[]|e|] w']; reflexivity.
Qed.

Lemma refreshToken_eq (rt : string) (w : World) :
  refreshToken rt w = refreshToken_cases rt w.
Proof.
  unfold refreshToken_cases, refresh_credentials, refresh_tenant, refresh_caught,
    refreshToken, refreshToken_try, promptForReauth, saveTokens, saved,
    Response_json, JSON_parse, JSON_parse_as, read_RefreshResponse.
  run.
  destruct (truthy_string (js_or _ _)) as [cid|]; [|reflexivity].
  destruct (truthy_string (js_or _ _)) as [sec|]; [|reflexivity].
  run.
  destruct (net w) as [|[|r] rest]; run; [reflexivity | reflexivity |].
  destruct (ok r); cbn [negb]; [|reflexivity].
  destruct (Json.parse (text r)) as [v rest'| |]; run; [| reflexivity | reflexivity].
  destruct v; run; try reflexivity;
    (destruct (as_RefreshResponse _) as [d|]; run; [| reflexivity]).
  all: destruct (write_error (proc w) (tokenFilePath (tokenManager w))) as [e|];
    run; [reflexivity |].
  all: unfold refreshed_tokens; cbn [fst snd].
  all: match goal with |- context [updateClaudeConfig ?t ?w0] =>
      pose proof (updateClaudeConfig_returns t w0) as Hr;
      destruct (updateClaudeConfig t w0) as [res w3]; cbn [fst] in Hr; subst res
    end; reflexivity.
Qed.

(** ** Relating the world before and after a call *)

Section Keeps.
Variable R : World -> World -> Prop.
Hypothesis R_refl : forall w, R w w.
Hypothesis R_trans : forall a b c, R a b -> R b c -> R a c.

Lemma keeps_pure {A} (m : M A) (w : World) : snd (m w) = w -> keeps R m w.
Proof. unfold keeps. intros ->. apply R_refl. Qed.

Lemma keeps_ret {A} (a : A) (w : World) : keeps R (mret a) w.
Proof. now apply keeps_pure. Qed.

Lemma keeps_throw {A} (e : JsError) (w : World) : keeps R (@throw A e) w.
Proof. now apply keeps_pure. Qed.

Lemma keeps_unmodelled {A} (w : World) : keeps R (@unmodelled A) w.
Proof. now apply keeps_pure. Qed.

Lemma keeps_bind {A B} (m : M A) (f : A -> M B) (w : World) :
  keeps R m w ->
  (forall a w1, fst (m w) = Ret a -> R w w1 -> keeps R (f a) w1) ->
  keeps R (m ≫= f) w.
Proof.
  unfold keeps, mbind, M_bind. intros Hm Hf.
  destruct (m w) as [[a| e |] w1]; cbn [fst snd] in *; try assumption.
  eapply R_trans; [exact Hm | now apply Hf].
Qed.

Lemma keeps_try_catch {A} (m : M A) (h : JsError -> M A) (w : World) :
  keeps R m w ->
  (forall e w1, fst (m w) = Throw e -> R w w1 -> keeps R (h e) w1) ->
  keeps R (try_catch m h) w.
Proof.
  unfold keeps, try_catch. intros Hm Hh.
  destruct (m w) as [[a| e |] w1]; cbn [fst snd] in *; try assumption.
  eapply R_trans; [exact Hm | now apply Hh].
Qed.

Lemma keeps_getenv (name : string) (w : World) : keeps R (getenv name) w.
Proof. now apply keeps_pure. Qed.

Lemma keeps_this_tokenFilePath (w : World) : keeps R this_tokenFilePath w.
Proof. now apply keeps_pure. Qed.

Lemma keeps_this_currentTokens (w : World) : keeps R this_currentTokens w.
Proof. now apply keeps_pure. Qed.

Lemma keeps_JSON_parse_as {A} (f : json -> option A) (text : string) (w : World) :
  keeps R (JSON_parse_as f text) w.
Proof.
  apply keeps_pure. unfold JSON_parse_as.
  destruct (Json.parse text) as [v rest| |]; [destruct (f v)| |]; reflexivity.
Qed.

Lemma keeps_js_truthy (o : option json) (w : World) : keeps R (js_truthy o) w.
Proof.
  apply keeps_pure. unfold js_truthy.
  destruct o as [v|]; [destruct (Json.truthy v)|]; reflexivity.
Qed.

Lemma keeps_js_member (v : json) (k : string) (w : World) :
  keeps R (js_member v k) w.
Proof. apply keeps_pure. destruct v; reflexivity. Qed.

Lemma keeps_spread (o : option json) (w : World) : keeps R (spread o) w.
Proof.
  apply keeps_pure. unfold spread. destruct o as [[]|]; try reflexivity.
  - destruct (String.eqb s EmptyString); reflexivity.
  - destruct items; reflexivity.
Qed.

Lemma keeps_Date_now (w : World) :
  R w (set_ticks (S (ticks w)) w) -> keeps R Date_now w.
Proof. exact id. Qed.

Lemma keeps_assign_currentTokens (t : option StoredTokenData) (w : World) :
  R w (set_currentTokens t w) -> keeps R (assign_currentTokens t) w.
Proof. exact id. Qed.

Lemma keeps_console_error (msg : ConsoleMsg) (w : World) :
  R w (emit (Console msg) w) -> keeps R (console_error msg) w.
Proof. exact id. Qed.

Lemma keeps_existsSync (path : string) (w : World) :
  (forall b, R w (emit (ExistsSync path b) w)) -> keeps R (existsSync path) w.
Proof. intros H. apply H. Qed.

Lemma keeps_readFileSync (path : string) (w : World) :
  R w (emit (ReadFileSync path) w) -> keeps R (readFileSync path) w.
Proof.
  intros H. unfold keeps, readFileSync.
  now destruct (fs w !! path) as [[s| |e]|].
Qed.

Lemma keeps_writeFileSync (path : string) (c : FileContent) (w : World) :
  R w (emit (WriteFileSync path c) (set_fs (<[path := c]> (fs w)) w)) ->
  keeps R (writeFileSync path c) w.
Proof.
  intros H. unfold keeps, writeFileSync.
  destruct (write_error (proc w) path); [apply R_refl | exact H].
Qed.

End Keeps.

(** *** The events that a call adds *)

Section Adds.
Variable P : Process -> string -> Event -> Prop.

Lemma adds_refl (w : World) : adds P w w.
Proof.
  repeat split. exists []. split; [now rewrite app_nil_r | constructor].
Qed.

Lemma adds_trans (a b c : World) : adds P a b -> adds P b c -> adds P a c.
Proof.
  intros (Hp & Ht & evs & He & Hf) (Hp' & Ht' & evs' & He' & Hf').
  repeat split; [congruence | congruence |].
  exists (evs ++ evs')%list. split.
  - rewrite He', He. now rewrite app_assoc.
  - rewrite Hp, Ht in Hf'. apply Forall_app. now split.
Qed.

Lemma adds_emit (e : Event) (w w' : World) :
  proc w' = proc w ->
  tokenFilePath (tokenManager w') = tokenFilePath (tokenManager w) ->
  trace w' = trace w ->
  P (proc w) (tokenFilePath (tokenManager w)) e -> adds P w (emit e w').
Proof.
  intros H1 H2 H3 H. repeat split; try assumption.
  exists [e]. split; [cbn; now rewrite H3 | now constructor].
Qed.

Lemma adds_silent (w w' : World) :
  proc w' = proc w ->
  tokenFilePath (tokenManager w') = tokenFilePath (tokenManager w) ->
  trace w' = trace w ->
  adds P w w'.
Proof.
  intros H1 H2 H3. repeat split; try assumption.
  exists []. split; [now rewrite app_nil_r | constructor].
Qed.

Lemma adds_then_emit (e : Event) (w0 w : World) :
  adds P w0 w -> P (proc w0) (tokenFilePath (tokenManager w0)) e ->
  adds P w0 (emit e w).
Proof.
  intros (Hp & Ht & evs & He & Hf) H. repeat split; try assumption.
  exists (evs ++ [e])%list. split.
  - cbn. rewrite He. now rewrite app_assoc.
  - apply Forall_app. split; [assumption | now constructor].
Qed.

Lemma adds_then_silent (w0 w w' : World) :
  adds P w0 w ->
  proc w' = proc w ->
  tokenFilePath (tokenManager w') = tokenFilePath (tokenManager w) ->
  trace w' = trace w ->
  adds P w0 w'.
Proof.
  intros H H1 H2 H3. eapply adds_trans; [exact H | now apply adds_silent].
Qed.

End Adds.

Lemma adds_mono (P Q : Process -> string -> Event -> Prop) (w w' : World) :
  (forall p path e, P p path e -> Q p path e) -> adds P w w' -> adds Q w w'.
Proof.
  intros HPQ (Hp & Ht & evs & He & Hf). repeat split; try assumption.
  exists evs. split; [assumption |].
  eapply Forall_impl; [exact Hf | intros e; apply HPQ].
Qed.

(** Peels the events and the silent updates off the world on the right. *)
Ltac adds_peel :=
  repeat match goal with
    | |- adds _ ?w ?w => apply adds_refl
    | |- adds _ _ (emit _ _) =>
        apply adds_then_emit; [| cbn; auto; try reflexivity]
    | |- adds _ _ (set_net _ ?w1) =>
        apply (adds_then_silent _ _ w1); [| reflexivity ..]
    | |- adds _ _ (set_ticks _ ?w1) =>
        apply (adds_then_silent _ _ w1); [| reflexivity ..]
    | |- adds _ _ (set_fs _ ?w1) =>
        apply (adds_then_silent _ _ w1); [| reflexivity ..]
    | |- adds _ _ (set_currentTokens _ ?w1) =>
        apply (adds_then_silent _ _ w1); [| reflexivity ..]
    end.

(** *** What [updateClaudeConfig] changes *)

Lemma claude_step_refl (w : World) : claude_step w w.
Proof. split; [apply adds_refl | auto]. Qed.

Lemma claude_step_trans (a b c : World) :
  claude_step a b -> claude_step b c -> claude_step a c.
Proof.
  intros (Ha & Hc & Ht & Hn & Hf) (Ha' & Hc' & Ht' & Hn' & Hf').
  split; [eapply adds_trans; eassumption |].
  repeat split; try congruence.
  intros path Hne. rewrite Hf', Hf; [reflexivity | assumption |].
  destruct Ha as (-> & _). assumption.
Qed.

Lemma claude_step_emit (e : Event) (w : World) :
  claude_event (proc w) (tokenFilePath (tokenManager w)) e ->
  claude_step w (emit e w).
Proof. intros H. split; [now apply adds_emit | auto]. Qed.

Lemma claude_step_write (c : FileContent) (w : World) :
  claude_step w
    (emit (WriteFileSync (claudeConfigPath (proc w)) c)
       (set_fs (<[claudeConfigPath (proc w) := c]> (fs w)) w)).
Proof.
  split; [now apply adds_emit |]. repeat split.
  intros path Hne. cbn. now rewrite lookup_insert_ne.
Qed.

Lemma claude_step_proc (w w' : World) : claude_step w w' -> proc w' = proc w.
Proof. now intros ((H & _) & _). Qed.

Ltac cbind x :=
  apply (keeps_bind claude_step claude_step_trans); [| intros x ?w ? ?HR].

Ltac procs :=
  repeat match goal with
         | H : claude_step _ _ |- _ => apply claude_step_proc in H
         end.

Lemma updateClaudeConfig_try_step (tokens : StoredTokenData) (w : World) :
  keeps claude_step (updateClaudeConfig_try tokens) w.
Proof.
  unfold updateClaudeConfig_try.
  cbind path; [apply claude_step_refl |].
  match goal with H : fst _ = Ret path |- _ => cbn [fst] in H; injection H as <- end.
  cbind found.
  { apply keeps_existsSync. intros b. apply claude_step_emit. procs. cbn. congruence. }
  destruct found; cbn [negb]; [| apply keeps_ret, claude_step_refl].
  cbind data.
  { apply keeps_readFileSync, claude_step_emit. procs. cbn. congruence. }
  cbind config; [apply keeps_JSON_parse_as, claude_step_refl |].
  cbind servers; [apply keeps_js_member, claude_step_refl |].
  cbind has_servers; [apply keeps_js_truthy, claude_step_refl |].
  destruct has_servers; cbn [negb]; [| apply keeps_ret, claude_step_refl].
  cbind entry; [apply keeps_js_member, claude_step_refl |].
  cbind has_entry; [apply keeps_js_truthy, claude_step_refl |].
  destruct has_entry; cbn [negb]; [| apply keeps_ret, claude_step_refl].
  cbind config'.
  - destruct config, servers as [[]|], entry as [[]|];
      try (apply keeps_throw, claude_step_refl);
      try (apply keeps_ret, claude_step_refl);
      (cbind old; [apply keeps_spread, claude_step_refl
                  | apply keeps_ret, claude_step_refl]).
  - cbind u.
    + apply keeps_writeFileSync; [apply claude_step_refl |]. procs.
      match goal with
      | |- claude_step ?w0 _ =>
          replace (claudeConfigPath (proc w)) with (claudeConfigPath (proc w0))
            by congruence
      end.
      apply claude_step_write.
    + apply keeps_console_error, claude_step_emit. exact I.
Qed.

Lemma updateClaudeConfig_step (tokens : StoredTokenData) (w : World) :
  claude_step w (snd (updateClaudeConfig tokens w)).
Proof.
  pose proof (updateClaudeConfig_try_step tokens w) as H.
  unfold keeps, updateClaudeConfig in *.
  destruct (updateClaudeConfig_try tokens w) as [[u|e|] w']; cbn [snd] in *.
  - exact H.
  - eapply claude_step_trans; [exact H | apply claude_step_emit; exact I].
  - eapply claude_step_trans; [exact H |].
    split; [apply adds_emit; cbn; reflexivity |]. repeat split.
    intros path Hne. cbn. now rewrite lookup_insert_ne.
Qed.

(** *** What [refreshToken] does *)

Lemma claude_event_refresh (p : Process) (path : string) (e : Event) :
  claude_event p path e -> refresh_event p path e.
Proof. destruct e; cbn; auto. contradiction. Qed.

(** [refreshToken] records its entry, then adds events of [refresh_event]. *)
Lemma refreshToken_adds (rt : string) (w : World) :
  adds refresh_event (emit (RefreshTokenCalled rt) w) (snd (refreshToken rt w)).
Proof.
  rewrite refreshToken_eq. unfold refreshToken_cases, refresh_caught.
  destruct (refresh_credentials w) as [creds|]; cbn [snd]; [| adds_peel].
  destruct (net w) as [|[|r] rest]; cbn [snd]; [adds_peel | adds_peel |].
  destruct (ok r); cbn [snd]; [| adds_peel].
  assert (Hs : forall d,
    adds refresh_event (emit (RefreshTokenCalled rt) w)
      (snd (updateClaudeConfig
         (refreshed_tokens rt creds (refresh_tenant w) d (clock (proc w) (ticks w)))
         (saved (refreshed_tokens rt creds (refresh_tenant w) d (clock (proc w) (ticks w)))
            (set_ticks (S (ticks w))
               (emit (Fetch (refresh_request (fst creds) (snd creds) (refresh_tenant w) rt)
                    (Responds r)) (set_net rest (emit (RefreshTokenCalled rt) w)))))))).
  { intros d.
    match goal with
    | |- adds _ _ (snd (updateClaudeConfig ?t ?w0)) => apply adds_trans with w0
    end.
    - unfold saved. adds_peel.
    - eapply adds_mono; [apply claude_event_refresh |].
      apply updateClaudeConfig_step. }
  destruct (Json.parse (text r)) as [v rest'| |]; cbn [snd]; [| adds_peel | adds_peel].
  destruct v; try (cbn [snd]; adds_peel);
    (destruct (as_RefreshResponse _) as [d|]; cbn [snd]; [| adds_peel]);
    (destruct (write_error _ _); cbn [snd]; [adds_peel | apply Hs]).
Qed.

(** [refreshToken] never throws.  When it answers a record, the token
    endpoint granted it, the token file could be written, and the record is
    cached.  When it answers [null], the files are as before; the cached
    record and the clock are as before as well, unless the token endpoint
    granted a record that could not be written: that record is then cached. *)
Lemma refreshToken_outcome (rt : string) (w : World) :
  match fst (refreshToken rt w) with
  | Ret None =>
      fs (snd (refreshToken rt w)) = fs w /\
      match granted rt w with
      | None =>
          currentTokens (tokenManager (snd (refreshToken rt w)))
            = currentTokens (tokenManager w) /\
          ticks (snd (refreshToken rt w)) = ticks w
      | Some t =>
          currentTokens (tokenManager (snd (refreshToken rt w))) = Some t /\
          ticks (snd (refreshToken rt w)) = S (ticks w) /\
          ~ writable w
      end
  | Ret (Some t) =>
      currentTokens (tokenManager (snd (refreshToken rt w))) = Some t /\
      granted rt w = Some t /\ writable w
  | Throw _ => False
  | Unmodelled => True
  end.
Proof.
  rewrite refreshToken_eq. unfold refreshToken_cases, granted, token_response, writable.
  destruct (refresh_credentials w) as [creds|]; cbn [fst snd]; [| now repeat split].
  destruct (net w) as [|[|r] rest]; cbn [fst snd]; try now repeat split.
  destruct (ok r); cbn [fst snd]; [| now repeat split].
  destruct (Json.parse (text r)) as [v rest'| |]; cbn [fst snd]; try now repeat split.
  destruct v; cbn [fst snd]; try now repeat split.
  all: destruct (as_RefreshResponse _) as [d|]; cbn [fst snd]; [| exact I].
  all: destruct (write_error (proc w) (tokenFilePath (tokenManager w))) as [e|];
    cbn [fst snd]; [now repeat split |].
  all: match goal with
       | |- context [updateClaudeConfig ?t ?w0] =>
           destruct (updateClaudeConfig_step t w0) as (_ & Hc & _)
       end; rewrite Hc; now repeat split.
Qed.

(** A refresh that the token endpoint does not grant leaves the store as it
    was. *)
Lemma refreshToken_not_granted (rt : string) (w : World) :
  fst (refreshToken rt w) = Ret None -> granted rt w = None ->
  same_store w (snd (refreshToken rt w)).
Proof.
  intros Hnull Hg. pose proof (refreshToken_outcome rt w) as Ho.
  rewrite Hnull, Hg in Ho. destruct Ho as (Hfs & Hcur & Hticks). now repeat split.
Qed.

Lemma granted_intro (rt : string) (w : World) (creds : string * string)
    (r : Response) (rest : list NetReply) (d : RefreshResponse) :
  refresh_credentials w = Some creds ->
  net w = Responds r :: rest ->
  ok r = true ->
  token_response r = Some d ->
  granted rt w
  = Some (refreshed_tokens rt creds (refresh_tenant w) d (clock (proc w) (ticks w))).
Proof. intros Hc Hn Hok Hd. unfold granted. now rewrite Hc, Hn, Hok, Hd. Qed.

(** What a granted refresh gives: the record when the token file can be
    written, [null] when it cannot; the record is cached in either case. *)
Lemma refreshToken_granted (rt : string) (w : World) (t : StoredTokenData) :
  granted rt w = Some t ->
  fst (refreshToken rt w)
    = match write_error (proc w) (tokenFilePath (tokenManager w)) with
      | None => Ret (Some t)
      | Some _ => Ret None
      end /\
  currentTokens (tokenManager (snd (refreshToken rt w))) = Some t.
Proof.
  intros Hg. pose proof (refreshToken_outcome rt w) as Ho.
  rewrite refreshToken_eq in *. unfold refreshToken_cases, granted, token_response in *.
  destruct (refresh_credentials w) as [creds|]; [| discriminate].
  destruct (net w) as [|[|r] rest]; try discriminate.
  destruct (ok r); [| discriminate].
  destruct (Json.parse (text r)) as [v rest'| |]; try discriminate.
  destruct v; try discriminate.
  all: destruct (as_RefreshResponse _) as [d|]; [| discriminate].
  all: injection Hg as <-.
  all: destruct (write_error (proc w) (tokenFilePath (tokenManager w))) as [e|];
    cbn [fst snd] in *; [now split | split; [reflexivity | exact (proj1 Ho)]].
Qed.

Lemma refreshToken_success (rt : string) (w : World) (creds : string * string)
    (r : Response) (rest : list NetReply) (d : RefreshResponse) :
  refresh_credentials w = Some creds ->
  net w = Responds r :: rest ->
  ok r = true ->
  token_response r = Some d ->
  writable w ->
  let t := refreshed_tokens rt creds (refresh_tenant w) d (clock (proc w) (ticks w)) in
  fst (refreshToken rt w) = Ret (Some t) /\
  currentTokens (tokenManager (snd (refreshToken rt w))) = Some t.
Proof.
  intros Hc Hn Hok Hd Hw t.
  destruct (refreshToken_granted rt w t (granted_intro rt w creds r rest d Hc Hn Hok Hd))
    as [H1 H2].
  unfold writable in Hw. rewrite Hw in H1. now split.
Qed.

Lemma refresh_calls_app (a b : list Event) :
  refresh_calls (a ++ b) = (refresh_calls a + refresh_calls b)%nat.
Proof. unfold refresh_calls. now rewrite List.filter_app, List.length_app. Qed.

Lemma refresh_calls_none (p : Process) (path : string) (evs : list Event) :
  Forall (refresh_event p path) evs -> refresh_calls evs = 0%nat.
Proof.
  induction 1 as [|e evs He _ IH]; [reflexivity |].
  change (e :: evs) with ([e] ++ evs)%list. rewrite refresh_calls_app, IH.
  destruct e; try reflexivity. contradiction.
Qed.

(** A call of [refreshToken] enters it once. *)
Lemma refreshToken_calls (rt : string) (w : World) :
  refresh_calls (trace (snd (refreshToken rt w))) = S (refresh_calls (trace w)).
Proof.
  destruct (refreshToken_adds rt w) as (_ & _ & evs & He & Hf).
  rewrite He. cbn [trace emit]. rewrite !refresh_calls_app.
  rewrite (refresh_calls_none _ _ _ Hf).
  change (refresh_calls [RefreshTokenCalled rt]) with 1%nat. lia.
Qed.

Lemma prefix_app (p rest : string) : String.prefix p (p ++ rest) = true.
Proof.
  induction p as [|c p IH]; simpl.
  - now destruct rest.
  - destruct (ascii_dec c c); [exact IH | congruence].
Qed.

Lemma includes_app (a p b : string) : includes (a ++ p ++ b) p = true.
Proof.
  induction a as [|c a IH].
  - change (EmptyString ++ p ++ b) with (p ++ b).
    destruct (p ++ b) eqn:E; cbn [includes]; rewrite <- E, prefix_app; reflexivity.
  - change (String c a ++ p ++ b) with (String c (a ++ p ++ b)).
    cbn [includes]. rewrite IH. apply orb_true_r.
Qed.

(** The prompt names the path of the token file. *)
Lemma reauth_banner_names_path (path : string) :
  includes (reauth_banner path) path = true.
Proof. unfold reauth_banner. apply includes_app. Qed.


(** ** Events of [getTokens] and of [getAccessToken] *)

Section TokenEvents.
Variable P : Process -> string -> Event -> Prop.
Hypothesis P_refresh : forall p path e, refresh_event p path e -> P p path e.
Hypothesis P_entry : forall p path rt, P p path (RefreshTokenCalled rt).

Lemma refreshToken_keeps (rt : string) (w : World) :
  keeps (adds P) (refreshToken rt) w.
Proof.
  unfold keeps. apply adds_trans with (emit (RefreshTokenCalled rt) w).
  - adds_peel.
  - eapply adds_mono; [exact P_refresh |]. apply refreshToken_adds.
Qed.

Lemma getTokens_env_keeps (a r : string) (w : World) :
  keeps (adds P) (getTokens_env a r) w.
Proof.
  unfold keeps.
  destruct (Z.lt_ge_cases (clock (proc w) (ticks w) + 3600 * 1000)
              (clock (proc w) (S (ticks w)))) as [Hexp | Hfresh].
  - rewrite (getTokens_env_expired a r w Hexp).
    pose proof (refreshToken_keeps r (env_checked w)) as Hk. unfold keeps in Hk.
    apply adds_trans with (env_checked w); [unfold env_checked; adds_peel |].
    destruct (refreshToken r (env_checked w)) as [[[n|]|e|] w']; exact Hk.
  - rewrite (getTokens_env_fresh a r w) by lia. cbn [snd].
    unfold env_checked. adds_peel.
Qed.

Hypothesis P_console : forall p path m, P p path (Console m).
Hypothesis P_exists : forall p path f b, P p path (ExistsSync f b).
Hypothesis P_read : forall p path f, P p path (ReadFileSync f).
Hypothesis P_write : forall p path f c, P p path (WriteFileSync f c).

Ltac abind x :=
  apply (keeps_bind (adds P) (adds_trans P)); [| intros x ?w ? ?HR].

Ltac aprim :=
  first
    [ apply keeps_ret, adds_refl
    | apply keeps_this_tokenFilePath, adds_refl
    | apply keeps_this_currentTokens, adds_refl
    | apply keeps_getenv, adds_refl
    | apply keeps_JSON_parse_as, adds_refl
    | apply keeps_Date_now; adds_peel
    | apply keeps_assign_currentTokens; adds_peel
    | apply keeps_console_error; adds_peel
    | apply keeps_existsSync; intros; adds_peel
    | apply keeps_readFileSync; adds_peel
    | apply keeps_writeFileSync; [apply adds_refl | adds_peel]
    | apply refreshToken_keeps ].

Lemma saveTokens_keeps (t : StoredTokenData) (w : World) :
  keeps (adds P) (saveTokens t) w.
Proof. unfold saveTokens. abind u; [aprim |]. abind path; aprim. Qed.

Lemma getTokens_stored_keeps (w : World) : keeps (adds P) getTokens_stored w.
Proof.
  unfold getTokens_stored. abind path; [aprim |]. abind found; [aprim |].
  destruct found; [| aprim].
  apply (keeps_try_catch (adds P) (adds_trans P)).
  - unfold getTokens_stored_try, load.
    abind parsed; [abind data; aprim |].
    abind u; [aprim |]. abind cur; [aprim |].
    destruct cur as [tokens|]; [| aprim].
    abind now; [aprim |].
    destruct (greater _ _).
    + abind refreshed; [aprim |]. destruct refreshed; [aprim |].
      abind cur'; aprim.
    + abind cur'; aprim.
  - intros e ?w _ _. abind u; aprim.
Qed.

Lemma getTokens_legacy_keeps (w : World) : keeps (adds P) getTokens_legacy w.
Proof.
  unfold getTokens_legacy.
  abind path; [unfold keeps, join_cwd_tokens;
               destruct (cwd_error (proc w)); apply adds_refl |]. abind found; [aprim |].
  destruct found; [| aprim].
  apply (keeps_try_catch (adds P) (adds_trans P)).
  - unfold getTokens_legacy_try, JSON_parse, saveTokens_parsed.
    abind data; [aprim |]. abind tokens; [aprim |].
    abind record.
    { apply keeps_pure; [apply adds_refl |]. unfold typed.
      destruct (as_StoredTokenData_or_null tokens); reflexivity. }
    abind u; [| aprim]. abind u'; [aprim |]. abind path'; aprim.
  - intros e ?w _ _. abind u; aprim.
Qed.

Lemma getTokens_keeps (w : World) : keeps (adds P) getTokens w.
Proof.
  unfold getTokens. abind access; [aprim |]. abind refresh; [aprim |].
  destruct (truthy_string access) as [a|];
    [destruct (truthy_string refresh) as [r|]; [apply getTokens_env_keeps |] |].
  all: abind stored; [apply getTokens_stored_keeps |];
    destruct stored; [aprim | apply getTokens_legacy_keeps].
Qed.

Lemma getAccessToken_keeps (w : World) : keeps (adds P) getAccessToken w.
Proof.
  unfold getAccessToken.
  apply (keeps_try_catch (adds P) (adds_trans P)).
  - unfold getAccessToken_try. abind u; [aprim |].
    abind tokens; [apply getTokens_keeps |].
    destruct tokens; (abind u'; aprim).
  - intros e ?w _ _. abind u; aprim.
Qed.

End TokenEvents.

Lemma refresh_event_reads_config_only (p : Process) (path : string) (e : Event) :
  refresh_event p path e -> reads_config_only p path e.
Proof. destruct e; cbn; intros H f Hf; try contradiction; congruence. Qed.

(** ** HTTP calls of the request client *)

Lemma graph_calls_app (a b : list Event) :
  graph_calls (a ++ b) = (graph_calls a + graph_calls b)%nat.
Proof. unfold graph_calls. now rewrite List.filter_app, List.length_app. Qed.

Lemma graph_calls_none (p : Process) (path : string) (evs : list Event) :
  Forall (not_graph_call p path) evs -> graph_calls evs = 0%nat.
Proof.
  induction 1 as [|e evs He _ IH]; [reflexivity |].
  change (e :: evs) with ([e] ++ evs)%list. rewrite graph_calls_app, IH.
  unfold graph_calls. cbn [List.filter]. unfold not_graph_call in He.
  now rewrite He.
Qed.

Lemma adds_no_graph_call (w w' : World) :
  adds not_graph_call w w' -> graph_calls (trace w') = graph_calls (trace w).
Proof.
  intros (_ & _ & evs & -> & Hf). rewrite graph_calls_app.
  rewrite (graph_calls_none _ _ _ Hf). lia.
Qed.

Lemma refresh_event_not_graph_call (p : Process) (path : string) (e : Event) :
  refresh_event p path e -> not_graph_call p path e.
Proof.
  destruct e; cbn; intros H; try reflexivity.
  unfold not_graph_call, is_graph_call, is_graph_request. now rewrite H.
Qed.

(** Asking the Token Manager calls the token endpoint only. *)
Lemma getAccessToken_no_graph_call (w : World) :
  graph_calls (trace (snd (getAccessToken w))) = graph_calls (trace w).
Proof.
  apply adds_no_graph_call.
  apply (getAccessToken_keeps not_graph_call); try reflexivity.
  apply refresh_event_not_graph_call.
Qed.

Lemma getAccessToken_never_throws (w : World) (e : JsError) :
  fst (getAccessToken w) <> Throw e.
Proof.
  unfold getAccessToken, try_catch.
  destruct (getAccessToken_try w) as [[o|e'|] w']; cbn; discriminate.
Qed.

Lemma request_body_pure (method : string) (body : option json) (w : World) :
  snd (request_body method body w) = w.
Proof.
  unfold request_body, js_truthy. run.
  destruct body as [v|]; [destruct (Json.truthy v) as [b|]|]; cbn;
    try reflexivity.
  all: destruct (_ && _); reflexivity.
Qed.

Lemma makeGraphRequest_send_eq (url token method : string) (body : option json)
    (b : Body) (w : World) :
  fst (request_body method body w) = Ret b ->
  makeGraphRequest_send url token method body w
    = graph_fetch url token method b (announced url method w).
Proof.
  intros Hb. pose proof (request_body_pure method body w) as Hp.
  unfold makeGraphRequest_send. unfold mbind at 1. unfold M_bind at 1.
  destruct (request_body method body w) as [res w0]. cbn [fst snd] in *.
  subst res w0. reflexivity.
Qed.

(** [graph_fetch] after a first answer of status 401. *)
Lemma graph_fetch_refused (url token method : string) (b : Body) (w : World)
    (r1 : Response) (rest : list NetReply) :
  net (announced url method w) = Responds r1 :: rest ->
  status r1 = 401 ->
  graph_fetch url token method b (announced url method w) =
    match getAccessToken (refused url token method b r1 rest w) with
    | (Ret o, w2) =>
        match truthy_string o with
        | Some newToken =>
            if String.eqb newToken token then (Ret r1, w2)
            else fetch (graph_request url newToken method b) w2
        | None => (Ret r1, w2)
        end
    | (Throw e, w2) => (Throw e, w2)
    | (Unmodelled, w2) => (Unmodelled, w2)
    end.
Proof.
  intros Hnet Hst. unfold graph_fetch.
  unfold mbind at 1. unfold M_bind at 1. unfold fetch at 1. rewrite Hnet.
  rewrite Hst. cbn [Z.eqb Pos.eqb].
  unfold mbind, M_bind, console_error.
  fold (refused url token method b r1 rest w).
  destruct (getAccessToken (refused url token method b r1 rest w)) as [[o|e|] w2];
    try reflexivity.
  destruct (truthy_string o) as [nt|]; [| reflexivity].
  destruct (String.eqb nt token); reflexivity.
Qed.

Lemma fetch_graph_call (url token method : string) (b : Body) (w : World) :
  graph_calls (trace (snd (fetch (graph_request url token method b) w)))
  = S (graph_calls (trace w)).
Proof.
  unfold fetch. destruct (net w) as [|[|r] rest]; cbn [snd trace emit set_net];
    rewrite graph_calls_app; cbn; lia.
Qed.

Lemma graph_result_no_graph_call (method : string) (r : Response) (w : World) :
  graph_calls (trace (snd (graph_result method r w))) = graph_calls (trace w).
Proof.
  apply adds_no_graph_call.
  unfold graph_result, Response_json, JSON_parse, JSON_parse_as.
  destruct (ok r); cbn [negb].
  - destruct (String.eqb method "DELETE"); run; [adds_peel |].
    destruct (Json.parse (text r)) as [v rest| |]; cbn [snd]; adds_peel.
  - run. destruct (includes (text r) "MailboxNotEnabledForRESTAPI");
      cbn [snd]; adds_peel.
Qed.

Lemma graph_fetch_calls (url token method : string) (b : Body) (w : World) :
  (graph_calls (trace (snd (graph_fetch url token method b w)))
   <= graph_calls (trace w) + 2)%nat.
Proof.
  unfold graph_fetch.
  unfold mbind at 1. unfold M_bind at 1.
  pose proof (fetch_graph_call url token method b w) as H1.
  destruct (fetch (graph_request url token method b) w) as [[r1|e|] w1];
    cbn [snd] in *; try lia.
  destruct (status r1 =? 401); [| unfold mret, M_ret; cbn [snd]; lia].
  unfold mbind, M_bind, console_error.
  pose proof (getAccessToken_no_graph_call
                (emit (Console (Log "Got 401, attempting token refresh...")) w1))
    as H2.
  cbn [trace emit] in H2. rewrite graph_calls_app in H2. cbn in H2.
  destruct (getAccessToken _) as [[o|e|] w2]; cbn [snd] in *; try lia.
  destruct (truthy_string o) as [nt|]; [| unfold mret, M_ret; cbn [snd]; lia].
  destruct (negb (String.eqb nt token)); [| unfold mret, M_ret; cbn [snd]; lia].
  rewrite fetch_graph_call. lia.
Qed.

(** [makeGraphRequest] never makes a third call. *)
Lemma makeGraphRequest_calls (url token method : string) (body : option json)
    (w : World) :
  (graph_calls (trace (snd (makeGraphRequest url token method body w)))
   <= graph_calls (trace w) + 2)%nat.
Proof.
  unfold makeGraphRequest, try_catch, makeGraphRequest_try.
  unfold mbind at 1. unfold M_bind at 1.
  assert (Hs : (graph_calls
                  (trace (snd (makeGraphRequest_send url token method body w)))
                <= graph_calls (trace w) + 2)%nat).
  { pose proof (request_body_pure method body w) as Hp.
    unfold makeGraphRequest_send. unfold mbind at 1. unfold M_bind at 1.
    destruct (request_body method body w) as [[b|e|] w0]; cbn [snd] in *;
      subst w0; try lia.
    change (graph_calls
              (trace (snd (graph_fetch url token method b (announced url method w))))
            <= graph_calls (trace w) + 2)%nat.
    pose proof (graph_fetch_calls url token method b (announced url method w))
      as Hf.
    assert (Ha : graph_calls (trace (announced url method w))
                 = graph_calls (trace w)).
    { unfold announced. cbn [trace emit]. rewrite !graph_calls_app. cbn. lia. }
    lia. }
  destruct (makeGraphRequest_send url token method body w) as [[r|e|] w1];
    cbn [snd] in *.
  - pose proof (graph_result_no_graph_call method r w1) as Hr.
    destruct (graph_result method r w1) as [[v|e|] w2]; cbn [snd] in *; try lia.
    unfold mbind, M_bind, console_error, mret, M_ret. cbn [snd trace emit].
    rewrite graph_calls_app. cbn. lia.
  - unfold mbind, M_bind, console_error, mret, M_ret. cbn [snd trace emit].
    rewrite graph_calls_app. cbn. lia.
  - lia.
Qed.

(** ** What becomes of the response *)

Lemma messages_differ (r : Response) :
  account_capability_message <> http_error_message r.
Proof.
  unfold account_capability_message, http_error_message. intros H.
  apply (f_equal (fun s => match s with
                           | String c _ => c
                           | EmptyString => " "%char
                           end)) in H.
  discriminate H.
Qed.

Lemma errors_differ (r : Response) :
  Error account_capability_message <> Error (http_error_message r).
Proof.
  intros H. apply (messages_differ r). revert H.
  generalize account_capability_message (http_error_message r).
  now intros x y [= ->].
Qed.

Lemma graph_result_failed (method : string) (r : Response) (w : World) :
  ok r = false ->
  graph_result method r w =
    if includes (text r) marker
    then (Throw (Error account_capability_message),
          emit (Console (Log mailbox_banner))
            (emit (Console (Log (http_error_message r))) w))
    else (Throw (Error (http_error_message r)),
          emit (Console (Log (http_error_message r))) w).
Proof.
  intros Hok. unfold graph_result. rewrite Hok. cbn [negb]. run.
  fold marker. destruct (includes (text r) marker); reflexivity.
Qed.

Lemma makeGraphRequest_response (url token method : string) (body : option json)
    (w w1 : World) (r : Response) :
  makeGraphRequest_send url token method body w = (Ret r, w1) ->
  makeGraphRequest url token method body w =
    try_catch (graph_result method r)
      (fun error =>
         console_error (LogError "Error making Graph API request:" error);;
         mret JNull) w1.
Proof.
  intros Hs. unfold makeGraphRequest, makeGraphRequest_try.
  unfold try_catch. unfold mbind at 1. unfold M_bind at 1. now rewrite Hs.
Qed.

Lemma makeGraphRequest_failed (url token method : string) (body : option json)
    (w w1 : World) (r : Response) :
  makeGraphRequest_send url token method body w = (Ret r, w1) ->
  ok r = false ->
  makeGraphRequest url token method body w = (Ret JNull, failed r w1).
Proof.
  intros Hs Hok. rewrite (makeGraphRequest_response _ _ _ _ _ _ _ Hs).
  unfold try_catch. rewrite (graph_result_failed method r w1 Hok).
  unfold failed, failure_message, request_caught.
  destruct (includes (text r) marker); reflexivity.
Qed.

Lemma makeGraphRequest_succeeded (url token method : string) (body : option json)
    (w w1 : World) (r : Response) :
  makeGraphRequest_send url token method body w = (Ret r, w1) ->
  ok r = true ->
  (method = "DELETE" ->
   fst (makeGraphRequest url token method body w) = Ret (JObj [])) /\
  (method <> "DELETE" ->
   forall v rest, Json.parse (text r) = Parsed v rest ->
     fst (makeGraphRequest url token method body w) = Ret v).
Proof.
  intros Hs Hok. rewrite (makeGraphRequest_response _ _ _ _ _ _ _ Hs).
  unfold try_catch, graph_result. rewrite Hok. cbn [negb]. split.
  - intros ->. reflexivity.
  - intros Hm v rest Hv. apply String.eqb_neq in Hm. rewrite Hm.
    unfold Response_json, JSON_parse, JSON_parse_as. run. rewrite Hv.
    reflexivity.
Qed.


(** ** An expired record *)

Lemma refresh_calls_checked (w : World) (s : Source) :
  refresh_calls (trace (checked w s)) = refresh_calls (trace w).
Proof.
  destruct s as [a r | t]; [reflexivity |].
  unfold checked, loaded. cbn [trace emit set_ticks set_currentTokens].
  rewrite !refresh_calls_app.
  cbn [refresh_calls List.filter is_refresh_call length]. lia.
Qed.

(** [getTokens] on an expired record of either source: what the one call of
    [refreshToken] gives decides the answer. *)
Lemma getTokens_expired (w : World) (s : Source) :
  resolves w s ->
  expired (check_time w s) (resolved_record w s) ->
  let res := refreshToken (TokenData.refreshToken (resolved_record w s))
               (checked w s) in
  snd (getTokens w) = snd res /\
  match fst res with
  | Ret (Some n) => fst (getTokens w) = Ret (Some n)
  | Ret None => fst (getTokens w) = Ret (Some (unrefreshed w s))
  | Throw _ => False
  | Unmodelled => fst (getTokens w) = Unmodelled
  end.
Proof.
  destruct s as [a r | t]; cbn [resolves resolved_record check_time checked unrefreshed].
  - intros Henv Hexp. unfold expired, greater in Hexp.
    cbn [expiresAt env_tokens ToNumber] in Hexp.
    apply Z.gtb_lt in Hexp.
    cbn [TokenData.refreshToken env_tokens].
    rewrite (getTokens_with_env w a r Henv), (getTokens_env_expired a r w Hexp).
    pose proof (refreshToken_outcome r (env_checked w)) as Ho.
    destruct (refreshToken r (env_checked w)) as [[[n|]|e|] w2];
      cbn [fst snd] in *; try contradiction; auto.
  - intros [Henv Hrec] Hexp.
    rewrite (getTokens_no_env w Henv), (getTokens_stored_expired w t Hrec Hexp).
    pose proof (refreshToken_outcome (TokenData.refreshToken t) (loaded t w)) as Ho.
    destruct (refreshToken (TokenData.refreshToken t) (loaded t w))
      as [[[n|]|e|] w2]; cbn [fst snd] in *; try contradiction; auto.
    split; [reflexivity |]. destruct Ho as (_ & Ho).
    destruct (granted (TokenData.refreshToken t) (loaded t w)) as [t'|];
      cbn [default].
    + destruct Ho as (-> & _). reflexivity.
    + destruct Ho as (-> & _). reflexivity.
Qed.

(** A record at the legacy path only: step 3 alone decides. *)
Lemma getTokens_legacy_only (w : World) (t : StoredTokenData) :
  legacy_only w t ->
  exists tokens,
    parsed_file w (legacyPath (proc w)) = Some tokens /\
    as_StoredTokenData tokens = Some t /\
    getTokens w =
      let w1 := emit (ExistsSync (tokenFilePath (tokenManager w)) false) w in
      match write_error (proc w) (tokenFilePath (tokenManager w)) with
      | None =>
          (Ret (Some t), migrated tokens (Some t) (looked (legacyPath (proc w)) w1))
      | Some e =>
          (Ret None,
           emit (Console (LogError "Error reading legacy token file:" e))
             (set_currentTokens (Some t) (looked (legacyPath (proc w)) w1)))
      end.
Proof.
  intros (Henv & Hcwd & Habsent & Hrec).
  unfold stored_record in Hrec.
  destruct (fs w !! legacyPath (proc w)) as [[data| |e]|] eqn:Hfs; try discriminate.
  destruct (Json.parse data) as [tokens rest| |] eqn:Hparse; try discriminate.
  exists tokens. split; [unfold parsed_file; now rewrite Hfs, Hparse |].
  split; [exact Hrec |].
  rewrite (getTokens_no_env w Henv), (getTokens_stored_absent w Habsent).
  cbv zeta.
  rewrite (getTokens_legacy_found _ tokens (Some t)).
  - reflexivity.
  - exact Hcwd.
  - unfold parsed_file. cbn [fs emit proc]. now rewrite Hfs, Hparse.
  - unfold as_StoredTokenData_or_null.
    destruct tokens; try discriminate. now rewrite Hrec.
Qed.


(** * Properties of the specification *)

(** ** The Token Manager *)

(** C1, as stated, fails.  With the stale record in the canonical store and a
    token endpoint that refuses the refresh, the one refresh fails and
    [getTokens] returns the stale record, not [null]; with the stale record
    at the legacy path only, [getTokens] returns it and no refresh is
    attempted. *)
Lemma getTokens_expired_not_null :
  (let w := Examples.stale_store_refused in
   resolves w (CanonicalStore Examples.stale) /\
   expired (check_time w (CanonicalStore Examples.stale)) Examples.stale /\
   fst (refreshToken "R1" (checked w (CanonicalStore Examples.stale))) = Ret None /\
   fst (getTokens w) = Ret (Some Examples.stale) /\
   fst (getTokens w) <> Ret None) /\
  (let w := Examples.stale_legacy_only in
   stored_record w (legacyPath (proc w)) = Some Examples.stale /\
   expired (clock (proc w) (ticks w)) Examples.stale /\
   fst (getTokens w) = Ret (Some Examples.stale) /\
   refresh_calls (trace (snd (getTokens w))) = 0%nat).
Proof.
  split; cbv zeta.
  - split; [split; vm_compute; reflexivity |].
    split; [vm_compute; reflexivity |].
    split; [vm_compute; reflexivity |].
    split; [vm_compute; reflexivity |].
    vm_compute. discriminate.
  - repeat split; vm_compute; reflexivity.
Qed.

(** C1, amended.  For every record that [getTokens] resolves from the pair of
    the environment or from the canonical store and that has expired when it
    is checked, [getTokens] enters [refreshToken] exactly once before it
    returns.  It returns the refreshed record when the refresh gives one.
    When the refresh gives [null] it does not return [null]: it returns the
    record built from the pair, or, for the canonical store, the cached
    record, which is the expired record itself unless the token endpoint
    granted a new record that could not be written to the token file.  A
    record found at the legacy path only is not checked for expiry and not
    refreshed: [getTokens] returns it, or [null] when it cannot write it to
    the token file. *)
Theorem getTokens_expired_refreshes_once (w : World) :
  (forall s,
     resolves w s ->
     expired (check_time w s) (resolved_record w s) ->
     refresh_calls (trace (snd (getTokens w))) = S (refresh_calls (trace w)) /\
     match fst (refreshToken (TokenData.refreshToken (resolved_record w s))
                  (checked w s)) with
     | Ret (Some n) => fst (getTokens w) = Ret (Some n)
     | Ret None =>
         fst (getTokens w) = Ret (Some (unrefreshed w s)) /\
         (granted (TokenData.refreshToken (resolved_record w s)) (checked w s) = None ->
          unrefreshed w s = resolved_record w s)
     | Throw _ => False
     | Unmodelled => fst (getTokens w) = Unmodelled
     end) /\
  (forall t,
     legacy_only w t ->
     refresh_calls (trace (snd (getTokens w))) = refresh_calls (trace w) /\
     ticks (snd (getTokens w)) = ticks w /\
     fst (getTokens w)
       = match write_error (proc w) (tokenFilePath (tokenManager w)) with
         | None => Ret (Some t)
         | Some _ => Ret None
         end).
Proof.
  split.
  - intros s Hres Hexp. destruct (getTokens_expired w s Hres Hexp) as [Hw Hr].
    split.
    + rewrite Hw, refreshToken_calls. now rewrite refresh_calls_checked.
    + destruct (fst (refreshToken _ _)) as [[n|]|e|]; try exact Hr.
      split; [exact Hr |]. intros Hg.
      destruct s as [a r | t]; [reflexivity |].
      cbn [unrefreshed resolved_record TokenData.refreshToken] in *.
      now rewrite Hg.
  - intros t Hleg. destruct (getTokens_legacy_only w t Hleg) as (tokens & _ & _ & ->).
    cbv zeta. unfold migrated, looked.
    destruct (write_error (proc w) (tokenFilePath (tokenManager w)));
      cbn [fst snd trace ticks emit set_fs set_currentTokens];
      rewrite !refresh_calls_app;
      cbn [refresh_calls List.filter is_refresh_call length];
      (split; [lia | split; reflexivity]).
Qed.

Lemma getTokens_expired_refreshes_once_witness :
  (let w := Examples.stale_store_refused in
   refresh_calls (trace (snd (getTokens w))) = 1%nat /\
   fst (getTokens w) = Ret (Some Examples.stale)) /\
  (let w := Examples.stale_legacy_only in
   refresh_calls (trace (snd (getTokens w))) = 0%nat /\
   fst (getTokens w) = Ret (Some Examples.stale)).
Proof.
  cbv zeta. split.
  - assert (Hres : resolves Examples.stale_store_refused
                     (CanonicalStore Examples.stale)).
    { split; vm_compute; reflexivity. }
    assert (Hexp : expired (check_time Examples.stale_store_refused
                              (CanonicalStore Examples.stale))
                     (resolved_record Examples.stale_store_refused
                        (CanonicalStore Examples.stale))).
    { vm_compute. reflexivity. }
    destruct (getTokens_expired_refreshes_once Examples.stale_store_refused)
      as [Hexpired _].
    destruct (Hexpired (CanonicalStore Examples.stale) Hres Hexp) as [H1 H2].
    split; [exact H1 |]. vm_compute in H2. vm_compute. exact (proj1 H2).
  - assert (Hleg : legacy_only Examples.stale_legacy_only Examples.stale).
    { repeat split; vm_compute; reflexivity. }
    destruct (getTokens_expired_refreshes_once Examples.stale_legacy_only)
      as [_ Hlegacy].
    destruct (Hlegacy Examples.stale Hleg) as (H1 & _ & H3).
    split; [exact H1 | exact H3].
Defined.













(** C4: when the environment holds the pair, whatever the canonical store
    holds, [getTokens] is step 1 alone: it never answers [null] and never
    throws, whether or not the pair can be refreshed; while the hour it
    assumes has not passed it returns the record built from the pair and
    touches no file; and no event of the call looks at the token file (an
    event that looks at that path does so only because the path is that of
    the configuration file of the desktop host). *)
Theorem getTokens_env_pair_first (w : World) (a r : string) :
  env_pair w = Some (a, r) ->
  getTokens w = getTokens_env a r w /\
  (forall e, fst (getTokens w) <> Ret None /\ fst (getTokens w) <> Throw e) /\
  (clock (proc w) (S (ticks w)) <= clock (proc w) (ticks w) + 3600 * 1000 ->
   fst (getTokens w) = Ret (Some (env_tokens a r (clock (proc w) (ticks w)))) /\
   trace (snd (getTokens w)) = trace w) /\
  exists evs,
    (trace (snd (getTokens w)) = trace w ++ evs)%list /\
    forall e, In e evs ->
      reads (tokenFilePath (tokenManager w)) e ->
      tokenFilePath (tokenManager w) = claudeConfigPath (proc w).
Proof.
  intros Henv. rewrite (getTokens_with_env w a r Henv).
  split; [reflexivity |]. split; [| split].
  - intros e.
    destruct (Z.lt_ge_cases (clock (proc w) (ticks w) + 3600 * 1000)
                (clock (proc w) (S (ticks w)))) as [Hexp | Hfresh].
    + rewrite (getTokens_env_expired a r w Hexp).
      pose proof (refreshToken_outcome r (env_checked w)) as Ho.
      destruct (refreshToken r (env_checked w)) as [[[n|]|e'|] w'];
        cbn [fst] in *; try contradiction; split; discriminate.
    + rewrite (getTokens_env_fresh a r w) by lia. split; discriminate.
  - intros Hfresh. rewrite (getTokens_env_fresh a r w Hfresh). now split.
  - destruct (getTokens_env_keeps reads_config_only
                refresh_event_reads_config_only
                (fun _ _ _ _ H => match H with end) a r w)
      as (_ & _ & evs & He & Hf).
    exists evs. split; [exact He |].
    intros e Hin Hr. rewrite Forall_forall in Hf.
    apply (Hf e); [now apply list_elem_of_In | exact Hr].
Qed.

Lemma getTokens_env_pair_first_witness :
  let w := Examples.ambient_and_store in
  stored_record w (tokenFilePath (tokenManager w)) = Some Examples.lasting /\
  fst (getTokens w) = Ret (Some (env_tokens "EA" "ER" 5000)) /\
  trace (snd (getTokens w)) = [].
Proof.
  cbv zeta. split; [vm_compute; reflexivity |].
  assert (Henv : env_pair Examples.ambient_and_store = Some ("EA", "ER"))
    by (vm_compute; reflexivity).
  destruct (getTokens_env_pair_first Examples.ambient_and_store "EA" "ER" Henv)
    as (_ & _ & Hfresh & _).
  apply Hfresh. vm_compute. discriminate.
Defined.

(** ** [refreshToken] *)

(** C3: when the token endpoint answers with success, [access_token] A2 and
    [expires_in] 3600 and no [refresh_token], a refresh started with the
    refresh token R1 builds, and caches, a record with [accessToken] A2,
    [refreshToken] R1 and [expiresAt] 3300000 ms after the reading of the
    clock; that record is the result when the token file can be written
    (when it cannot, the error is caught and the result is [null]). *)
Theorem refreshToken_retains_previous_refresh_token
    (w : World) (creds : string * string) (r : Response) (rest : list NetReply) :
  refresh_credentials w = Some creds ->
  net w = Responds r :: rest ->
  ok r = true ->
  token_response r
    = Some {| access_token := "A2"; refresh_token := None; expires_in := 3600 |} ->
  exists t,
    (writable w -> fst (refreshToken "R1" w) = Ret (Some t)) /\
    (~ writable w -> fst (refreshToken "R1" w) = Ret None) /\
    currentTokens (tokenManager (snd (refreshToken "R1" w))) = Some t /\
    accessToken t = "A2" /\
    TokenData.refreshToken t = "R1" /\
    expiresAt t = clock (proc w) (ticks w) + 3300000.
Proof.
  intros Hc Hn Hok Hd.
  destruct (refreshToken_granted "R1" w _ (granted_intro "R1" w creds r rest _ Hc Hn Hok Hd))
    as [H1 H2].
  eexists. split; [| split; [| split; [exact H2 |]]].
  - unfold writable. intros Hw. now rewrite Hw in H1.
  - unfold writable. intros Hw.
    destruct (write_error (proc w) (tokenFilePath (tokenManager w)));
      [exact H1 | now elim Hw].
  - cbn. repeat split. f_equal. lia.
Qed.

Lemma refreshToken_retains_previous_refresh_token_witness :
  let w := Examples.refreshing Examples.client [Responds Examples.granted] in
  exists t,
    fst (refreshToken "R1" w) = Ret (Some t) /\
    TokenData.refreshToken t = "R1" /\ expiresAt t = 3305000.
Proof.
  cbv zeta.
  destruct (refreshToken_retains_previous_refresh_token
              (Examples.refreshing Examples.client [Responds Examples.granted])
              ("app", "secret") Examples.granted [])
    as (t & H1 & _ & _ & _ & H4 & H5); [vm_compute; reflexivity .. |].
  exists t. split; [apply H1; reflexivity |]. split; [exact H4 | exact H5].
Defined.

(** C8: [refreshToken] never throws.  Without a client id or a client secret,
    in the cached record or in the environment, it writes one line on the
    console and answers [null], with no HTTP call; when the token endpoint
    answers with a status that is not a success, it writes the answer and the
    prompt to authenticate again, which names the path of the token file, and
    answers [null]. *)
Theorem refreshToken_never_throws (rt : string) (w : World) :
  (forall e, fst (refreshToken rt w) <> Throw e)
  /\
  (refresh_credentials w = None ->
   refreshToken rt w =
     (Ret None,
      emit (Console (Log "Missing client credentials for token refresh"))
        (emit (RefreshTokenCalled rt) w)))
  /\
  (forall creds r rest,
     refresh_credentials w = Some creds ->
     net w = Responds r :: rest ->
     ok r = false ->
     let path := tokenFilePath (tokenManager w) in
     let req := refresh_request (fst creds) (snd creds) (refresh_tenant w) rt in
     fst (refreshToken rt w) = Ret None /\
     trace (snd (refreshToken rt w))
       = (trace w ++ [RefreshTokenCalled rt;
                      Fetch req (Responds r);
                      Console (Log ("Token refresh failed: " ++ text r));
                      Console (Log (reauth_banner path))])%list /\
     includes (reauth_banner path) path = true).
Proof.
  split; [| split].
  - intros e He. pose proof (refreshToken_outcome rt w) as Ho.
    now rewrite He in Ho.
  - intros Hc. rewrite refreshToken_eq. unfold refreshToken_cases. now rewrite Hc.
  - intros creds r rest Hc Hn Hok path req.
    rewrite refreshToken_eq. unfold refreshToken_cases. rewrite Hc, Hn, Hok.
    cbn [fst snd trace emit set_net]. repeat split.
    + now rewrite <- !app_assoc.
    + apply reauth_banner_names_path.
Qed.

Lemma refreshToken_never_throws_witness :
  (let w := Examples.refreshing [] [Responds Examples.granted] in
   fst (refreshToken "R1" w) = Ret None /\
   net (snd (refreshToken "R1" w)) = [Responds Examples.granted]) /\
  (let w := Examples.refreshing Examples.client [Responds Examples.rejected] in
   fst (refreshToken "R1" w) = Ret None).
Proof.
  cbv zeta. split.
  - destruct (refreshToken_never_throws "R1"
                (Examples.refreshing [] [Responds Examples.granted]))
      as (_ & Hmissing & _).
    rewrite Hmissing by (vm_compute; reflexivity). split; reflexivity.
  - destruct (refreshToken_never_throws "R1"
                (Examples.refreshing Examples.client [Responds Examples.rejected]))
      as (_ & _ & Hstatus).
    destruct (Hstatus ("app", "secret") Examples.rejected []) as (H1 & _);
      [vm_compute; reflexivity .. | exact H1].
Defined.

(** ** The request client *)

(** C7, as stated, fails.  A response that is not a success and whose body
    contains MailboxNotEnabledForRESTAPI makes [makeGraphRequest] return
    [null], which is what it returns for any other failed response: the
    caller, here the tool [get-task-lists], cannot tell the two apart and
    answers with the same text. *)
Lemma mailbox_failure_returns_null_like_any_failure :
  let mailbox := Examples.lasting_store [Responds Examples.forbidden_mailbox] in
  let generic := Examples.lasting_store [Responds Examples.not_found_generic] in
  ok Examples.forbidden_mailbox = false /\
  includes (text Examples.forbidden_mailbox) "MailboxNotEnabledForRESTAPI" = true /\
  includes (text Examples.not_found_generic) "MailboxNotEnabledForRESTAPI" = false /\
  fst (makeGraphRequest Examples.url "A2" "GET" None mailbox) = Ret JNull /\
  fst (makeGraphRequest Examples.url "A2" "GET" None generic) = Ret JNull /\
  fst (get_task_lists mailbox) = Ret (TextContent "Failed to retrieve task lists") /\
  fst (get_task_lists generic) = Ret (TextContent "Failed to retrieve task lists").
Proof. cbv zeta. repeat split; vm_compute; reflexivity. Qed.

(** C7, amended: when the response that [makeGraphRequest] examines is not a
    success and its body contains MailboxNotEnabledForRESTAPI, the error
    raised inside the function is the one for personal accounts, after the
    explanation was written on the console; it is not the error that carries
    the status and the body.  The [catch] of [makeGraphRequest] writes that
    error on the console and the function returns [null] to its caller, as
    it does for every response that is not a success: the distinction
    reaches the console only. *)
Theorem mailbox_failure_is_account_capability_error
    (url token method : string) (body : option json) (w w1 : World) (r : Response) :
  makeGraphRequest_send url token method body w = (Ret r, w1) ->
  ok r = false ->
  (includes (text r) "MailboxNotEnabledForRESTAPI" = true ->
   let w2 := emit (Console (Log mailbox_banner))
               (emit (Console (Log (http_error_message r))) w1) in
   makeGraphRequest_try url token method body w
     = (Throw (Error account_capability_message), w2) /\
   makeGraphRequest url token method body w
     = (Ret JNull,
        emit (Console (LogError "Error making Graph API request:"
                         (Error account_capability_message))) w2) /\
   Error account_capability_message <> Error (http_error_message r)) /\
  (includes (text r) "MailboxNotEnabledForRESTAPI" = false ->
   makeGraphRequest_try url token method body w
     = (Throw (Error (http_error_message r)),
        emit (Console (Log (http_error_message r))) w1)) /\
  fst (makeGraphRequest url token method body w) = Ret JNull.
Proof.
  intros Hsend Hok.
  assert (Htry : makeGraphRequest_try url token method body w
            = graph_result method r w1).
  { unfold makeGraphRequest_try. unfold mbind, M_bind. now rewrite Hsend. }
  rewrite (graph_result_failed method r w1 Hok) in Htry. unfold marker in Htry.
  split; [| split].
  - intros Hinc w2. subst w2. rewrite Hinc in Htry.
    split; [exact Htry |]. split.
    + unfold makeGraphRequest, try_catch. rewrite Htry. reflexivity.
    + apply errors_differ.
  - intros Hinc. now rewrite Hinc in Htry.
  - now rewrite (makeGraphRequest_failed _ _ _ _ _ _ _ Hsend Hok).
Qed.

Lemma mailbox_failure_is_account_capability_error_witness :
  let w := Examples.lasting_store [Responds Examples.forbidden_mailbox] in
  fst (makeGraphRequest_try Examples.url "A2" "GET" None w)
    = Throw (Error account_capability_message) /\
  fst (makeGraphRequest Examples.url "A2" "GET" None w) = Ret JNull.
Proof.
  cbv zeta.
  destruct (mailbox_failure_is_account_capability_error
              Examples.url "A2" "GET" None
              (Examples.lasting_store [Responds Examples.forbidden_mailbox])
              (snd (makeGraphRequest_send Examples.url "A2" "GET" None
                      (Examples.lasting_store
                         [Responds Examples.forbidden_mailbox])))
              Examples.forbidden_mailbox) as (H1 & _ & H3);
    [vm_compute; reflexivity .. |].
  destruct H1 as (H1 & _); [vm_compute; reflexivity |].
  rewrite H1. split; [reflexivity | exact H3].
Defined.

(** C2, as stated, fails.  A first answer of status 401 whose body contains
    MailboxNotEnabledForRESTAPI, with the Token Manager giving the same token
    again, is not retried and raises the error for personal accounts, not the
    error that carries the status and the body; and a DELETE that is retried
    with a new token and then succeeds returns the empty object, not the body
    of the second answer. *)
Lemma makeGraphRequest_401_not_generic :
  (let w := Examples.lasting_store [Responds Examples.unauthorized_mailbox] in
   let r1 := Examples.unauthorized_mailbox in
   status r1 = 401 /\
   fst (getAccessToken (refused Examples.url "A2" "GET" NoBody r1 [] w))
     = Ret (Some "A2") /\
   graph_calls (trace (snd (makeGraphRequest Examples.url "A2" "GET" None w)))
     = 1%nat /\
   fst (makeGraphRequest_try Examples.url "A2" "GET" None w)
     = Throw (Error account_capability_message) /\
   fst (makeGraphRequest_try Examples.url "A2" "GET" None w)
     <> Throw (Error (http_error_message r1))) /\
  (let w := Examples.lasting_store
              [Responds Examples.unauthorized; Responds Examples.found] in
   status Examples.unauthorized = 401 /\
   fst (getAccessToken
          (refused Examples.url "A1" "DELETE" NoBody Examples.unauthorized
             [Responds Examples.found] w)) = Ret (Some "A2") /\
   graph_calls (trace (snd (makeGraphRequest Examples.url "A1" "DELETE" None w)))
     = 2%nat /\
   ok Examples.found = true /\
   Json.parse (text Examples.found) = Parsed (JObj [("id", JInt 7)]) EmptyString /\
   fst (makeGraphRequest Examples.url "A1" "DELETE" None w) = Ret (JObj []) /\
   fst (makeGraphRequest Examples.url "A1" "DELETE" None w)
     <> Ret (JObj [("id", JInt 7)])).
Proof.
  split; cbv zeta.
  - split; [reflexivity |].
    split; [vm_compute; reflexivity |].
    split; [vm_compute; reflexivity |].
    split; [vm_compute; reflexivity |].
    vm_compute. discriminate.
  - split; [reflexivity |].
    split; [vm_compute; reflexivity |].
    split; [vm_compute; reflexivity |].
    split; [vm_compute; reflexivity |].
    split; [vm_compute; reflexivity |].
    split; [vm_compute; reflexivity |].
    vm_compute. discriminate.
Qed.

(** C2, amended: when the first answer has status 401, [makeGraphRequest]
    asks the Token Manager for a token again.  If that gives a different
    token, the call is made once more with it, which makes two calls; when
    the second answer is a success the result is its parsed body, or the
    empty object for a DELETE, and otherwise [null].  If that gives the same
    token or none, no second call is made and the 401 is reported as any
    failed response is: the error for personal accounts when its body
    contains MailboxNotEnabledForRESTAPI, else the error that carries the
    status and the body; the result is [null].  No request makes a third
    call. *)
Theorem makeGraphRequest_after_401
    (url token method : string) (body : option json) (b : Body) (w : World)
    (r1 : Response) (rest : list NetReply) :
  fst (request_body method body w) = Ret b ->
  net w = Responds r1 :: rest ->
  status r1 = 401 ->
  let w1 := refused url token method b r1 rest w in
  let w2 := snd (getAccessToken w1) in
  (forall newToken,
     fst (getAccessToken w1) = Ret (Some newToken) ->
     newToken <> EmptyString -> newToken <> token ->
     makeGraphRequest_send url token method body w
       = fetch (graph_request url newToken method b) w2 /\
     graph_calls (trace (snd (makeGraphRequest_send url token method body w)))
       = S (S (graph_calls (trace w))) /\
     forall r2 rest2,
       net w2 = Responds r2 :: rest2 ->
       (ok r2 = true ->
        (method = "DELETE" ->
         fst (makeGraphRequest url token method body w) = Ret (JObj [])) /\
        (method <> "DELETE" ->
         forall v rest', Json.parse (text r2) = Parsed v rest' ->
           fst (makeGraphRequest url token method body w) = Ret v)) /\
       (ok r2 = false ->
        fst (makeGraphRequest url token method body w) = Ret JNull))
  /\
  (forall o,
     fst (getAccessToken w1) = Ret o ->
     truthy_string o = None \/ o = Some token ->
     makeGraphRequest_send url token method body w = (Ret r1, w2) /\
     fst (makeGraphRequest_try url token method body w)
       = Throw (Error (failure_message r1)) /\
     makeGraphRequest url token method body w = (Ret JNull, failed r1 w2) /\
     graph_calls (trace (failed r1 w2)) = S (graph_calls (trace w)))
  /\
  (graph_calls (trace (snd (makeGraphRequest url token method body w)))
   <= graph_calls (trace w) + 2)%nat.
Proof.
  intros Hb Hnet Hst w1 w2.
  assert (Hsend : makeGraphRequest_send url token method body w =
    match getAccessToken w1 with
    | (Ret o, w2) =>
        match truthy_string o with
        | Some newToken =>
            if String.eqb newToken token then (Ret r1, w2)
            else fetch (graph_request url newToken method b) w2
        | None => (Ret r1, w2)
        end
    | (Throw e, w2) => (Throw e, w2)
    | (Unmodelled, w2) => (Unmodelled, w2)
    end).
  { rewrite (makeGraphRequest_send_eq _ _ _ _ b w Hb).
    apply graph_fetch_refused; [exact Hnet | exact Hst]. }
  assert (Hcalls1 : graph_calls (trace w1) = S (graph_calls (trace w))).
  { subst w1. unfold refused, announced. cbn [trace emit set_net].
    rewrite !graph_calls_app. cbn. lia. }
  pose proof (getAccessToken_no_graph_call w1) as Hcalls2. fold w2 in Hcalls2.
  assert (H401 : ok r1 = false).
  { unfold ok. rewrite Hst. reflexivity. }
  split; [| split].
  - intros nt Hnt Hne1 Hne2.
    assert (Hs : makeGraphRequest_send url token method body w
                 = fetch (graph_request url nt method b) w2).
    { rewrite Hsend. subst w2. destruct (getAccessToken w1) as [res w2'].
      cbn [fst snd] in *. subst res. cbn [truthy_string].
      apply String.eqb_neq in Hne1, Hne2. rewrite Hne1, Hne2. reflexivity. }
    split; [exact Hs |]. split.
    + rewrite Hs, fetch_graph_call. lia.
    + intros r2 rest2 Hn2.
      assert (Hs' : makeGraphRequest_send url token method body w
                = (Ret r2, emit (Fetch (graph_request url nt method b) (Responds r2))
                             (set_net rest2 w2))).
      { rewrite Hs. unfold fetch. now rewrite Hn2. }
      split.
      * intros Hok. exact (makeGraphRequest_succeeded _ _ _ _ _ _ _ Hs' Hok).
      * intros Hok. now rewrite (makeGraphRequest_failed _ _ _ _ _ _ _ Hs' Hok).
  - intros o Ho Hsame.
    assert (Hs : makeGraphRequest_send url token method body w = (Ret r1, w2)).
    { rewrite Hsend. subst w2. destruct (getAccessToken w1) as [res w2'].
      cbn [fst snd] in *. subst res.
      destruct Hsame as [-> | ->]; [reflexivity |].
      cbn [truthy_string]. destruct (String.eqb token EmptyString); [reflexivity |].
      now rewrite String.eqb_refl. }
    split; [exact Hs |]. split; [| split].
    + unfold makeGraphRequest_try. unfold mbind, M_bind. rewrite Hs.
      rewrite (graph_result_failed method r1 w2 H401). unfold failure_message.
      destruct (includes (text r1) marker); reflexivity.
    + exact (makeGraphRequest_failed _ _ _ _ _ _ _ Hs H401).
    + unfold failed, request_caught.
      destruct (includes (text r1) marker); cbn [trace emit];
        rewrite !graph_calls_app; cbn; lia.
  - apply makeGraphRequest_calls.
Qed.

Lemma makeGraphRequest_after_401_witness :
  let w := Examples.lasting_store
             [Responds Examples.unauthorized; Responds Examples.found] in
  fst (makeGraphRequest Examples.url "A1" "GET" None w)
    = Ret (JObj [("id", JInt 7)]) /\
  graph_calls (trace (snd (makeGraphRequest_send Examples.url "A1" "GET" None w)))
    = 2%nat.
Proof.
  cbv zeta.
  destruct (makeGraphRequest_after_401 Examples.url "A1" "GET" None NoBody
              (Examples.lasting_store
                 [Responds Examples.unauthorized; Responds Examples.found])
              Examples.unauthorized [Responds Examples.found])
    as (Hnew & _ & _); [vm_compute; reflexivity .. |].
  destruct (Hnew "A2") as (_ & Hcalls & Hsecond);
    [vm_compute; reflexivity | discriminate | discriminate |].
  split; [| exact Hcalls].
  destruct (Hsecond Examples.found []) as (Hok & _); [vm_compute; reflexivity |].
  destruct Hok as (_ & Hbody); [reflexivity |].
  apply Hbody with (rest' := EmptyString);
    [discriminate | vm_compute; reflexivity].
Defined.


(** * Further properties of the code *)
(** ** More on [getTokens] *)

Lemma try_catch_never_throws {A} (m : M A) (h : JsError -> M A) (w : World) :
  (forall e w' e', fst (h e w') <> Throw e') ->
  forall e', fst (try_catch m h w) <> Throw e'.
Proof.
  intros Hh e'. unfold try_catch.
  destruct (m w) as [[a|e|] w']; [discriminate | apply Hh | discriminate].
Qed.

Lemma getTokens_env_never_throws (a r : string) (w : World) (e : JsError) :
  fst (getTokens_env a r w) <> Throw e.
Proof.
  destruct (Z.lt_ge_cases (clock (proc w) (ticks w) + 3600 * 1000)
              (clock (proc w) (S (ticks w)))) as [Hexp | Hfresh].
  - rewrite (getTokens_env_expired a r w Hexp).
    pose proof (refreshToken_outcome r (env_checked w)) as Ho.
    destruct (refreshToken r (env_checked w)) as [[[n|]|e'|] w'];
      cbn [fst] in *; try contradiction; discriminate.
  - rewrite (getTokens_env_fresh a r w) by lia. discriminate.
Qed.

Lemma getTokens_stored_never_throws (w : World) (e : JsError) :
  fst (getTokens_stored w) <> Throw e.
Proof.
  unfold getTokens_stored. run.
  destruct (bool_decide _); [| discriminate].
  apply try_catch_never_throws. intros; discriminate.
Qed.

Lemma getTokens_stored_proc (w : World) :
  proc (snd (getTokens_stored w)) = proc w.
Proof.
  assert (H : keeps (adds (fun _ _ _ => True)) getTokens_stored w)
    by (apply getTokens_stored_keeps; easy).
  now destruct H as (Hp & _).
Qed.

(** Step 3 throws what [process.cwd()] throws, and nothing else. *)
Lemma getTokens_legacy_throws (w : World) (e : JsError) :
  fst (getTokens_legacy w) = Throw e -> cwd_error (proc w) = Some e.
Proof.
  unfold getTokens_legacy, join_cwd_tokens. run.
  destruct (cwd_error (proc w)) as [e'|]; [now intros [= ->] |].
  run. destruct (bool_decide _); [| discriminate].
  intros H. exfalso. revert H. apply try_catch_never_throws. intros; discriminate.
Qed.

Lemma getTokens_legacy_adrift (w : World) (e : JsError) :
  cwd_error (proc w) = Some e -> getTokens_legacy w = (Throw e, w).
Proof.
  intros H. unfold getTokens_legacy, join_cwd_tokens. run. now rewrite H.
Qed.

(** X1: [getTokens] throws only what [process.cwd()] throws, which it calls
    outside every [try], in step 3: with a pair in the environment, or a
    working directory, it does not throw; with no pair, no token file and a
    working directory that is gone, it throws the error of [process.cwd()]
    after it looked for the token file. *)
Theorem getTokens_throws_only_from_cwd (w : World) (e : JsError) :
  (fst (getTokens w) = Throw e ->
   env_pair w = None /\ cwd_error (proc w) = Some e) /\
  (env_pair w = None ->
   fs w !! tokenFilePath (tokenManager w) = None ->
   cwd_error (proc w) = Some e ->
   getTokens w
   = (Throw e, emit (ExistsSync (tokenFilePath (tokenManager w)) false) w)).
Proof.
  split.
  - destruct (env_pair w) as [[a r]|] eqn:Henv.
    + rewrite (getTokens_with_env w a r Henv). intros H.
      now apply getTokens_env_never_throws in H.
    + rewrite (getTokens_no_env w Henv).
      pose proof (getTokens_stored_never_throws w) as Hs.
      pose proof (getTokens_stored_proc w) as Hp.
      destruct (getTokens_stored w) as [[[res|]|e'|] w']; cbn [fst snd] in *;
        try discriminate.
      * intros H. apply getTokens_legacy_throws in H. rewrite Hp in H. now split.
      * now elim (Hs e').
  - intros Henv Habsent Hcwd.
    rewrite (getTokens_no_env w Henv), (getTokens_stored_absent w Habsent).
    now apply getTokens_legacy_adrift.
Qed.

Lemma getTokens_throws_only_from_cwd_witness :
  let w := Examples.adrift (Examples.world [] Examples.steady [] []) in
  getTokens w = (Throw Examples.gone, emit (ExistsSync Examples.canonical false) w)
  /\ fst (getTokens (Examples.adrift Examples.ambient_and_store))
     <> Throw Examples.gone.
Proof.
  cbv zeta. split.
  - apply (getTokens_throws_only_from_cwd
             (Examples.adrift (Examples.world [] Examples.steady [] []))
             Examples.gone); reflexivity.
  - intros H.
    apply (getTokens_throws_only_from_cwd
             (Examples.adrift Examples.ambient_and_store) Examples.gone) in H.
    destruct H as [H _]. vm_compute in H. discriminate.
Defined.

(** X2: with no pair in the environment (one variable alone does not count),
    no token file and no legacy file, [getTokens] answers [null]; all it does
    is look for the two files.  (When the working directory is gone, it
    throws the error of [process.cwd()] after it looked for the first.) *)
Theorem getTokens_nothing_found (w : World) :
  env_pair w = None ->
  fs w !! tokenFilePath (tokenManager w) = None ->
  fs w !! legacyPath (proc w) = None ->
  getTokens w =
    match cwd_error (proc w) with
    | None =>
        (Ret None,
         emit (ExistsSync (legacyPath (proc w)) false)
           (emit (ExistsSync (tokenFilePath (tokenManager w)) false) w))
    | Some e =>
        (Throw e, emit (ExistsSync (tokenFilePath (tokenManager w)) false) w)
    end.
Proof.
  intros Henv Hstore Hlegacy.
  rewrite (getTokens_no_env w Henv), (getTokens_stored_absent w Hstore).
  unfold getTokens_legacy, join_cwd_tokens. run.
  destruct (cwd_error (proc w)); [reflexivity |]. run. rewrite Hlegacy.
  rewrite bool_decide_eq_false_2; [reflexivity |].
  intros [x Hx]. discriminate.
Qed.

Lemma getTokens_nothing_found_witness :
  let w := Examples.world [("MS_TODO_ACCESS_TOKEN", "EA")] Examples.steady []
             [Responds Examples.granted] in
  fst (getTokens w) = Ret None /\
  net (snd (getTokens w)) = [Responds Examples.granted].
Proof.
  cbv zeta.
  rewrite (getTokens_nothing_found
             (Examples.world [("MS_TODO_ACCESS_TOKEN", "EA")] Examples.steady []
                [Responds Examples.granted]));
    [split; reflexivity | vm_compute; reflexivity ..].
Defined.

Lemma getTokens_corrupt_store (w : World) (e : JsError) :
  env_pair w = None ->
  load_error w (tokenFilePath (tokenManager w)) = Some e ->
  getTokens w =
    getTokens_legacy
      (emit (Console (LogError "Error reading token file:" e))
         (looked (tokenFilePath (tokenManager w)) w)).
Proof.
  intros Henv Herr. rewrite (getTokens_no_env w Henv).
  unfold getTokens_stored, load_error in *. run.
  destruct (fs w !! tokenFilePath (tokenManager w)) as [[data| |e']|] eqn:Hfile;
    try discriminate;
    rewrite bool_decide_eq_true_2 by eauto;
    unfold getTokens_stored_try, load, JSON_parse_as; run; rewrite Hfile.
  - destruct (Json.parse data); try discriminate.
    injection Herr as <-. run. reflexivity.
  - injection Herr as <-. run. reflexivity.
Qed.

(** X3: a token file that cannot be read, or whose content is not a JSON
    text, is not fatal.  [getTokens] writes the error on the console, leaves
    the cached record as it is, and goes on with the legacy file as if
    there were no token file. *)
Theorem getTokens_corrupt_store_falls_back (w : World) (e : JsError) :
  env_pair w = None ->
  load_error w (tokenFilePath (tokenManager w)) = Some e ->
  let path := tokenFilePath (tokenManager w) in
  getTokens w =
    getTokens_legacy
      (emit (Console (LogError "Error reading token file:" e))
         (emit (ReadFileSync path) (emit (ExistsSync path true) w))).
Proof.
  intros Henv Herr path.
  exact (getTokens_corrupt_store w e Henv Herr).
Qed.

Lemma getTokens_corrupt_store_falls_back_witness :
  let cut := Examples.world [] Examples.steady
               [(Examples.canonical, Text "[")] [] in
  let locked := Examples.world [] Examples.steady
                  [(Examples.canonical, Unreadable Examples.denied)] [] in
  (fst (getTokens cut) = Ret None /\
   trace (snd (getTokens cut))
   = [ExistsSync Examples.canonical true; ReadFileSync Examples.canonical;
      Console (LogError "Error reading token file:" SyntaxError);
      ExistsSync Examples.legacy false]) /\
  fst (getTokens locked) = Ret None.
Proof.
  cbv zeta. split.
  - rewrite (getTokens_corrupt_store_falls_back
               (Examples.world [] Examples.steady
                  [(Examples.canonical, Text "[")] []) SyntaxError);
      [split |..]; vm_compute; reflexivity.
  - rewrite (getTokens_corrupt_store_falls_back
               (Examples.world [] Examples.steady
                  [(Examples.canonical, Unreadable Examples.denied)] [])
               Examples.denied);
      vm_compute; reflexivity.
Defined.

(** X4: a token file that cannot be loaded is repaired from the legacy file:
    with a record at the legacy path, a working directory and a token file
    that can be written, [getTokens] returns that record, and the token file
    holds afterwards what the legacy file holds. *)
Theorem getTokens_repairs_corrupt_store (w : World) (e : JsError)
    (tokens : json) (t : StoredTokenData) :
  env_pair w = None ->
  cwd_error (proc w) = None ->
  load_error w (tokenFilePath (tokenManager w)) = Some e ->
  parsed_file w (legacyPath (proc w)) = Some tokens ->
  Json.exact tokens = true ->
  as_StoredTokenData tokens = Some t ->
  writable w ->
  let path := tokenFilePath (tokenManager w) in
  fst (getTokens w) = Ret (Some t) /\
  fs (snd (getTokens w)) !! path = Some (Text (Json.stringify tokens)) /\
  parsed_file (snd (getTokens w)) path = Some tokens /\
  stored_record (snd (getTokens w)) path = Some t /\
  currentTokens (tokenManager (snd (getTokens w))) = Some t /\
  refresh_calls (trace (snd (getTokens w))) = refresh_calls (trace w).
Proof.
  intros Henv Hcwd Herr Hfile Hexact Hrec Hw path.
  rewrite (getTokens_corrupt_store w e Henv Herr). fold path.
  assert (Hround : Json.parse (Json.stringify tokens) = Parsed tokens EmptyString).
  { unfold parsed_file in Hfile.
    destruct (fs w !! legacyPath (proc w)) as [[data| |e']|]; try discriminate.
    destruct (Json.parse data) as [v rest| |] eqn:Hp; try discriminate.
    injection Hfile as ->.
    exact (JsonFacts.parse_stringify_parsed data tokens rest Hp Hexact). }
  rewrite (getTokens_legacy_found _ tokens (Some t));
    [| exact Hcwd | exact Hfile
     | unfold as_StoredTokenData_or_null; destruct tokens; try discriminate;
       now rewrite Hrec].
  cbn [proc emit looked tokenManager tokenFilePath].
  unfold writable in Hw. rewrite Hw. cbn [fst snd].
  assert (Hfs : fs (migrated tokens (Some t)
                      (looked (legacyPath (proc w))
                         (emit (Console (LogError "Error reading token file:" e))
                            (looked path w))))
                !! path = Some (Text (Json.stringify tokens))).
  { unfold migrated, looked, json_text. rewrite Hexact.
    cbn [fs emit set_fs set_currentTokens tokenManager tokenFilePath].
    apply lookup_insert_eq. }
  split; [reflexivity |]. split; [exact Hfs |].
  split; [unfold parsed_file; now rewrite Hfs, Hround |].
  split; [unfold stored_record; now rewrite Hfs, Hround |].
  split; [reflexivity |].
  unfold migrated, looked. cbn [trace emit set_fs set_currentTokens proc].
  rewrite !refresh_calls_app.
  cbn [refresh_calls List.filter is_refresh_call length]. lia.
Qed.

Lemma getTokens_repairs_corrupt_store_witness :
  let w := Examples.world [] Examples.steady
             [(Examples.canonical, Text "[[[[1]]");
              (Examples.legacy, Examples.file_of Examples.stale)] [] in
  fst (getTokens w) = Ret (Some Examples.stale) /\
  stored_record (snd (getTokens w)) Examples.canonical = Some Examples.stale.
Proof.
  cbv zeta.
  destruct (getTokens_repairs_corrupt_store
              (Examples.world [] Examples.steady
                 [(Examples.canonical, Text "[[[[1]]");
                  (Examples.legacy, Examples.file_of Examples.stale)] [])
              SyntaxError (to_json Examples.stale) Examples.stale)
    as (H1 & _ & _ & H2 & _);
    [vm_compute; reflexivity .. |].
  split; [exact H1 | exact H2].
Defined.

(** X5: a token file that holds the JSON text [null] clears the cached
    record, and [getTokens] goes on with the legacy file. *)
Theorem getTokens_null_store_falls_back (w : World) (data rest : string) :
  env_pair w = None ->
  fs w !! tokenFilePath (tokenManager w) = Some (Text data) ->
  Json.parse data = Parsed JNull rest ->
  let path := tokenFilePath (tokenManager w) in
  getTokens w =
    getTokens_legacy
      (set_currentTokens None
         (emit (ReadFileSync path) (emit (ExistsSync path true) w))).
Proof.
  intros Henv Hfile Hparse path. rewrite (getTokens_no_env w Henv).
  unfold getTokens_stored. run. rewrite (file_exists _ _ _ Hfile).
  unfold getTokens_stored_try, load, JSON_parse_as. run.
  rewrite Hfile, Hparse. cbn [as_StoredTokenData_or_null]. run.
  destruct (getTokens_legacy _) as [[o|e|] w']; reflexivity.
Qed.

Lemma getTokens_null_store_falls_back_witness :
  let w := Examples.world [] Examples.steady
             [(Examples.canonical, Text "null")] [] in
  fst (getTokens w) = Ret None.
Proof.
  cbv zeta.
  rewrite (getTokens_null_store_falls_back
             (Examples.world [] Examples.steady
                [(Examples.canonical, Text "null")] []) "null" EmptyString);
    vm_compute; reflexivity.
Defined.

(** X6: what [saveTokens] saved is what the next [getTokens] returns: with no
    pair in the environment, a token file that can be written and a record
    whose [expiresAt] is a safe integer and has not passed, [getTokens]
    after [saveTokens] returns the record, without a refresh and without an
    HTTP call. *)
Theorem saveTokens_then_getTokens (t : StoredTokenData) (z : Z) (w : World) :
  env_pair w = None ->
  writable w ->
  expiresAt t = Finite z ->
  safe z ->
  clock (proc w) (ticks w) <= z ->
  let w' := snd ((saveTokens t;; getTokens) w) in
  fst ((saveTokens t;; getTokens) w) = Ret (Some t) /\
  refresh_calls (trace w') = refresh_calls (trace w) /\
  fetch_calls (trace w') = fetch_calls (trace w) /\
  net w' = net w.
Proof.
  intros Henv Hw Hz Hsafe Hfresh w'. subst w'.
  assert (E : (saveTokens t;; getTokens) w = getTokens (saved t w)).
  { unfold mbind at 1, M_bind. now rewrite (saveTokens_saved t w Hw). }
  rewrite E.
  assert (Henv' : env_pair (saved t w) = None) by exact Henv.
  rewrite (getTokens_no_env (saved t w) Henv').
  rewrite (getTokens_stored_fresh (saved t w) t);
    [| exact (stored_record_saved t z w Hz Hsafe) |].
  2: { rewrite Hz. unfold greater. cbn [ToNumber].
       change (clock (proc (saved t w)) (ticks (saved t w)))
         with (clock (proc w) (ticks w)).
       rewrite Z.gtb_ltb. apply Z.ltb_ge. lia. }
  cbn [fst snd]. split; [reflexivity |].
  unfold loaded, saved.
  cbn [trace net emit set_ticks set_fs set_currentTokens tokenManager
       tokenFilePath].
  split; [| split; [| reflexivity]].
  - rewrite !refresh_calls_app.
    cbn [refresh_calls List.filter is_refresh_call length]. lia.
  - unfold fetch_calls. rewrite !List.filter_app, !List.length_app.
    cbn [List.filter is_fetch length]. lia.
Qed.

Lemma saveTokens_then_getTokens_witness :
  let w := Examples.world [] Examples.steady [] [] in
  fst ((saveTokens Examples.lasting;; getTokens) w) = Ret (Some Examples.lasting).
Proof.
  cbv zeta.
  destruct (saveTokens_then_getTokens Examples.lasting 9000000
              (Examples.world [] Examples.steady [] [])) as (H1 & _).
  - vm_compute. reflexivity.
  - reflexivity.
  - reflexivity.
  - vm_compute. discriminate.
  - vm_compute. discriminate.
  - exact H1.
Defined.

(** ** More on [refreshToken] *)

Lemma truthy_string_Some (o : option string) (s : string) :
  truthy_string o = Some s -> o = Some s /\ truthy_string (Some s) = Some s.
Proof.
  destruct o as [s'|]; [| discriminate]. cbn.
  destruct (String.eqb s' EmptyString) eqn:E; [discriminate |].
  intros [= ->]. now rewrite E.
Qed.

Lemma refresh_credentials_truthy (w : World) (creds : string * string) :
  refresh_credentials w = Some creds ->
  truthy_string (Some (fst creds)) = Some (fst creds) /\
  truthy_string (Some (snd creds)) = Some (snd creds).
Proof.
  unfold refresh_credentials.
  destruct (truthy_string (js_or _ (env (proc w) !! "CLIENT_ID"))) as [i|] eqn:Ei;
    [| discriminate].
  destruct (truthy_string (js_or _ (env (proc w) !! "CLIENT_SECRET"))) as [s|] eqn:Es;
    [| discriminate].
  intros [= <-]. cbn [fst snd].
  apply truthy_string_Some in Ei, Es. now destruct Ei, Es.
Qed.

Lemma refresh_tenant_truthy (w : World) :
  truthy_string (Some (refresh_tenant w)) = Some (refresh_tenant w).
Proof.
  unfold refresh_tenant.
  destruct (truthy_string (js_or _ _)) as [s|] eqn:E; cbn [default].
  - now apply truthy_string_Some in E.
  - reflexivity.
Qed.

Lemma js_or_truthy (s : string) (b : option string) :
  truthy_string (Some s) = Some s -> js_or (Some s) b = Some s.
Proof. unfold js_or. now intros ->. Qed.

(** The world after a successful refresh. *)
Lemma refreshToken_success_world (rt : string) (w : World)
    (creds : string * string) (r : Response) (rest : list NetReply)
    (d : RefreshResponse) :
  refresh_credentials w = Some creds ->
  net w = Responds r :: rest ->
  ok r = true ->
  token_response r = Some d ->
  writable w ->
  let t := refreshed_tokens rt creds (refresh_tenant w) d (clock (proc w) (ticks w)) in
  let req := refresh_request (fst creds) (snd creds) (refresh_tenant w) rt in
  snd (refreshToken rt w) =
    snd (updateClaudeConfig t
           (saved t (set_ticks (S (ticks w))
              (emit (Fetch req (Responds r))
                 (set_net rest (emit (RefreshTokenCalled rt) w)))))).
Proof.
  intros Hc Hn Hok Hd Hw t req.
  rewrite refreshToken_eq. unfold refreshToken_cases.
  rewrite Hc, Hn, Hok. unfold token_response in Hd. unfold writable in Hw.
  destruct (Json.parse (text r)) as [v rest'| |]; try discriminate.
  destruct v; try discriminate; rewrite Hd, Hw; reflexivity.
Qed.

Lemma refreshed_tokens_expiresAt (rt : string) (creds : string * string)
    (tenant : string) (d : RefreshResponse) (now s : Z) :
  expires_in d = Finite s ->
  expiresAt (refreshed_tokens rt creds tenant d now)
  = Finite (now + s * 1000 - 5 * 60 * 1000).
Proof. intros H. cbn [refreshed_tokens expiresAt]. now rewrite H. Qed.

(** X7: a successful refresh is persisted and used.  When the token file can
    be written and is not the configuration file of the desktop host, and
    the lifetime that the token endpoint reports is an integer that keeps
    the computation of [expiresAt] within the safe integers, the token file
    holds the new record after [refreshToken]; and with no pair in the
    environment, the next [getTokens] returns that record while it lasts,
    without another refresh and without an HTTP call. *)
Theorem refreshToken_then_getTokens (rt : string) (w : World)
    (creds : string * string) (r : Response) (rest : list NetReply)
    (d : RefreshResponse) (s : Z) :
  refresh_credentials w = Some creds ->
  net w = Responds r :: rest ->
  ok r = true ->
  token_response r = Some d ->
  expires_in d = Finite s ->
  safe_lifetime (clock (proc w) (ticks w)) s ->
  writable w ->
  tokenFilePath (tokenManager w) <> claudeConfigPath (proc w) ->
  env_pair w = None ->
  let t := refreshed_tokens rt creds (refresh_tenant w) d (clock (proc w) (ticks w)) in
  clock (proc w) (S (ticks w))
    <= clock (proc w) (ticks w) + s * 1000 - 5 * 60 * 1000 ->
  let w' := snd (refreshToken rt w) in
  expiresAt t = Finite (clock (proc w) (ticks w) + s * 1000 - 5 * 60 * 1000) /\
  stored_record w' (tokenFilePath (tokenManager w)) = Some t /\
  fst (getTokens w') = Ret (Some t) /\
  refresh_calls (trace (snd (getTokens w'))) = refresh_calls (trace w') /\
  fetch_calls (trace (snd (getTokens w'))) = fetch_calls (trace w') /\
  net (snd (getTokens w')) = rest.
Proof.
  intros Hc Hn Hok Hd Hs Hsafe Hwr Hne Henv t Hfresh w'.
  pose proof (refreshed_tokens_expiresAt rt creds (refresh_tenant w) d
                (clock (proc w) (ticks w)) s Hs) as Hz. fold t in Hz.
  split; [exact Hz |].
  pose proof (refreshToken_success_world rt w creds r rest d Hc Hn Hok Hd Hwr) as Hw.
  cbv zeta in Hw. fold t in Hw. fold w' in Hw.
  match type of Hw with
  | _ = snd (updateClaudeConfig _ ?w0) =>
      destruct (updateClaudeConfig_step t w0) as ((Hp & Hpath & _) & _ & Hticks & Hnet & Hfs)
  end.
  rewrite <- Hw in Hp, Hpath, Hticks, Hnet, Hfs.
  cbn [proc tokenManager tokenFilePath ticks net saved set_ticks emit set_net
       set_fs set_currentTokens] in Hp, Hpath, Hticks, Hnet.
  assert (Hrec : stored_record w' (tokenFilePath (tokenManager w)) = Some t).
  { unfold stored_record. rewrite Hfs by exact Hne.
    match goal with
    | |- context [fs (saved t ?w0)] =>
        exact (stored_record_saved t _ w0 Hz (proj2 (proj2 (proj2 (proj2 Hsafe)))))
    end. }
  assert (Henv' : env_pair w' = None).
  { unfold env_pair in *. now rewrite Hp. }
  assert (Hrec' : stored_record w' (tokenFilePath (tokenManager w')) = Some t).
  { now rewrite Hpath. }
  split; [exact Hrec |].
  rewrite (getTokens_no_env w' Henv').
  rewrite (getTokens_stored_fresh w' t Hrec').
  2: { rewrite Hz, Hp, Hticks. unfold greater. cbn [ToNumber].
       rewrite Z.gtb_ltb. apply Z.ltb_ge. lia. }
  cbn [fst snd]. split; [reflexivity |].
  unfold loaded. cbn [trace net emit set_ticks set_currentTokens].
  split; [| split; [| exact Hnet]].
  - rewrite !refresh_calls_app.
    cbn [refresh_calls List.filter is_refresh_call length]. lia.
  - unfold fetch_calls. rewrite !List.filter_app, !List.length_app.
    cbn [List.filter is_fetch length]. lia.
Qed.

Lemma refreshToken_then_getTokens_witness :
  let w := Examples.refreshing Examples.client [Responds Examples.granted] in
  let w' := snd (refreshToken "R1" w) in
  exists t, fst (getTokens w') = Ret (Some t) /\ accessToken t = "A2" /\
            expiresAt t = Finite 3305000 /\
            net (snd (getTokens w')) = [].
Proof.
  cbv zeta.
  destruct (refreshToken_then_getTokens "R1"
              (Examples.refreshing Examples.client [Responds Examples.granted])
              ("app", "secret") Examples.granted []
              {| access_token := "A2"; refresh_token := None;
                 expires_in := 3600 |} 3600)
    as (H1 & _ & H2 & _ & _ & H5).
  1-5: vm_compute; reflexivity.
  - unfold safe_lifetime, safe. vm_compute. repeat split; discriminate.
  - reflexivity.
  - vm_compute. discriminate.
  - vm_compute. reflexivity.
  - vm_compute. discriminate.
  - eexists. split; [exact H2 |]. split; [reflexivity |].
    split; [exact H1 | exact H5].
Defined.

(** X8: a successful refresh pins the client credentials: the record that it
    caches carries the client id, the client secret and the tenant that were
    used, so that any later refresh with that record cached uses the same
    ones, whatever the environment then holds. *)
Theorem refreshToken_pins_credentials (rt : string) (w : World)
    (creds : string * string) (r : Response) (rest : list NetReply)
    (d : RefreshResponse) :
  refresh_credentials w = Some creds ->
  net w = Responds r :: rest ->
  ok r = true ->
  token_response r = Some d ->
  exists t,
    currentTokens (tokenManager (snd (refreshToken rt w))) = Some t /\
    forall w2, currentTokens (tokenManager w2) = Some t ->
      refresh_credentials w2 = Some creds /\
      refresh_tenant w2 = refresh_tenant w.
Proof.
  intros Hc Hn Hok Hd.
  destruct (refreshToken_granted rt w _ (granted_intro rt w creds r rest d Hc Hn Hok Hd))
    as [_ Hcur].
  eexists. split; [exact Hcur |].
  intros w2 Hw2. destruct (refresh_credentials_truthy w creds Hc) as [Hi Hs].
  pose proof (refresh_tenant_truthy w) as Ht.
  unfold refresh_credentials, refresh_tenant at 1. rewrite Hw2.
  cbn [mbind option_bind clientId clientSecret tenantId refreshed_tokens].
  rewrite !js_or_truthy by assumption. rewrite Hi, Hs, Ht.
  split; [now destruct creds | reflexivity].
Qed.

Lemma refreshToken_pins_credentials_witness :
  let w := Examples.refreshing Examples.client [Responds Examples.granted] in
  refresh_credentials
    (Examples.world [] Examples.steady [] []) = None /\
  refresh_credentials
    (set_currentTokens (currentTokens (tokenManager (snd (refreshToken "R1" w))))
       (Examples.world [] Examples.steady [] [])) = Some ("app", "secret").
Proof.
  cbv zeta. split; [reflexivity |].
  destruct (refreshToken_pins_credentials "R1"
              (Examples.refreshing Examples.client [Responds Examples.granted])
              ("app", "secret") Examples.granted []
              {| access_token := "A2"; refresh_token := None;
                 expires_in := 3600 |})
    as (t & Hcur & Hpin); [vm_compute; reflexivity .. |].
  rewrite Hcur. apply Hpin. reflexivity.
Defined.

(** X9: the refresh token rotates when the token endpoint sends a new one
    that is not empty; when it sends none, or an empty string, the refresh
    token that was used is kept.  The record is the one that the refresh
    caches, and its result when the token file can be written. *)
Theorem refreshToken_rotates (rt : string) (w : World)
    (creds : string * string) (r : Response) (rest : list NetReply)
    (d : RefreshResponse) :
  refresh_credentials w = Some creds ->
  net w = Responds r :: rest ->
  ok r = true ->
  token_response r = Some d ->
  exists t,
    currentTokens (tokenManager (snd (refreshToken rt w))) = Some t /\
    (writable w -> fst (refreshToken rt w) = Ret (Some t)) /\
    (forall new, refresh_token d = Some new -> new <> EmptyString ->
       TokenData.refreshToken t = new) /\
    (refresh_token d = None \/ refresh_token d = Some EmptyString ->
       TokenData.refreshToken t = rt).
Proof.
  intros Hc Hn Hok Hd.
  destruct (refreshToken_granted rt w _ (granted_intro rt w creds r rest d Hc Hn Hok Hd))
    as [H1 H2].
  eexists. split; [exact H2 |]. split.
  { unfold writable. intros Hw. now rewrite Hw in H1. }
  cbn [TokenData.refreshToken refreshed_tokens].
  split.
  - intros new -> Hne. cbn. apply String.eqb_neq in Hne. now rewrite Hne.
  - intros [-> | ->]; reflexivity.
Qed.

Lemma refreshToken_rotates_witness :
  let w := Examples.refreshing Examples.client [Responds MoreExamples.rotated] in
  exists t, fst (refreshToken "R1" w) = Ret (Some t) /\
            TokenData.refreshToken t = "R3".
Proof.
  cbv zeta.
  destruct (refreshToken_rotates "R1"
              (Examples.refreshing Examples.client [Responds MoreExamples.rotated])
              ("app", "secret") MoreExamples.rotated []
              {| access_token := "A3"; refresh_token := Some "R3";
                 expires_in := 3600 |})
    as (t & _ & H1 & Hnew & _); [vm_compute; reflexivity .. |].
  exists t. split; [apply H1; reflexivity |].
  apply Hnew; [reflexivity | discriminate].
Defined.





Lemma fetch_calls_app (a b : list Event) :
  fetch_calls (a ++ b) = (fetch_calls a + fetch_calls b)%nat.
Proof. unfold fetch_calls. now rewrite List.filter_app, List.length_app. Qed.

Lemma claude_events_no_fetch (p : Process) (path : string) (evs : list Event) :
  Forall (claude_event p path) evs ->
  fetch_calls evs = 0%nat /\ forall req reply, ~ In (Fetch req reply) evs.
Proof.
  induction 1 as [|e evs He _ [IH1 IH2]]; [split; [reflexivity | intros ? ? []] |].
  change (e :: evs) with ([e] ++ evs)%list. rewrite fetch_calls_app, IH1.
  split.
  - destruct e; try reflexivity. contradiction.
  - intros req reply [H | Hin]; [subst e; contradiction | now apply (IH2 req reply)].
Qed.

Lemma one_refresh_call_intro (rt : string) (w : World)
    (creds : string * string) (reply : NetReply) (evs : list Event) :
  refresh_credentials w = Some creds ->
  fetch_calls evs = 0%nat ->
  (forall req reply', ~ In (Fetch req reply') evs) ->
  one_refresh_call rt w
    ([RefreshTokenCalled rt;
      Fetch (refresh_request (fst creds) (snd creds) (refresh_tenant w) rt) reply]
     ++ evs).
Proof.
  intros Hc H0 Hno. split.
  - rewrite fetch_calls_app, H0. cbn. lia.
  - intros req reply' [H | [H | H]]; [discriminate | | now apply Hno in H].
    injection H as <- _. now exists creds.
Qed.

Lemma consoles_no_fetch (ms : list ConsoleMsg) :
  fetch_calls (List.map Console ms) = 0%nat /\ forall req reply, ~ In (Fetch req reply) (List.map Console ms).
Proof.
  induction ms as [|m ms [IH1 IH2]]; [split; [reflexivity | intros ? ? []] |].
  split; [exact IH1 |].
  intros req reply [H | H]; [discriminate | now apply IH2 in H].
Qed.

(** X12: [refreshToken] makes at most one HTTP call, and never retries; the
    call is the POST of the refresh token and the client credentials to the
    token endpoint of the tenant. *)
Theorem refreshToken_one_call (rt : string) (w : World) :
  exists evs,
    (trace (snd (refreshToken rt w)) = trace w ++ evs)%list /\
    one_refresh_call rt w evs.
Proof.
  rewrite refreshToken_eq. unfold refreshToken_cases, refresh_caught.
  destruct (refresh_credentials w) as [creds|] eqn:Hc; cbn [snd].
  2: { eexists. split; [cbn [trace emit]; rewrite <- !app_assoc; reflexivity |].
       split; [cbn; lia |]. intros req reply [H|[H|[]]]; discriminate. }
  assert (Hlogs : forall reply ms w1,
    (trace w1 = trace w ++ [RefreshTokenCalled rt;
       Fetch (refresh_request (fst creds) (snd creds) (refresh_tenant w) rt) reply]
       ++ List.map Console ms)%list ->
    exists evs, (trace w1 = trace w ++ evs)%list /\ one_refresh_call rt w evs).
  { intros reply ms w1 ->. eexists. split; [reflexivity |].
    destruct (consoles_no_fetch ms) as [H0 Hno].
    now apply one_refresh_call_intro. }
  assert (Hsaved : forall t reply w1,
    (trace w1 = trace w ++ [RefreshTokenCalled rt;
       Fetch (refresh_request (fst creds) (snd creds) (refresh_tenant w) rt) reply])%list ->
    exists evs,
      (trace (snd (updateClaudeConfig t (saved t (set_ticks (S (ticks w)) w1))))
       = trace w ++ evs)%list /\ one_refresh_call rt w evs).
  { intros t reply w1 Hw1.
    destruct (updateClaudeConfig_step t (saved t (set_ticks (S (ticks w)) w1)))
      as ((_ & _ & evs & -> & Hf) & _).
    destruct (claude_events_no_fetch _ _ _ Hf) as [H0 Hno].
    unfold saved at 1. cbn [trace emit set_fs set_currentTokens set_ticks].
    rewrite Hw1. rewrite <- !app_assoc. eexists. split; [reflexivity |].
    apply (one_refresh_call_intro rt w creds reply (WriteFileSync _ _ :: evs) Hc).
    - change (WriteFileSync ?p ?c :: evs) with ([WriteFileSync p c] ++ evs)%list.
      rewrite fetch_calls_app, H0. reflexivity.
    - intros req reply' [H | H]; [discriminate | now apply Hno in H]. }
  destruct (net w) as [|[|r] rest]; cbn [snd].
  - eapply (Hlogs Rejects [_; _]).
    cbn [trace emit List.map]. rewrite <- !app_assoc; reflexivity.
  - eapply (Hlogs Rejects [_; _]).
    cbn [trace emit set_net List.map]. rewrite <- !app_assoc; reflexivity.
  - destruct (ok r); cbn [snd].
    2: { eapply (Hlogs (Responds r) [_; _]).
         cbn [trace emit set_net List.map]. rewrite <- !app_assoc; reflexivity. }
    destruct (Json.parse (text r)) as [v rest'| |]; cbn [snd].
    2: { eapply (Hlogs (Responds r) [_; _]).
         cbn [trace emit set_net List.map]. rewrite <- !app_assoc; reflexivity. }
    2: { eapply (Hlogs (Responds r) []).
         cbn [trace emit set_net List.map]. rewrite <- !app_assoc; reflexivity. }
    destruct v; cbn [snd];
      try (eapply (Hlogs (Responds r) [_; _]);
           cbn [trace emit set_net List.map]; rewrite <- !app_assoc; reflexivity);
      (destruct (as_RefreshResponse _) as [d|]; cbn [snd];
       [destruct (write_error (proc w) (tokenFilePath (tokenManager w))); cbn [snd];
        [eapply (Hlogs (Responds r) [_; _]);
         cbn [trace emit set_net set_ticks set_currentTokens List.map];
         rewrite <- !app_assoc; reflexivity
        | apply (Hsaved _ (Responds r));
          cbn [trace emit set_net]; rewrite <- !app_assoc; reflexivity]
       | eapply (Hlogs (Responds r) []);
         cbn [trace emit set_net List.map]; rewrite <- !app_assoc; reflexivity]).
Qed.


(** ** [updateClaudeConfig] *)

(** X13: where the model determines what the statements inside its [try]
    do, [updateClaudeConfig] is that [try] with its [catch], which writes
    the error on the console: it never throws, whatever the configuration
    file holds, and it stays within that file and the console: it makes no
    HTTP call and changes neither the cached record, nor the clock, nor any
    other file. *)
Theorem updateClaudeConfig_never_throws (tokens : StoredTokenData) (w : World) :
  fst (updateClaudeConfig_try tokens w) <> Unmodelled ->
  let w' := snd (updateClaudeConfig tokens w) in
  updateClaudeConfig tokens w
  = try_catch (updateClaudeConfig_try tokens)
      (fun error => console_error (LogError "Could not update Claude config:" error))
      w /\
  fst (updateClaudeConfig tokens w) = Ret tt /\
  currentTokens (tokenManager w') = currentTokens (tokenManager w) /\
  ticks w' = ticks w /\
  net w' = net w /\
  fetch_calls (trace w') = fetch_calls (trace w) /\
  forall path, path <> claudeConfigPath (proc w) -> fs w' !! path = fs w !! path.
Proof.
  intros Hm. cbv zeta. split.
  { unfold updateClaudeConfig, try_catch.
    destruct (updateClaudeConfig_try tokens w) as [[u|e|] w1];
      [reflexivity | reflexivity | now elim Hm]. }
  split; [apply updateClaudeConfig_returns |].
  destruct (updateClaudeConfig_step tokens w)
    as ((_ & _ & evs & He & Hf) & Hcur & Hticks & Hnet & Hfs).
  repeat split; try assumption.
  rewrite He, fetch_calls_app.
  destruct (claude_events_no_fetch _ _ _ Hf) as [-> _]. lia.
Qed.

Lemma updateClaudeConfig_never_throws_witness :
  let w := MoreExamples.with_config (JObj [("mcpServers", JObj [("microsoft-todo", JInt 1)])]) in
  updateClaudeConfig Examples.lasting w
  = (Ret tt,
     emit (Console (LogError "Could not update Claude config:" TypeError))
       (emit (ReadFileSync MoreExamples.host_path)
          (emit (ExistsSync MoreExamples.host_path true) w))).
Proof.
  cbv zeta.
  destruct (updateClaudeConfig_never_throws Examples.lasting
              (MoreExamples.with_config
                 (JObj [("mcpServers", JObj [("microsoft-todo", JInt 1)])])))
    as (H & _); [vm_compute; discriminate |].
  rewrite H. vm_compute. reflexivity.
Defined.

(** X14: a desktop host that is not set up for this server is left alone: when
    there is no configuration file, or the file is a JSON object that
    declares no server [microsoft-todo], [updateClaudeConfig] writes nothing,
    neither to a file nor on the console. *)
Theorem updateClaudeConfig_without_server (tokens : StoredTokenData) (w : World) :
  config_without_server w = true ->
  let path := claudeConfigPath (proc w) in
  updateClaudeConfig tokens w =
    (Ret tt,
     match fs w !! path with
     | None => emit (ExistsSync path false) w
     | Some _ => emit (ReadFileSync path) (emit (ExistsSync path true) w)
     end).
Proof.
  intros H. cbv zeta. unfold config_without_server in H.
  destruct (fs w !! claudeConfigPath (proc w)) as [[data| |e]|] eqn:Hfile;
    try discriminate.
  - unfold updateClaudeConfig, updateClaudeConfig_try. run.
    rewrite (file_exists _ _ _ Hfile). cbn [negb]. run. rewrite Hfile.
    unfold JSON_parse, JSON_parse_as. run.
    destruct (Json.parse data) as [v rest| |]; try discriminate.
    destruct v as [| | | | | |cms]; try discriminate.
    unfold declares_no_todo_server in H. cbn [js_member]. run.
    destruct (Json.get "mcpServers" cms) as [servers|]; [| reflexivity].
    destruct servers as [| | | | | |sms]; try discriminate.
    cbn -[Json.get claudeConfigPath]. run.
    destruct (Json.get "microsoft-todo" sms); [discriminate | reflexivity].
  - unfold updateClaudeConfig, updateClaudeConfig_try. run. rewrite Hfile.
    rewrite bool_decide_eq_false_2; [reflexivity |]. intros [x Hx]. discriminate.
Qed.

Lemma updateClaudeConfig_without_server_witness :
  let w := MoreExamples.with_config MoreExamples.other_config in
  fs (snd (updateClaudeConfig Examples.lasting w)) = fs w.
Proof.
  cbv zeta.
  rewrite (updateClaudeConfig_without_server Examples.lasting
             (MoreExamples.with_config MoreExamples.other_config));
    [| vm_compute; reflexivity].
  cbn [snd]. destruct (fs _ !! _); reflexivity.
Defined.









(** ** More on [makeGraphRequest] *)

Lemma fetch_adds (P : Process -> string -> Event -> Prop) (req : Request)
    (w : World) :
  (forall reply, P (proc w) (tokenFilePath (tokenManager w)) (Fetch req reply)) ->
  keeps (adds P) (fetch req) w.
Proof.
  intros HP. unfold keeps, fetch.
  destruct (net w) as [|[|r] rest]; cbn [snd]; adds_peel; apply HP.
Qed.

Section GraphEvents.
Variable P : Process -> string -> Event -> Prop.
Hypothesis P_refresh : forall p path e, refresh_event p path e -> P p path e.
Hypothesis P_entry : forall p path rt, P p path (RefreshTokenCalled rt).
Hypothesis P_console : forall p path m, P p path (Console m).
Hypothesis P_exists : forall p path f b, P p path (ExistsSync f b).
Hypothesis P_read : forall p path f, P p path (ReadFileSync f).
Hypothesis P_write : forall p path f c, P p path (WriteFileSync f c).

Ltac gbind x :=
  apply (keeps_bind (adds P) (adds_trans P)); [| intros x ?w ? ?HR].

Ltac gcons := apply keeps_console_error; adds_peel; apply P_console.

Lemma getAccessToken_events (w : World) : keeps (adds P) getAccessToken w.
Proof. now apply getAccessToken_keeps. Qed.

Lemma graph_result_keeps (method : string) (r : Response) (w : World) :
  keeps (adds P) (graph_result method r) w.
Proof.
  unfold graph_result. destruct (negb (ok r)).
  - gbind u; [gcons |].
    destruct (includes _ _); [gbind u'; [gcons |] |];
      apply keeps_throw, adds_refl.
  - destruct (String.eqb method "DELETE").
    + gbind u; [gcons | apply keeps_ret, adds_refl].
    + gbind data; [apply keeps_JSON_parse_as, adds_refl |].
      gbind u; [gcons | apply keeps_ret, adds_refl].
Qed.

Variables (url method : string) (b : Body).
Hypothesis P_graph : forall p path token reply,
  P p path (Fetch (graph_request url token method b) reply).

Lemma graph_fetch_keeps (token : string) (w : World) :
  keeps (adds P) (graph_fetch url token method b) w.
Proof.
  unfold graph_fetch. gbind response; [apply fetch_adds; intros; apply P_graph |].
  destruct (status response =? 401); [| apply keeps_ret, adds_refl].
  gbind u; [gcons |]. gbind newToken; [apply getAccessToken_events |].
  destruct (truthy_string newToken) as [t|]; [| apply keeps_ret, adds_refl].
  destruct (negb (String.eqb t token)); [| apply keeps_ret, adds_refl].
  apply fetch_adds; intros; apply P_graph.
Qed.

Lemma makeGraphRequest_keeps (token : string) (body : option json) (w : World) :
  fst (request_body method body w) = Ret b ->
  keeps (adds P) (makeGraphRequest url token method body) w.
Proof.
  intros Hb. unfold makeGraphRequest.
  apply (keeps_try_catch (adds P) (adds_trans P)).
  - unfold makeGraphRequest_try. gbind response; [| apply graph_result_keeps].
    unfold makeGraphRequest_send. gbind b'.
    { apply keeps_pure; [apply adds_refl | apply request_body_pure]. }
    match goal with H : fst _ = Ret b' |- _ => rewrite Hb in H; injection H as <- end.
    gbind u; [gcons |]. gbind u'; [gcons |]. apply graph_fetch_keeps.
  - intros e ?w _ _. gbind u; [gcons | apply keeps_ret, adds_refl].
Qed.

End GraphEvents.

Lemma request_body_cases (method : string) (body : option json) (b : Body)
    (w : World) :
  fst (request_body method body w) = Ret b ->
  b = NoBody \/
  exists v, body = Some v /\ b = JsonBody v /\ Json.truthy v = Some true /\
            (method = "POST" \/ method = "PATCH").
Proof.
  unfold request_body, js_truthy. run.
  destruct body as [v|]; [| intros [= <-]; now left].
  destruct (Json.truthy v) as [[]|] eqn:Ht; cbn; [| | discriminate].
  - destruct (String.eqb method "POST") eqn:E1; cbn.
    + intros [= <-]. right. exists v. apply String.eqb_eq in E1. auto.
    + destruct (String.eqb method "PATCH") eqn:E2; cbn; intros [= <-].
      * right. exists v. apply String.eqb_eq in E2. auto.
      * now left.
  - intros [= <-]. now left.
Qed.

(** X16: every HTTP call that [makeGraphRequest] makes is the request for
    [url] with [method], or a form post (the call of the token endpoint that
    the Token Manager may make after a 401).  The request carries a body
    only when the method is POST or PATCH and [body] is truthy, and then
    [body] itself. *)
Theorem makeGraphRequest_calls_only_url (url token method : string)
    (body : option json) (b : Body) (w : World) :
  fst (request_body method body w) = Ret b ->
  (b = NoBody \/
   exists v, body = Some v /\ b = JsonBody v /\ Json.truthy v = Some true /\
             (method = "POST" \/ method = "PATCH")) /\
  exists evs,
    (trace (snd (makeGraphRequest url token method body w)) = trace w ++ evs)%list /\
    forall req reply, In (Fetch req reply) evs ->
      (exists t, req = graph_request url t method b) \/
      headers req = form_headers.
Proof.
  intros Hb. split; [exact (request_body_cases _ _ _ _ Hb) |].
  set (P := fun (p : Process) (path : string) (e : Event) =>
              match e with
              | Fetch req _ =>
                  (exists t, req = graph_request url t method b) \/
                  headers req = form_headers
              | _ => True
              end).
  assert (HP : keeps (adds P) (makeGraphRequest url token method body) w).
  { apply makeGraphRequest_keeps with (b := b); try (intros; exact I);
      [| | exact Hb].
    - intros p path e He. destruct e; try exact I. cbn in He |- *. now right.
    - intros p path t reply. left. now exists t. }
  destruct HP as (_ & _ & evs & He & Hf). exists evs. split; [exact He |].
  intros req reply Hin. rewrite Forall_forall in Hf.
  apply (Hf (Fetch req reply)). now apply list_elem_of_In.
Qed.

Lemma makeGraphRequest_calls_only_url_witness :
  let w := Examples.lasting_store
             [Responds Examples.unauthorized; Responds Examples.found] in
  exists evs,
    (trace (snd (makeGraphRequest Examples.url "A1" "GET" (Some (JStr "x")) w))
     = trace w ++ evs)%list /\
    forall req reply, In (Fetch req reply) evs ->
      (exists t, req = graph_request Examples.url t "GET" NoBody) \/
      headers req = form_headers.
Proof.
  cbv zeta.
  destruct (makeGraphRequest_calls_only_url Examples.url "A1" "GET"
              (Some (JStr "x")) NoBody
              (Examples.lasting_store
                 [Responds Examples.unauthorized; Responds Examples.found]))
    as (_ & H); [reflexivity | exact H].
Defined.

Lemma console_step_refl (w : World) : console_step w w.
Proof. now exists []. Qed.

Lemma console_step_trans (a b c : World) :
  console_step a b -> console_step b c -> console_step a c.
Proof.
  intros [ms ->] [ms' ->]. exists (ms ++ ms')%list. now rewrite fold_left_app.
Qed.

Lemma console_step_emit (m : ConsoleMsg) (w : World) :
  console_step w (emit (Console m) w).
Proof. now exists [m]. Qed.

Lemma console_step_frame (w w' : World) :
  console_step w w' ->
  proc w' = proc w /\ tokenManager w' = tokenManager w /\ fs w' = fs w /\
  ticks w' = ticks w /\ net w' = net w /\
  graph_calls (trace w') = graph_calls (trace w) /\
  fetch_calls (trace w') = fetch_calls (trace w) /\
  refresh_calls (trace w') = refresh_calls (trace w).
Proof.
  intros [ms ->]. revert w. induction ms as [|m ms IH]; intros w; [easy |].
  cbn [fold_left]. destruct (IH (emit (Console m) w)) as (-> & -> & -> & -> & -> & -> & -> & ->).
  cbn [proc tokenManager fs ticks net trace emit].
  rewrite graph_calls_app, fetch_calls_app, refresh_calls_app. cbn.
  repeat split; lia.
Qed.

Ltac sbind x :=
  apply (keeps_bind console_step console_step_trans); [| intros x ?w ? ?HR].

Ltac scons := apply keeps_console_error, console_step_emit.

Lemma graph_result_console (method : string) (r : Response) (w : World) :
  keeps console_step (graph_result method r) w.
Proof.
  unfold graph_result. destruct (negb (ok r)).
  - sbind u; [scons |].
    destruct (includes _ _); [sbind u'; [scons |] |];
      apply keeps_throw, console_step_refl.
  - destruct (String.eqb method "DELETE").
    + sbind u; [scons | apply keeps_ret, console_step_refl].
    + sbind data; [apply keeps_JSON_parse_as, console_step_refl |].
      sbind u; [scons | apply keeps_ret, console_step_refl].
Qed.

(** After the response is there, [makeGraphRequest] only writes on the
    console. *)
Lemma makeGraphRequest_console (url token method : string) (body : option json)
    (w w1 : World) (r : Response) :
  makeGraphRequest_send url token method body w = (Ret r, w1) ->
  console_step w1 (snd (makeGraphRequest url token method body w)).
Proof.
  intros Hs. rewrite (makeGraphRequest_response _ _ _ _ _ _ _ Hs).
  apply (keeps_try_catch console_step console_step_trans).
  - apply graph_result_console.
  - intros e ?w _ _. sbind u; [scons | apply keeps_ret, console_step_refl].
Qed.

Lemma makeGraphRequest_send_first (url token method : string)
    (body : option json) (b : Body) (w : World) :
  fst (request_body method body w) = Ret b ->
  match next_reply w with
  | Responds r => status r <> 401
  | Rejects => True
  end ->
  makeGraphRequest_send url token method body w =
    (match next_reply w with
     | Responds r => Ret r
     | Rejects => Throw FetchFailed
     end, answered url token method b w).
Proof.
  intros Hb Hreply. rewrite (makeGraphRequest_send_eq _ _ _ _ b w Hb).
  unfold graph_fetch, answered, next_reply in *.
  unfold mbind at 1. unfold M_bind at 1. unfold fetch at 1.
  change (net (announced url method w)) with (net w).
  destruct (net w) as [|[|r] rest]; try reflexivity.
  apply Z.eqb_neq in Hreply. rewrite Hreply. reflexivity.
Qed.

Lemma makeGraphRequest_rejected (url token method : string)
    (body : option json) (b : Body) (w : World) :
  fst (request_body method body w) = Ret b ->
  next_reply w = Rejects ->
  makeGraphRequest url token method body w =
    (Ret JNull, request_caught FetchFailed (answered url token method b w)).
Proof.
  intros Hb Hreply.
  pose proof (makeGraphRequest_send_first url token method body b w Hb) as Hs.
  rewrite Hreply in Hs. specialize (Hs I).
  unfold makeGraphRequest, try_catch, makeGraphRequest_try.
  unfold mbind at 1. unfold M_bind at 1. rewrite Hs. reflexivity.
Qed.

(** X17: [makeGraphRequest] never throws, and a failure of the network makes
    it return [null] after its one call: a rejected [fetch] is not tried
    again. *)
Theorem makeGraphRequest_network_failure (url token method : string)
    (body : option json) (b : Body) (w : World) :
  (forall e, fst (makeGraphRequest url token method body w) <> Throw e) /\
  (fst (request_body method body w) = Ret b ->
   next_reply w = Rejects ->
   makeGraphRequest url token method body w =
     (Ret JNull, request_caught FetchFailed (answered url token method b w)) /\
   graph_calls (trace (snd (makeGraphRequest url token method body w)))
     = S (graph_calls (trace w))).
Proof.
  split.
  - unfold makeGraphRequest. apply try_catch_never_throws. intros; discriminate.
  - intros Hb Hreply.
    pose proof (makeGraphRequest_rejected url token method body b w Hb Hreply)
      as H.
    split; [exact H |]. rewrite H. cbn [snd].
    unfold request_caught, answered, announced.
    destruct (net w); cbn [trace emit set_net];
      rewrite !graph_calls_app; cbn; lia.
Qed.

Lemma makeGraphRequest_network_failure_witness :
  let w := Examples.lasting_store [Rejects; Responds Examples.found] in
  fst (makeGraphRequest Examples.url "A2" "GET" None w) = Ret JNull /\
  net (snd (makeGraphRequest Examples.url "A2" "GET" None w))
    = [Responds Examples.found].
Proof.
  cbv zeta.
  destruct (makeGraphRequest_network_failure Examples.url "A2" "GET" None NoBody
              (Examples.lasting_store [Rejects; Responds Examples.found]))
    as (_ & H).
  destruct H as (H & _); [reflexivity | reflexivity |].
  rewrite H. split; reflexivity.
Defined.

(** X18: when the first answer is not a 401, it is the only call:
    [makeGraphRequest] does not ask the Token Manager, reads no clock and
    touches no file; the result is [null] for a failed response, the empty
    object after a DELETE, and the parsed body otherwise. *)
Theorem makeGraphRequest_answered_once (url token method : string)
    (body : option json) (b : Body) (w : World) (r : Response)
    (rest : list NetReply) :
  fst (request_body method body w) = Ret b ->
  net w = Responds r :: rest ->
  status r <> 401 ->
  let w' := snd (makeGraphRequest url token method body w) in
  console_step (answered url token method b w) w' /\
  fetch_calls (trace w') = S (fetch_calls (trace w)) /\
  refresh_calls (trace w') = refresh_calls (trace w) /\
  net w' = rest /\ ticks w' = ticks w /\ fs w' = fs w /\
  tokenManager w' = tokenManager w /\
  (ok r = false -> fst (makeGraphRequest url token method body w) = Ret JNull) /\
  (ok r = true -> method = "DELETE" ->
   fst (makeGraphRequest url token method body w) = Ret (JObj [])) /\
  (ok r = true -> method <> "DELETE" ->
   forall v rest', Json.parse (text r) = Parsed v rest' ->
     fst (makeGraphRequest url token method body w) = Ret v).
Proof.
  intros Hb Hnet Hst w'. subst w'.
  pose proof (makeGraphRequest_send_first url token method body b w Hb) as Hs.
  unfold next_reply in Hs. rewrite Hnet in Hs. specialize (Hs Hst).
  pose proof (makeGraphRequest_console _ _ _ _ _ _ _ Hs) as Hc.
  destruct (console_step_frame _ _ Hc) as (_ & Htm & Hfs & Hticks & Hn & _ & Hf & Hr).
  split; [exact Hc |].
  unfold answered, announced in Htm, Hfs, Hticks, Hn, Hf, Hr.
  rewrite Hnet in Htm, Hfs, Hticks, Hn, Hf, Hr.
  cbn [tokenManager fs ticks net trace emit set_net] in *.
  rewrite !fetch_calls_app in Hf. rewrite !refresh_calls_app in Hr.
  cbn in Hf, Hr.
  split; [lia |]. split; [lia |]. repeat (split; [assumption |]).
  split; [| split].
  - intros Hok. now rewrite (makeGraphRequest_failed _ _ _ _ _ _ _ Hs Hok).
  - intros Hok Hm. now apply (makeGraphRequest_succeeded _ _ _ _ _ _ _ Hs Hok).
  - intros Hok Hm. now apply (makeGraphRequest_succeeded _ _ _ _ _ _ _ Hs Hok).
Qed.

Lemma makeGraphRequest_answered_once_witness :
  let w := Examples.stale_store_refused in
  fst (makeGraphRequest Examples.url "A1" "GET" None w) = Ret JNull /\
  refresh_calls (trace (snd (makeGraphRequest Examples.url "A1" "GET" None w)))
    = 0%nat.
Proof.
  cbv zeta.
  destruct (makeGraphRequest_answered_once Examples.url "A1" "GET" None NoBody
              Examples.stale_store_refused Examples.rejected [])
    as (_ & _ & Hr & _ & _ & _ & _ & Hfail & _);
    [reflexivity | reflexivity | discriminate |].
  split; [now apply Hfail | exact Hr].
Defined.

(** X19: a successful answer whose body is not a JSON text (an empty body,
    or one that is cut short) makes [makeGraphRequest] return [null], as a
    failure does, unless the method is DELETE. *)
Theorem makeGraphRequest_unreadable_success (url token method : string)
    (body : option json) (w w1 : World) (r : Response) :
  makeGraphRequest_send url token method body w = (Ret r, w1) ->
  ok r = true ->
  method <> "DELETE" ->
  Json.parse (text r) = SyntaxErr ->
  makeGraphRequest url token method body w
    = (Ret JNull, request_caught SyntaxError w1).
Proof.
  intros Hs Hok Hm Hparse. rewrite (makeGraphRequest_response _ _ _ _ _ _ _ Hs).
  unfold try_catch, graph_result. rewrite Hok. cbn [negb].
  apply String.eqb_neq in Hm. rewrite Hm.
  unfold Response_json, JSON_parse, JSON_parse_as. run. rewrite Hparse.
  reflexivity.
Qed.

Lemma makeGraphRequest_unreadable_success_witness :
  let empty := Examples.lasting_store [Responds MoreExamples.no_content] in
  let cut := Examples.lasting_store
               [Responds {| status := 200; text := "[[[[1]]" |}] in
  fst (makeGraphRequest Examples.url "A2" "PATCH" (Some (JObj [])) empty)
    = Ret JNull /\
  fst (makeGraphRequest Examples.url "A2" "GET" None cut) = Ret JNull.
Proof.
  cbv zeta. split.
  - rewrite (makeGraphRequest_unreadable_success Examples.url "A2" "PATCH"
               (Some (JObj []))
               (Examples.lasting_store [Responds MoreExamples.no_content])
               (snd (makeGraphRequest_send Examples.url "A2" "PATCH" (Some (JObj []))
                       (Examples.lasting_store [Responds MoreExamples.no_content])))
               MoreExamples.no_content);
      [reflexivity | vm_compute; reflexivity | reflexivity | discriminate
       | reflexivity].
  - rewrite (makeGraphRequest_unreadable_success Examples.url "A2" "GET" None
               (Examples.lasting_store
                  [Responds {| status := 200; text := "[[[[1]]" |}])
               (snd (makeGraphRequest_send Examples.url "A2" "GET" None
                       (Examples.lasting_store
                          [Responds {| status := 200; text := "[[[[1]]" |}])))
               {| status := 200; text := "[[[[1]]" |});
      [reflexivity | vm_compute; reflexivity | reflexivity | discriminate
       | vm_compute; reflexivity].
Defined.

(** ** [storeCredentials] *)



(** ** Tool handlers *)

(** The start that the handlers share: with no token they answer at once. *)
Lemma handler_unauthenticated (k : string -> M ToolResult)
    (h : JsError -> M ToolResult) (o : option string) (w : World) :
  fst (getAccessToken w) = Ret o ->
  truthy_string o = None ->
  try_catch (token ← getAccessToken;
             match truthy_string token with
             | None => mret unauthenticated
             | Some token => k token
             end) h w
  = (Ret unauthenticated, snd (getAccessToken w)).
Proof.
  intros Ho Hnone. unfold try_catch, mbind, M_bind.
  destruct (getAccessToken w) as [res w1]. cbn [fst snd] in *. subst res.
  now rewrite Hnone.
Qed.

(** With a token they go on with it. *)
Lemma handler_authenticated (k : string -> M ToolResult)
    (h : JsError -> M ToolResult) (token : string) (w : World) :
  fst (getAccessToken w) = Ret (Some token) ->
  token <> EmptyString ->
  try_catch (token ← getAccessToken;
             match truthy_string token with
             | None => mret unauthenticated
             | Some token => k token
             end) h w
  = try_catch (k token) h (snd (getAccessToken w)).
Proof.
  intros Ho Hne. unfold try_catch, mbind, M_bind.
  destruct (getAccessToken w) as [res w1]. cbn [fst snd] in *. subst res.
  cbn [truthy_string]. apply String.eqb_neq in Hne. now rewrite Hne.
Qed.

(** X21: without a token no tool contacts the remote API: when
    [getAccessToken] gives [null] or an empty string, each of the ten tools
    answers that authentication failed and does nothing more. *)
Theorem tools_need_a_token (o : option string) (w : World) :
  fst (getAccessToken w) = Ret o ->
  truthy_string o = None ->
  let answer := (Ret unauthenticated, snd (getAccessToken w)) in
  get_task_lists w = answer /\
  (forall name, create_task_list name w = answer) /\
  (forall listId name, update_task_list listId name w = answer) /\
  (forall listId, delete_task_list listId w = answer) /\
  (forall listId title a, create_task listId title a w = answer) /\
  (forall listId taskId title a, update_task listId taskId title a w = answer) /\
  (forall listId taskId, delete_task listId taskId w = answer) /\
  (forall listId taskId name isChecked,
     create_checklist_item listId taskId name isChecked w = answer) /\
  (forall listId taskId itemId name isChecked,
     update_checklist_item listId taskId itemId name isChecked w = answer) /\
  (forall listId taskId itemId,
     delete_checklist_item listId taskId itemId w = answer) /\
  graph_calls (trace (snd (getAccessToken w))) = graph_calls (trace w).
Proof.
  intros Ho Hnone answer. subst answer.
  repeat split; intros;
    try (apply (handler_unauthenticated _ _ o w Ho Hnone)).
  apply getAccessToken_no_graph_call.
Qed.

Lemma tools_need_a_token_witness :
  let w := Examples.world [] Examples.steady [] [Responds Examples.found] in
  delete_task_list "L1" w = (Ret unauthenticated, snd (getAccessToken w)) /\
  net (snd (getAccessToken w)) = [Responds Examples.found].
Proof.
  cbv zeta.
  destruct (tools_need_a_token None
              (Examples.world [] Examples.steady [] [Responds Examples.found]))
    as (_ & _ & _ & H & _); [vm_compute; reflexivity | reflexivity |].
  split; [apply H | vm_compute; reflexivity].
Defined.

(** A DELETE that is answered at once, or not at all, returns. *)
Lemma makeGraphRequest_delete_returns (url token : string) (w : World) :
  match next_reply w with
  | Responds r => status r <> 401
  | Rejects => True
  end ->
  exists v, fst (makeGraphRequest url token "DELETE" None w) = Ret v.
Proof.
  intros Hreply.
  pose proof (makeGraphRequest_send_first url token "DELETE" None NoBody w
                eq_refl Hreply) as Hs.
  destruct (next_reply w) as [|r] eqn:E.
  - rewrite (makeGraphRequest_rejected url token "DELETE" None NoBody w eq_refl E).
    now exists JNull.
  - destruct (ok r) eqn:Hok.
    + exists (JObj []).
      now apply (makeGraphRequest_succeeded _ _ _ _ _ _ _ Hs Hok).
    + exists JNull. now rewrite (makeGraphRequest_failed _ _ _ _ _ _ _ Hs Hok).
Qed.

Lemma delete_reports_success (url token line : string) (result : ToolResult)
    (h : JsError -> M ToolResult) (w : World) :
  match next_reply w with
  | Responds r => status r <> 401
  | Rejects => True
  end ->
  fst (try_catch
         (console_error (Log line);;
          makeGraphRequest url token "DELETE" None;;
          mret result) h w) = Ret result.
Proof.
  intros Hreply.
  destruct (makeGraphRequest_delete_returns url token
              (emit (Console (Log line)) w) Hreply) as [v Hv].
  unfold try_catch, mbind, M_bind, console_error.
  destruct (makeGraphRequest url token "DELETE" None _) as [res w2].
  cbn [fst] in Hv. subst res. reflexivity.
Qed.

(** X22: the three delete tools report success whatever became of the
    request.  With a token, and a first reply that is not a 401 -- be it
    204, 404 or 500, or no reply at all -- each of them answers that the
    item was successfully deleted. *)
Theorem delete_tools_always_report_success (token : string) (w : World) :
  fst (getAccessToken w) = Ret (Some token) ->
  token <> EmptyString ->
  match next_reply (snd (getAccessToken w)) with
  | Responds r => status r <> 401
  | Rejects => True
  end ->
  (forall listId,
     fst (delete_task_list listId w) =
       Ret (TextContent ("Task list with ID: " ++ listId
                           ++ " was successfully deleted."))) /\
  (forall listId taskId,
     fst (delete_task listId taskId w) =
       Ret (TextContent ("Task with ID: " ++ taskId
                           ++ " was successfully deleted from list: " ++ listId))) /\
  (forall listId taskId itemId,
     fst (delete_checklist_item listId taskId itemId w) =
       Ret (TextContent ("Checklist item with ID: " ++ itemId
                           ++ " was successfully deleted from task: " ++ taskId))).
Proof.
  intros Ho Hne Hreply. repeat split; intros.
  - unfold delete_task_list, delete_task_list_try.
    rewrite (handler_authenticated _ _ token w Ho Hne).
    now apply delete_reports_success.
  - unfold delete_task, delete_task_try.
    rewrite (handler_authenticated _ _ token w Ho Hne).
    now apply delete_reports_success.
  - unfold delete_checklist_item, delete_checklist_item_try.
    rewrite (handler_authenticated _ _ token w Ho Hne).
    now apply delete_reports_success.
Qed.

Lemma delete_tools_always_report_success_witness :
  let w := Examples.lasting_store [Responds MoreExamples.not_found] in
  fst (makeGraphRequest
         (MS_GRAPH_BASE ++ "/me/todo/lists/L1") "A2" "DELETE" None
         (snd (getAccessToken w))) = Ret JNull /\
  fst (delete_task_list "L1" w) =
    Ret (TextContent "Task list with ID: L1 was successfully deleted.").
Proof.
  cbv zeta. split; [vm_compute; reflexivity |].
  destruct (delete_tools_always_report_success "A2"
              (Examples.lasting_store [Responds MoreExamples.not_found]))
    as (H & _);
    [vm_compute; reflexivity | discriminate | vm_compute; discriminate |].
  apply H.
Defined.

Lemma update_task_body_empty (title : option string) (a : TaskFields) :
  update_task_body title a = [] <-> title = None /\ a = no_fields.
Proof.
  split.
  - destruct title; [discriminate |].
    destruct a as [[] [] [] [] [] [] [] []]; try discriminate. now split.
  - intros [-> ->]. reflexivity.
Qed.

Lemma update_checklist_item_body_empty (name : option string)
    (isChecked : option bool) :
  update_checklist_item_body name isChecked = [] <-> name = None /\ isChecked = None.
Proof.
  split.
  - destruct name, isChecked; try discriminate. now split.
  - intros [-> ->]. reflexivity.
Qed.

(** X23: an update with nothing to update is answered without a request.
    [update-task] and [update-checklist-item] build an empty body exactly
    when every optional argument is absent (an empty title, an empty date or
    an empty list of categories does count as given); then, with a token,
    they answer that no property was provided and make no HTTP call. *)
Theorem update_tools_need_a_property (token : string) (w : World) :
  fst (getAccessToken w) = Ret (Some token) ->
  token <> EmptyString ->
  (forall title a,
     update_task_body title a = [] <-> title = None /\ a = no_fields) /\
  (forall name isChecked,
     update_checklist_item_body name isChecked = [] <->
     name = None /\ isChecked = None) /\
  (forall listId taskId,
     update_task listId taskId None no_fields w =
       (Ret (TextContent
               "No properties provided for update. Please specify at least one property to change."),
        snd (getAccessToken w))) /\
  (forall listId taskId itemId,
     update_checklist_item listId taskId itemId None None w =
       (Ret (TextContent
               "No properties provided for update. Please specify either displayName or isChecked."),
        snd (getAccessToken w))).
Proof.
  intros Ho Hne.
  split; [exact update_task_body_empty |].
  split; [exact update_checklist_item_body_empty |].
  split; intros.
  - unfold update_task, update_task_try.
    rewrite (handler_authenticated _ _ token w Ho Hne). reflexivity.
  - unfold update_checklist_item, update_checklist_item_try.
    rewrite (handler_authenticated _ _ token w Ho Hne). reflexivity.
Qed.

Lemma update_tools_need_a_property_witness :
  let w := Examples.lasting_store [Responds Examples.found] in
  net (snd (update_task "L1" "T1" None no_fields w)) = [Responds Examples.found] /\
  update_task_body (Some EmptyString) no_fields <> [].
Proof.
  cbv zeta.
  destruct (update_tools_need_a_property "A2"
              (Examples.lasting_store [Responds Examples.found]))
    as (Hbody & _ & H & _); [vm_compute; reflexivity | discriminate |].
  split.
  - rewrite H. vm_compute. reflexivity.
  - intros E. apply Hbody in E. now destruct E.
Defined.

(** *** The HTTP calls of the tools *)

Lemma silent_ret {A} (a : A) : silent (mret a : M A).
Proof. intros w. reflexivity. Qed.

Lemma silent_unmodelled {A} : silent (@unmodelled A).
Proof. intros w. reflexivity. Qed.

Lemma silent_bind {A B} (m : M A) (f : A -> M B) :
  silent m -> (forall a, silent (f a)) -> silent (m ≫= f).
Proof.
  intros Hm Hf w. unfold mbind, M_bind. specialize (Hm w).
  destruct (m w) as [[a|e|] w1]; cbn [snd] in *; subst w1; [apply Hf | easy ..].
Qed.

Lemma silent_js_truthy (o : option json) : silent (js_truthy o).
Proof.
  intros w. unfold js_truthy.
  destruct o as [v|]; [destruct (Json.truthy v)|]; reflexivity.
Qed.

Lemma silent_js_member (v : json) (k : string) : silent (js_member v k).
Proof. intros w. destruct v; reflexivity. Qed.

Lemma silent_template (o : option json) : silent (template o).
Proof. intros w. unfold template. destruct (ToString o); reflexivity. Qed.

Lemma silent_tool_catch (prefix : string) (e : JsError) :
  silent (tool_catch prefix e).
Proof. intros w. destruct e; reflexivity. Qed.

Lemma silent_value_or_empty (o : option json) : silent (value_or_empty o).
Proof.
  unfold value_or_empty. apply silent_bind; [apply silent_js_truthy |].
  intros []; cbn [negb]; [| apply silent_ret].
  destruct o as [[]|]; first [apply silent_ret | apply silent_unmodelled].
Qed.

Lemma silent_mapM {A B} (f : A -> M B) (l : list A) :
  (forall a, silent (f a)) -> silent (mapM f l).
Proof.
  intros Hf. induction l as [|x l IH]; cbn [mapM]; [apply silent_ret |].
  apply silent_bind; [apply Hf | intros y].
  apply silent_bind; [exact IH | intros ys; apply silent_ret].
Qed.

Ltac silence0 :=
  repeat first
    [ apply silent_ret
    | apply silent_unmodelled
    | apply silent_js_truthy
    | apply silent_js_member
    | apply silent_template
    | apply silent_value_or_empty
    | apply silent_bind; [| intros ?]
    | match goal with
      | |- silent (if ?b then _ else _) => destruct b
      | |- silent (match ?l with [] => _ | _ :: _ => _ end) => destruct l
      end ].

Lemma silent_format_list (list : json) : silent (format_list list).
Proof. unfold format_list. silence0. Qed.

Ltac silence :=
  repeat first
    [ apply silent_mapM; intros ?; apply silent_format_list
    | progress silence0 ].

Section ToolEvents.
Variables (url method : string) (b : Body).

Lemma silent_only {A} (m : M A) (w : World) :
  silent m -> keeps (adds (only_request url method b)) m w.
Proof. intros H. apply keeps_pure; [apply adds_refl | apply H]. Qed.

Lemma getAccessToken_only (w : World) :
  keeps (adds (only_request url method b)) getAccessToken w.
Proof.
  apply getAccessToken_keeps; try (intros; exact I).
  intros p path e He. destruct e; try exact I. cbn in He |- *. now right.
Qed.

Lemma makeGraphRequest_only (token : string) (body : option json) (w : World) :
  fst (request_body method body w) = Ret b ->
  keeps (adds (only_request url method b))
    (makeGraphRequest url token method body) w.
Proof.
  intros Hb. apply makeGraphRequest_keeps with (b := b);
    try (intros; exact I); [| | exact Hb].
  - intros p path e He. destruct e; try exact I. cbn in He |- *. now right.
  - intros p path t reply. left. now exists t.
Qed.

Lemma console_only (m : ConsoleMsg) (w : World) :
  keeps (adds (only_request url method b)) (console_error m) w.
Proof. apply keeps_console_error. adds_peel. Qed.

(** A handler: the token, then [k]; its [catch] is silent. *)
Lemma handler_only (k : string -> M ToolResult) (prefix : string) (w : World) :
  (forall token w1, keeps (adds (only_request url method b)) (k token) w1) ->
  keeps (adds (only_request url method b))
    (try_catch (token ← getAccessToken;
                match truthy_string token with
                | None => mret unauthenticated
                | Some token => k token
                end) (tool_catch prefix)) w.
Proof.
  intros Hk.
  apply (keeps_try_catch _ (adds_trans _)).
  - apply (keeps_bind _ (adds_trans _)); [apply getAccessToken_only |].
    intros token w1 _ _.
    destruct (truthy_string token); [apply Hk | apply silent_only, silent_ret].
  - intros e w1 _ _. apply silent_only, silent_tool_catch.
Qed.

(** The request, and a silent rest. *)
Lemma request_only {A} (token : string) (body : option json)
    (k : json -> M A) (w : World) :
  fst (request_body method body w) = Ret b ->
  (forall v, silent (k v)) ->
  keeps (adds (only_request url method b))
    (makeGraphRequest url token method body ≫= k) w.
Proof.
  intros Hb Hk. apply (keeps_bind _ (adds_trans _)).
  - now apply makeGraphRequest_only.
  - intros v w1 _ _. apply silent_only, Hk.
Qed.

End ToolEvents.

(** X24: each tool makes no HTTP call but its own: the one request that it
    is there for, to its URL under the base of the remote API and with its
    method and body, under the token of the Token Manager (twice when a 401
    brought another token), and the form posts of a token refresh. *)
Theorem tools_call_only_their_request (w : World) :
  let lists := MS_GRAPH_BASE ++ "/me/todo/lists" in
  adds (only_request lists "GET" NoBody) w (snd (get_task_lists w)) /\
  (forall name,
     adds (only_request lists "POST"
             (JsonBody (JObj [("displayName", JStr name)])))
       w (snd (create_task_list name w))) /\
  (forall listId name,
     adds (only_request (lists ++ "/" ++ listId) "PATCH"
             (JsonBody (JObj [("displayName", JStr name)])))
       w (snd (update_task_list listId name w))) /\
  (forall listId,
     adds (only_request (lists ++ "/" ++ listId) "DELETE" NoBody)
       w (snd (delete_task_list listId w))) /\
  (forall listId title a,
     adds (only_request (lists ++ "/" ++ listId ++ "/tasks") "POST"
             (JsonBody (JObj (create_task_body title a))))
       w (snd (create_task listId title a w))) /\
  (forall listId taskId title a,
     adds (only_request (lists ++ "/" ++ listId ++ "/tasks/" ++ taskId) "PATCH"
             (JsonBody (JObj (update_task_body title a))))
       w (snd (update_task listId taskId title a w))) /\
  (forall listId taskId,
     adds (only_request (lists ++ "/" ++ listId ++ "/tasks/" ++ taskId)
             "DELETE" NoBody)
       w (snd (delete_task listId taskId w))) /\
  (forall listId taskId name isChecked,
     adds (only_request
             (lists ++ "/" ++ listId ++ "/tasks/" ++ taskId ++ "/checklistItems")
             "POST"
             (JsonBody (JObj ([("displayName", JStr name)]
                              ++ assigned "isChecked" JBool isChecked))))
       w (snd (create_checklist_item listId taskId name isChecked w))) /\
  (forall listId taskId itemId name isChecked,
     adds (only_request
             (lists ++ "/" ++ listId ++ "/tasks/" ++ taskId
                ++ "/checklistItems/" ++ itemId)
             "PATCH"
             (JsonBody (JObj (update_checklist_item_body name isChecked))))
       w (snd (update_checklist_item listId taskId itemId name isChecked w))) /\
  (forall listId taskId itemId,
     adds (only_request
             (lists ++ "/" ++ listId ++ "/tasks/" ++ taskId
                ++ "/checklistItems/" ++ itemId)
             "DELETE" NoBody)
       w (snd (delete_checklist_item listId taskId itemId w))).
Proof.
  cbv zeta.
  repeat match goal with |- _ /\ _ => split end; intros.
  - unfold get_task_lists, get_task_lists_try. apply handler_only.
    intros token w1. apply request_only; [reflexivity | intros v; silence].
  - unfold create_task_list, create_task_list_try. apply handler_only.
    intros token w1. apply request_only; [reflexivity | intros v; silence].
  - unfold update_task_list, update_task_list_try. apply handler_only.
    intros token w1. apply request_only; [reflexivity | intros v; silence].
  - unfold delete_task_list, delete_task_list_try. apply handler_only.
    intros token w1. apply (keeps_bind _ (adds_trans _)); [apply console_only |].
    intros u w2 _ _. apply request_only; [reflexivity | intros v; silence].
  - unfold create_task, create_task_try. apply handler_only.
    intros token w1. apply request_only; [reflexivity | intros v; silence].
  - unfold update_task, update_task_try. apply handler_only.
    intros token w1. destruct (update_task_body title a);
      [apply silent_only, silent_ret |].
    apply request_only; [reflexivity | intros v; silence].
  - unfold delete_task, delete_task_try. apply handler_only.
    intros token w1. apply (keeps_bind _ (adds_trans _)); [apply console_only |].
    intros u w2 _ _. apply request_only; [reflexivity | intros v; silence].
  - unfold create_checklist_item, create_checklist_item_try. apply handler_only.
    intros token w1. apply request_only; [reflexivity | intros v; silence].
  - unfold update_checklist_item, update_checklist_item_try. apply handler_only.
    intros token w1. destruct (update_checklist_item_body name isChecked);
      [apply silent_only, silent_ret |].
    apply request_only; [reflexivity | intros v; silence].
  - unfold delete_checklist_item, delete_checklist_item_try. apply handler_only.
    intros token w1. apply (keeps_bind _ (adds_trans _)); [apply console_only |].
    intros u w2 _ _. apply request_only; [reflexivity | intros v; silence].
Qed.


(** ** [isPersonalMicrosoftAccount] *)

Ltac upn_case :=
  destruct (Json.get "userPrincipalName" _) as [[| | | |?u| |]|];
    try discriminate; cbn [js_truthy Json.truthy]; run;
    try (intros [= <-]; reflexivity);
    match goal with
    | |- context [String.eqb ?u EmptyString] =>
        let E := fresh "E" in
        destruct (String.eqb u EmptyString) eqn:E; cbn [negb];
        intros [= <-]; [apply String.eqb_eq in E; now subst u | reflexivity]
    end.

Lemma email_of_profile (ms : list (string * json)) (email : string) (w : World) :
  profile_email ms = Some email ->
  email_of (JObj ms) w = (Ret (JStr email), w).
Proof.
  unfold profile_email, email_of. cbn [js_member]. run.
  destruct (Json.get "mail" ms) as [[| | | |m| |]|]; try discriminate;
    cbn [js_truthy Json.truthy]; run.
  - upn_case.
  - destruct (String.eqb m EmptyString); cbn [negb]; run;
      [upn_case | intros [= <-]; reflexivity].
  - upn_case.
Qed.

(** The outcome for a profile. *)
Lemma isPersonalMicrosoftAccount_profile (token : string) (w : World)
    (r : Response) (rest : list NetReply) (ms : list (string * json))
    (rest' email : string) :
  fst (getAccessToken w) = Ret (Some token) ->
  token <> EmptyString ->
  net (snd (getAccessToken w)) = Responds r :: rest ->
  ok r = true ->
  Json.parse (text r) = Parsed (JObj ms) rest' ->
  profile_email ms = Some email ->
  let w1 := emit (Fetch (me_request token) (Responds r))
              (set_net rest (snd (getAccessToken w))) in
  isPersonalMicrosoftAccount w =
    (Ret (is_personal_email email),
     if is_personal_email email
     then emit (Console (Log (personal_banner email))) w1
     else w1).
Proof.
  intros Ho Hne Hnet Hok Hparse Hmail w1. subst w1.
  unfold isPersonalMicrosoftAccount, isPersonalMicrosoftAccount_try, try_catch.
  unfold mbind at 1. unfold M_bind at 1.
  destruct (getAccessToken w) as [res w0]. cbn [fst snd] in *. subst res.
  cbn [truthy_string]. apply String.eqb_neq in Hne. rewrite Hne.
  unfold mbind at 1. unfold M_bind at 1. unfold fetch. rewrite Hnet, Hok.
  cbn [negb]. unfold Response_json, JSON_parse, JSON_parse_as.
  unfold mbind at 1. unfold M_bind at 1. rewrite Hparse.
  unfold mret at 1. unfold M_ret at 1.
  unfold mbind at 1. unfold M_bind at 1.
  rewrite (email_of_profile ms email _ Hmail).
  unfold is_personal_email.
  destruct (truthy_string _) as [domain|]; [| reflexivity].
  destruct (existsb _ _); reflexivity.
Qed.

(** X25: [isPersonalMicrosoftAccount] never throws, and it answers [false]
    whenever it cannot tell: without a token, with no HTTP call at all; and
    when the profile request fails, whatever the status -- a 401 is not
    tried again here. *)
Theorem isPersonalMicrosoftAccount_cannot_tell (w : World) :
  (forall e, fst (isPersonalMicrosoftAccount w) <> Throw e) /\
  (forall o, fst (getAccessToken w) = Ret o -> truthy_string o = None ->
     isPersonalMicrosoftAccount w = (Ret false, snd (getAccessToken w))) /\
  (forall token r rest,
     fst (getAccessToken w) = Ret (Some token) ->
     token <> EmptyString ->
     net (snd (getAccessToken w)) = Responds r :: rest ->
     ok r = false ->
     isPersonalMicrosoftAccount w =
       (Ret false,
        emit (Console (Log ("Error getting user info: " ++ print_Z (status r))))
          (emit (Fetch (me_request token) (Responds r))
             (set_net rest (snd (getAccessToken w)))))).
Proof.
  split; [| split].
  - unfold isPersonalMicrosoftAccount. apply try_catch_never_throws.
    intros; discriminate.
  - intros o Ho Hnone.
    unfold isPersonalMicrosoftAccount, isPersonalMicrosoftAccount_try, try_catch.
    unfold mbind, M_bind.
    destruct (getAccessToken w) as [res w0]. cbn [fst snd] in *. subst res.
    now rewrite Hnone.
  - intros token r rest Ho Hne Hnet Hok.
    unfold isPersonalMicrosoftAccount, isPersonalMicrosoftAccount_try, try_catch.
    unfold mbind at 1. unfold M_bind at 1.
    destruct (getAccessToken w) as [res w0]. cbn [fst snd] in *. subst res.
    cbn [truthy_string]. apply String.eqb_neq in Hne. rewrite Hne.
    unfold mbind at 1. unfold M_bind at 1. unfold fetch. rewrite Hnet, Hok.
    reflexivity.
Qed.

Lemma isPersonalMicrosoftAccount_cannot_tell_witness :
  let w := Examples.lasting_store [Responds Examples.unauthorized;
                                   Responds Examples.found] in
  fst (isPersonalMicrosoftAccount w) = Ret false /\
  net (snd (isPersonalMicrosoftAccount w)) = [Responds Examples.found].
Proof.
  cbv zeta.
  destruct (isPersonalMicrosoftAccount_cannot_tell
              (Examples.lasting_store [Responds Examples.unauthorized;
                                       Responds Examples.found]))
    as (_ & _ & H).
  rewrite (H "A2" Examples.unauthorized [Responds Examples.found]);
    [| vm_compute; reflexivity | discriminate | vm_compute; reflexivity
     | reflexivity].
  split; reflexivity.
Defined.

Lemma split_no_separator (sep : ascii) (s : string) :
  includes s (String sep EmptyString) = false -> split sep s = [s].
Proof.
  induction s as [|c s IH]; [reflexivity |].
  cbn [includes String.prefix split].
  destruct (ascii_dec sep c) as [<- | Hne].
  - destruct s; discriminate.
  - cbn [orb]. intros H. rewrite (IH H).
    destruct (Ascii.eqb c sep) eqn:E; [| reflexivity].
    apply Ascii.eqb_eq in E. congruence.
Qed.

Lemma split_at_separator (sep : ascii) (a b : string) :
  includes a (String sep EmptyString) = false ->
  split sep (a ++ String sep b) = a :: split sep b.
Proof.
  induction a as [|c a IH].
  - intros _. cbn [String.append split]. now rewrite Ascii.eqb_refl.
  - cbn [includes String.prefix]. destruct (ascii_dec sep c) as [<- | Hne].
    + destruct a; discriminate.
    + cbn [orb]. intros H.
      change (String c a ++ String sep b) with (String c (a ++ String sep b)).
      cbn [split]. rewrite (IH H).
      destruct (Ascii.eqb c sep) eqn:E; [| reflexivity].
      apply Ascii.eqb_eq in E. congruence.
Qed.

(** X26: for a profile whose address is [local@domain], the answer is
    whether [domain], in lower case, contains one of the five personal
    domains: the case of the letters and the local part do not matter, and a
    domain that merely contains one of them counts.  The address is [mail],
    or [userPrincipalName] when [mail] is absent, null or empty; the warning
    is written on the console exactly when the answer is [true]. *)
Theorem isPersonalMicrosoftAccount_by_domain (token : string) (w : World)
    (r : Response) (rest : list NetReply) (ms : list (string * json))
    (rest' local domain : string) :
  fst (getAccessToken w) = Ret (Some token) ->
  token <> EmptyString ->
  net (snd (getAccessToken w)) = Responds r :: rest ->
  ok r = true ->
  Json.parse (text r) = Parsed (JObj ms) rest' ->
  profile_email ms = Some (local ++ "@" ++ domain) ->
  includes local "@" = false ->
  includes domain "@" = false ->
  let personal := existsb (includes (toLowerCase domain)) personalDomains in
  let w1 := emit (Fetch (me_request token) (Responds r))
              (set_net rest (snd (getAccessToken w))) in
  isPersonalMicrosoftAccount w =
    (Ret personal,
     if personal
     then emit (Console (Log (personal_banner (local ++ "@" ++ domain)))) w1
     else w1).
Proof.
  intros Ho Hne Hnet Hok Hparse Hmail Hlocal Hdomain personal w1.
  rewrite (isPersonalMicrosoftAccount_profile token w r rest ms rest' _
             Ho Hne Hnet Hok Hparse Hmail).
  fold w1.
  assert (E : is_personal_email (local ++ "@" ++ domain) = personal).
  { unfold is_personal_email.
    change (local ++ "@" ++ domain) with (local ++ String "@" domain).
    rewrite (split_at_separator _ _ _ Hlocal), (split_no_separator _ _ Hdomain).
    cbn [nth_error fmap option_fmap option_map truthy_string].
    destruct domain as [|c d]; [reflexivity |]. reflexivity. }
  now rewrite E.
Qed.

Lemma isPersonalMicrosoftAccount_by_domain_witness :
  let w := Examples.lasting_store [Responds MoreExamples.profile] in
  fst (isPersonalMicrosoftAccount w) = Ret true.
Proof.
  cbv zeta.
  rewrite (isPersonalMicrosoftAccount_by_domain "A2"
             (Examples.lasting_store [Responds MoreExamples.profile])
             MoreExamples.profile []
             [("displayName", JStr "Ann"); ("mail", JNull);
              ("userPrincipalName", JStr "Ann.Lee@Outlook.COM")]
             EmptyString "Ann.Lee" "Outlook.COM");
    [reflexivity | vm_compute; reflexivity | discriminate
     | vm_compute; reflexivity ..].
Defined.

(** ** The query of [get-tasks] *)











